(** * Web Tic-Tac-Toe: rules engines and room coordinator

    A shallow embedding of the server of the repository:
    - [server/games/TicTacToeGame.js] as [Module TicTacToe],
    - [server/games/Connect4Game.js] as [Module Connect4],
    - the socket handlers of the server entry point as [Module Server],
    - the rules of the entry point's first version, which had tic-tac-toe
      in its handlers, as [Module Legacy].

    JavaScript values that the code compares with [===] and [!==] are kept
    distinct ([undefined], [null], numbers), array reads out of range give
    [undefined], and a read of a property of [undefined] throws, which the
    model renders as [None] in the [option] monad. Game-state objects live in
    a store and are named by their location, so that [!==] on two objects is
    a comparison of locations. *)

From Stdlib Require Import ZArith NArith Lia Bool List Ascii String.
From stdpp Require Import base option list strings.
Import ListNotations.

Local Open Scope Z_scope.

(** ** JavaScript values held in boards and result records *)

Inductive jsval :=
| JUndefined
| JNull
| JNum (n : Z).

(** [a === b] on the values above. *)
Definition strict_eq (a b : jsval) : bool :=
  match a, b with
  | JUndefined, JUndefined => true
  | JNull, JNull => true
  | JNum x, JNum y => x =? y
  | _, _ => false
  end.

(** [arr[i]] for an integer [i]: [None] is JavaScript's [undefined]. *)
Definition elem {A} (arr : list A) (i : Z) : option A :=
  if i <? 0 then None else arr !! Z.to_nat i.

(** [arr[k]] where the key itself may be [undefined] (an absent field of the
    move payload): an array has no such property. *)
Definition js_get (arr : list jsval) (k : option Z) : jsval :=
  match k with
  | Some i => default JUndefined (elem arr i)
  | None => JUndefined
  end.

(** [arr[k] = v]. Inside the array the cell is overwritten; past its end
    JavaScript extends the array with holes, which read as [undefined]. A
    negative or absent key would add a named property and leave the cells
    alone. *)
Definition js_set (arr : list jsval) (k : option Z) (v : jsval) : list jsval :=
  match k with
  | Some i =>
      if i <? 0 then arr
      else
        let n := Z.to_nat i in
        if (n <? length arr)%nat then <[n := v]> arr
        else arr ++ repeat JUndefined (n - length arr) ++ [v]
  | None => arr
  end.

(** The [status] strings. *)
Inductive Status := waiting | playing | won | draw.

Definition Status_eqb (a b : Status) : bool :=
  match a, b with
  | waiting, waiting | playing, playing | won, won | draw, draw => true
  | _, _ => false
  end.

(** The [move] payload: [{index}] for tic-tac-toe, [{column}] for
    connect-four. A field the client did not send is [undefined]. *)
Record move := Move { index : option Z; column : option Z }.

(** What [makeMove] hands back: its own argument ([return gameState]) or an
    object it has just built. Callers tell the two apart with [!==]. *)
Inductive returned (A : Type) :=
| SameObject
| NewObject (a : A).
Arguments SameObject {A}.
Arguments NewObject {A} a.

Definition returned_state {A} (old : A) (r : returned A) : A :=
  match r with
  | SameObject => old
  | NewObject s => s
  end.

(** ** server/games/TicTacToeGame.js *)

Module TicTacToe.

Record state := mkState {
  board : list jsval;
  currentPlayer : Z;
  winner : jsval;
  status : Status;
  winningPattern : option (list Z)
}.

Definition init : state :=
  {| board := repeat JNull 9;
     currentPlayer := 0;
     winner := JNull;
     status := waiting;
     winningPattern := None |}.

Definition isValidMove (gameState : state) (playerIndex : Z) (mv : move) : bool :=
  if negb (currentPlayer gameState =? playerIndex) then false
  else if negb (Status_eqb (status gameState) playing) then false
  else if negb (strict_eq (js_get (board gameState) (index mv)) JNull) then false
  else true.

Definition getNextPlayer (gameState : state) : Z :=
  if currentPlayer gameState =? 0 then 1 else 0.

(** The result record of [checkGameOver]: [{isOver: true, status, winner,
    winningPattern}] or [{isOver: false}]. *)
Inductive gameOver :=
| Over (st : Status) (w : jsval) (pattern : option (list Z))
| NotOver.

Definition winPatterns : list (list Z) :=
  [ [0; 1; 2]; [3; 4; 5]; [6; 7; 8];
    [0; 3; 6]; [1; 4; 7]; [2; 5; 8];
    [0; 4; 8]; [2; 4; 6] ].

(** The condition of the [if] inside the loop, with [[a, b, c] = pattern]. *)
Definition lineOwned (b : list jsval) (pattern : list Z) : bool :=
  let a := js_get b (pattern !! 0%nat) in
  let b' := js_get b (pattern !! 1%nat) in
  let c := js_get b (pattern !! 2%nat) in
  negb (strict_eq a JNull) && strict_eq a b' && strict_eq a c.

(** The [for (const pattern of winPatterns)] loop: the first pattern that
    passes the test is returned. *)
Fixpoint scanPatterns (b : list jsval) (patterns : list (list Z)) : option gameOver :=
  match patterns with
  | [] => None
  | pattern :: rest =>
      if lineOwned b pattern
      then Some (Over won (js_get b (pattern !! 0%nat)) (Some pattern))
      else scanPatterns b rest
  end.

(** [board.includes(null)]. *)
Definition includesNull (b : list jsval) : bool :=
  existsb (fun c => strict_eq c JNull) b.

Definition checkGameOver (gameState : state) : gameOver :=
  match scanPatterns (board gameState) winPatterns with
  | Some r => r
  | None =>
      if negb (includesNull (board gameState))
      then Over draw JNull None
      else NotOver
  end.

Definition makeMove (gameState : state) (playerIndex : Z) (mv : move)
  : returned state :=
  if negb (isValidMove gameState playerIndex mv) then SameObject
  else
    let newGameState :=
      {| board := js_set (board gameState) (index mv) (JNum playerIndex);
         currentPlayer := currentPlayer gameState;
         winner := winner gameState;
         status := status gameState;
         winningPattern := winningPattern gameState |} in
    match checkGameOver newGameState with
    | Over st w pattern =>
        NewObject
          {| board := board newGameState;
             currentPlayer := currentPlayer newGameState;
             winner := w;
             status := st;
             winningPattern := pattern |}
    | NotOver =>
        NewObject
          {| board := board newGameState;
             currentPlayer := getNextPlayer newGameState;
             winner := winner newGameState;
             status := status newGameState;
             winningPattern := winningPattern newGameState |}
    end.

Definition getMaxPlayers : Z := 2.

Definition getPlayerSetup (playerIndex : Z) : string :=
  if playerIndex =? 0 then "X"%string else "O"%string.

(** A state as [init] and [makeMove] build it: nine cells, each [null] or
    a player index. *)
Definition wf (s : state) : Prop :=
  length (board s) = 9%nat /\ Forall (fun c => c <> JUndefined) (board s).

End TicTacToe.

(** ** server/games/Connect4Game.js *)

Module Connect4.

(** [board[x][y]]: seven columns of six cells, row 0 at the top and row 5
    at the bottom. *)
Record state := mkState {
  board : list (list jsval);
  currentPlayer : Z;
  winner : jsval;
  status : Status;
  winningCells : option (list (Z * Z))
}.

Definition init : state :=
  {| board := repeat (repeat JNull 6) 7;
     currentPlayer := 0;
     winner := JNull;
     status := waiting;
     winningCells := None |}.

(** [board[k]]; [None] is [undefined], and reading a cell of it throws. *)
Definition columnAt (b : list (list jsval)) (k : option Z) : option (list jsval) :=
  match k with
  | Some x => elem b x
  | None => None
  end.

(** [k < n] and [k >= n] on a possibly absent number: a comparison with
    [undefined] is false. *)
Definition num_ltb (k : option Z) (n : Z) : bool :=
  match k with Some x => x <? n | None => false end.
Definition num_geb (k : option Z) (n : Z) : bool :=
  match k with Some x => n <=? x | None => false end.

(** [None] stands for the [TypeError] of [board[move.column][0]] on a
    column that does not exist. *)
Definition isValidMove (gameState : state) (playerIndex : Z) (mv : move)
  : option bool :=
  if negb (currentPlayer gameState =? playerIndex) then Some false
  else if negb (Status_eqb (status gameState) playing) then Some false
  else if num_ltb (column mv) 0 || num_geb (column mv) 7 then Some false
  else
    match columnAt (board gameState) (column mv) with
    | None => None
    | Some col =>
        if negb (strict_eq (js_get col (Some 0)) JNull) then Some false
        else Some true
    end.

Definition getNextPlayer (gameState : state) : Z :=
  if currentPlayer gameState =? 0 then 1 else 0.

Inductive gameOver :=
| Over (st : Status) (w : jsval) (cells : option (list (Z * Z)))
| NotOver.

Definition directions : list (Z * Z) :=
  [ (1, 0); (0, 1); (1, 1); (1, -1) ].

Definition inBounds (x y : Z) : bool :=
  (0 <=? x) && (x <? 7) && (0 <=? y) && (y <? 6).

(** The [while] loop of one direction, started at [(x, y)] with step
    [(dx, dy)]. [left] is [3 - count]: the loop condition tests the
    bounds, then the cell, then [count < 3], and every iteration adds one
    to [count]. The cells pushed onto [winningCells] are returned. *)
Fixpoint walk (b : list (list jsval)) (playerIndex : Z) (dx dy : Z)
         (left : nat) (x y : Z) : option (list (Z * Z)) :=
  if inBounds x y then
    match columnAt b (Some x) with
    | None => None
    | Some col =>
        if strict_eq (js_get col (Some y)) (JNum playerIndex) then
          match left with
          | O => Some []
          | S left' =>
              match walk b playerIndex dx dy left' (x + dx) (y + dy) with
              | None => None
              | Some rest => Some ((x, y) :: rest)
              end
          end
        else Some []
    end
  else Some [].

(** [winningCells] after the [for (const multiplier of [1, -1])] loop. *)
Definition lineCells (b : list (list jsval)) (lastColumn lastRow playerIndex : Z)
           (d : Z * Z) : option (list (Z * Z)) :=
  let '(dx, dy) := d in
  fwd ← walk b playerIndex (dx * 1) (dy * 1) 3
           (lastColumn + dx * 1) (lastRow + dy * 1);
  bwd ← walk b playerIndex (dx * -1) (dy * -1) 3
           (lastColumn + dx * -1) (lastRow + dy * -1);
  Some ((lastColumn, lastRow) :: fwd ++ bwd).

(** The [for (const [dx, dy] of directions)] loop; [Some None] when no
    direction returned. *)
Fixpoint scanDirections (b : list (list jsval)) (lastColumn lastRow playerIndex : Z)
         (ds : list (Z * Z)) : option (option gameOver) :=
  match ds with
  | [] => Some None
  | d :: rest =>
      match lineCells b lastColumn lastRow playerIndex d with
      | None => None
      | Some cells =>
          if (4 <=? length cells)%nat
          then Some (Some (Over won (JNum playerIndex) (Some cells)))
          else scanDirections b lastColumn lastRow playerIndex rest
      end
  end.

(** [board.every(column => column[0] !== null)]. *)
Definition isBoardFull (b : list (list jsval)) : bool :=
  forallb (fun col => negb (strict_eq (js_get col (Some 0)) JNull)) b.

Definition checkGameOver (gameState : state) (lastColumn lastRow playerIndex : Z)
  : option gameOver :=
  r ← scanDirections (board gameState) lastColumn lastRow playerIndex directions;
  match r with
  | Some over => Some over
  | None =>
      if isBoardFull (board gameState) then Some (Over draw JNull None)
      else Some NotOver
  end.

(** The [for (let r = 5; r >= 0; r--)] loop of [makeMove]: the first row,
    from the bottom, whose cell is [null]. *)
Fixpoint findRow (col : list jsval) (rs : list Z) : option Z :=
  match rs with
  | [] => None
  | r :: rest =>
      if strict_eq (js_get col (Some r)) JNull then Some r
      else findRow col rest
  end.

Definition rows : list Z := [5; 4; 3; 2; 1; 0].

(** [board[c][r] = v] on the cloned board. *)
Definition setCell (b : list (list jsval)) (c r : Z) (v : jsval) : list (list jsval) :=
  match elem b c with
  | Some col => <[Z.to_nat c := js_set col (Some r) v]> b
  | None => b
  end.

(** The piece is placed by the loop; [row] stays 0 and the board is left
    alone when the loop finds no empty cell. *)
Definition dropPiece (b : list (list jsval)) (c playerIndex : Z)
  : option (Z * list (list jsval)) :=
  col ← columnAt b (Some c);
  match findRow col rows with
  | Some r => Some (r, setCell b c r (JNum playerIndex))
  | None => Some (0, b)
  end.

(** After a successful [isValidMove] the column is a number, so the bind on
    [column mv] cannot fail on its own. *)
Definition makeMove (gameState : state) (playerIndex : Z) (mv : move)
  : option (returned state) :=
  valid ← isValidMove gameState playerIndex mv;
  if negb valid then Some SameObject
  else
    c ← column mv;
    '(row, newBoard) ← dropPiece (board gameState) c playerIndex;
    let newGameState :=
      {| board := newBoard;
         currentPlayer := currentPlayer gameState;
         winner := winner gameState;
         status := status gameState;
         winningCells := winningCells gameState |} in
    over ← checkGameOver newGameState c row playerIndex;
    match over with
    | Over st w cells =>
        Some (NewObject
          {| board := newBoard;
             currentPlayer := currentPlayer newGameState;
             winner := w;
             status := st;
             winningCells := cells |})
    | NotOver =>
        Some (NewObject
          {| board := newBoard;
             currentPlayer := getNextPlayer newGameState;
             winner := winner newGameState;
             status := status newGameState;
             winningCells := winningCells newGameState |})
    end.

Definition getMaxPlayers : Z := 2.

Definition getPlayerSetup (playerIndex : Z) : string :=
  if playerIndex =? 0 then "red"%string else "yellow"%string.

(** A board as [init] and [makeMove] build it: seven columns of six cells,
    each [null] or a player index. *)
Definition wf_board (b : list (list jsval)) : Prop :=
  length b = 7%nat /\
  Forall (fun col => length col = 6%nat /\ Forall (fun c => c <> JUndefined) col) b.

Definition wf (s : state) : Prop := wf_board (board s).

(** [board[x][y]] as a value, for statements about single cells. *)
Definition cellAt (b : list (list jsval)) (x y : Z) : jsval :=
  match elem b x with
  | Some col => js_get col (Some y)
  | None => JUndefined
  end.

End Connect4.

(** ** The server entry point: rooms and socket handlers *)

Module Server.

(** The two registered classes; a [gameInstance] is an object of one of
    them, and the objects of a class all behave alike. *)
Inductive gameClass := TicTacToeGame | Connect4Game.

(** [const gameTypes = {'tic-tac-toe': ..., 'connect4': ...}]. Property
    names inherited from [Object.prototype] are not modelled. *)
Definition gameTypes (gameType : string) : option gameClass :=
  if String.eqb gameType "tic-tac-toe" then Some TicTacToeGame
  else if String.eqb gameType "connect4" then Some Connect4Game
  else None.

(** A game-state object of either engine. *)
Inductive gstate :=
| TState (s : TicTacToe.state)
| CState (s : Connect4.state).

(** [{symbol: ...}] or [{color: ...}]. *)
Inductive playerInfo :=
| Symbol (s : string)
| Color (c : string).

(** Method calls on [room.gameInstance]. A room's state is always built
    by the room's own instance ([init], then [makeMove]); a call on the
    other engine's state does not arise and is given no result. *)
Definition init (g : gameClass) : gstate :=
  match g with
  | TicTacToeGame => TState TicTacToe.init
  | Connect4Game => CState Connect4.init
  end.

Definition getMaxPlayers (g : gameClass) : Z :=
  match g with
  | TicTacToeGame => TicTacToe.getMaxPlayers
  | Connect4Game => Connect4.getMaxPlayers
  end.

Definition getPlayerSetup (g : gameClass) (playerIndex : Z) : playerInfo :=
  match g with
  | TicTacToeGame => Symbol (TicTacToe.getPlayerSetup playerIndex)
  | Connect4Game => Color (Connect4.getPlayerSetup playerIndex)
  end.

Definition isValidMove (g : gameClass) (s : gstate) (playerIndex : Z) (mv : move)
  : option bool :=
  match g, s with
  | TicTacToeGame, TState t => Some (TicTacToe.isValidMove t playerIndex mv)
  | Connect4Game, CState c => Connect4.isValidMove c playerIndex mv
  | _, _ => None
  end.

Definition makeMove (g : gameClass) (s : gstate) (playerIndex : Z) (mv : move)
  : option (returned gstate) :=
  match g, s with
  | TicTacToeGame, TState t =>
      match TicTacToe.makeMove t playerIndex mv with
      | SameObject => Some SameObject
      | NewObject t' => Some (NewObject (TState t'))
      end
  | Connect4Game, CState c =>
      r ← Connect4.makeMove c playerIndex mv;
      match r with
      | SameObject => Some SameObject
      | NewObject c' => Some (NewObject (CState c'))
      end
  | _, _ => None
  end.

(** [gameState.status = st], an assignment to one field of the object. *)
Definition setStatus (st : Status) (s : gstate) : gstate :=
  match s with
  | TState t =>
      TState {| TicTacToe.board := TicTacToe.board t;
                TicTacToe.currentPlayer := TicTacToe.currentPlayer t;
                TicTacToe.winner := TicTacToe.winner t;
                TicTacToe.status := st;
                TicTacToe.winningPattern := TicTacToe.winningPattern t |}
  | CState c =>
      CState {| Connect4.board := Connect4.board c;
                Connect4.currentPlayer := Connect4.currentPlayer c;
                Connect4.winner := Connect4.winner c;
                Connect4.status := st;
                Connect4.winningCells := Connect4.winningCells c |}
  end.

Definition statusOf (s : gstate) : Status :=
  match s with
  | TState t => TicTacToe.status t
  | CState c => Connect4.status c
  end.

Definition currentPlayerOf (s : gstate) : Z :=
  match s with
  | TState t => TicTacToe.currentPlayer t
  | CState c => Connect4.currentPlayer c
  end.

(** *** The object store

    Game-state objects are allocated by [init] and by a valid [makeMove]
    and are never freed; a location is the position of the object in the
    store. Two references are [===] exactly when they are the same
    location. *)
Abbreviation loc := nat (only parsing).
Abbreviation store := (list gstate) (only parsing).

Definition alloc (h : store) (s : gstate) : store * loc :=
  (h ++ [s], length h).

(** [gameInstance.makeMove(room.gameState, playerIndex, move)] on
    references: the reference passed in, or a reference to a new object. *)
Definition callMakeMove (g : gameClass) (h : store) (l : loc)
           (playerIndex : Z) (mv : move) : option (store * loc) :=
  s ← h !! l;
  r ← makeMove g s playerIndex mv;
  match r with
  | SameObject => Some (h, l)
  | NewObject s' => Some (alloc h s')
  end.

(** *** Rooms *)

Record player := mkPlayer {
  p_id : string;
  p_username : string;
  p_index : Z;
  p_info : playerInfo
}.

Record spectator := mkSpectator {
  s_id : string;
  s_username : string
}.

Record room := mkRoom {
  r_id : string;
  gameType : string;
  gameInstance : gameClass;
  players : list player;
  gameState : loc;
  spectators : list spectator
}.

Definition withPlayers (r : room) (ps : list player) : room :=
  {| r_id := r_id r; gameType := gameType r;
     gameInstance := gameInstance r; players := ps;
     gameState := gameState r; spectators := spectators r |}.

Definition withSpectators (r : room) (ss : list spectator) : room :=
  {| r_id := r_id r; gameType := gameType r;
     gameInstance := gameInstance r; players := players r;
     gameState := gameState r; spectators := ss |}.

Definition withGameState (r : room) (l : loc) : room :=
  {| r_id := r_id r; gameType := gameType r;
     gameInstance := gameInstance r; players := players r;
     gameState := l; spectators := spectators r |}.

(** *** [const rooms = {}]

    The table is kept in the order in which [for (const roomId in rooms)]
    visits it: keys that are array indices first, by value, then the other
    keys in the order of their creation. *)

Definition digit (c : ascii) : option N :=
  let n := N_of_ascii c in
  if ((48 <=? n) && (n <=? 57))%N then Some (n - 48)%N else None.

Fixpoint digits (s : string) (acc : N) : option N :=
  match s with
  | EmptyString => Some acc
  | String c rest =>
      match digit c with
      | Some d => digits rest (10 * acc + d)%N
      | None => None
      end
  end.

(** The number of a key that is an array index: a canonical decimal
    numeral below [2^32 - 1]. *)
Definition arrayIndex (k : string) : option N :=
  match k with
  | EmptyString => None
  | String c rest =>
      if Ascii.eqb c "0"%char then
        match rest with EmptyString => Some 0%N | _ => None end
      else
        match digits k 0 with
        | Some n => if (n <? 4294967295)%N then Some n else None
        | None => None
        end
  end.

Abbreviation table := (list (string * room)) (only parsing).

Fixpoint rooms_get (rs : table) (k : string) : option room :=
  match rs with
  | [] => None
  | (k', r) :: rest => if String.eqb k' k then Some r else rooms_get rest k
  end.

(** Overwrite the value of an existing key, in place. *)
Fixpoint rooms_replace (rs : table) (k : string) (v : room) : table :=
  match rs with
  | [] => []
  | (k', r) :: rest =>
      if String.eqb k' k then (k', v) :: rest
      else (k', r) :: rooms_replace rest k v
  end.

(** Position of a new array-index key [n]: before the first key that is
    not an array index or has a larger number. *)
Fixpoint rooms_insert_index (rs : table) (n : N) (k : string) (v : room) : table :=
  match rs with
  | [] => [(k, v)]
  | (k', r) :: rest =>
      match arrayIndex k' with
      | Some n' =>
          if (n <? n')%N then (k, v) :: (k', r) :: rest
          else (k', r) :: rooms_insert_index rest n k v
      | None => (k, v) :: (k', r) :: rest
      end
  end.

(** [rooms[k] = v]. *)
Definition rooms_put (rs : table) (k : string) (v : room) : table :=
  match rooms_get rs k with
  | Some _ => rooms_replace rs k v
  | None =>
      match arrayIndex k with
      | Some n => rooms_insert_index rs n k v
      | None => rs ++ [(k, v)]
      end
  end.

Record server := mkServer {
  rooms : table;
  heap : store
}.

Definition empty : server := {| rooms := []; heap := [] |}.

(** *** Outbound events *)

Inductive message :=
| error (message : string)
| roomCreated (roomId gameType : string) (playerIndex : Z)
              (playerInfo : playerInfo) (gameState : gstate)
| joinedAsSpectator (roomId gameType : string) (gameState : gstate)
                    (players : list player)
| spectatorJoined (username : string)
| roomJoined (roomId gameType : string) (playerIndex : Z)
             (playerInfo : playerInfo) (gameState : gstate)
| gameStart (gameState : gstate) (players : list player)
| gameStateUpdate (gameState : gstate)
| gameReset (gameState : gstate)
| playerDisconnected (username : string) (playerIndex : Z) (gameState : gstate)
| spectatorLeft (username : string).

(** [socket.emit] and [io.to(roomId).emit]. *)
Inductive target :=
| toSocket
| toRoom (roomId : string).

Definition emit := (target * message)%type.

(** *** Inbound events

    [uuid] is the string [uuidv4()] returned for this call. *)
Inductive event :=
| createRoom (username : string) (gameType : option string) (uuid : string)
| joinRoom (roomId username : string)
| makeMoveEv (roomId : string) (mv : move)
| resetGame (roomId : string)
| disconnect.

(** [arr.findIndex(f)]; [None] is [-1]. *)
Fixpoint findIndex {A} (f : A -> bool) (l : list A) : option nat :=
  match l with
  | [] => None
  | x :: rest =>
      if f x then Some O
      else match findIndex f rest with
           | Some i => Some (S i)
           | None => None
           end
  end.

Definition isSocket (sid : string) (p : player) : bool :=
  String.eqb (p_id p) sid.

Definition isSpectatorSocket (sid : string) (s : spectator) : bool :=
  String.eqb (s_id s) sid.

(** *** The handlers

    Each handler takes the server's state and the id of the socket the
    event came from, and returns the new state with the events it emitted,
    in order. [None] is an exception escaping the handler. *)

Definition onCreateRoom (σ : server) (sid username : string)
           (gameType : option string) (uuid : string)
  : option (server * list emit) :=
  let gameType := default "tic-tac-toe"%string gameType in
  match gameTypes gameType with
  | None =>
      Some (σ, [(toSocket, error ("Invalid game type: " +:+ gameType))])
  | Some gameInstance =>
      let roomId := substring 0 6 uuid in
      let '(h, initialGameState) := alloc (heap σ) (init gameInstance) in
      let playerSetup := getPlayerSetup gameInstance 0 in
      let room :=
        {| r_id := roomId;
           gameType := gameType;
           gameInstance := gameInstance;
           players := [ {| p_id := sid; p_username := username;
                           p_index := 0; p_info := playerSetup |} ];
           gameState := initialGameState;
           spectators := [] |} in
      s ← h !! initialGameState;
      Some ({| rooms := rooms_put (rooms σ) roomId room; heap := h |},
            [(toSocket, roomCreated roomId gameType 0 playerSetup s)])
  end.

Definition onJoinRoom (σ : server) (sid roomId username : string)
  : option (server * list emit) :=
  match rooms_get (rooms σ) roomId with
  | None => Some (σ, [(toSocket, error "Room not found")])
  | Some room =>
      let gameInstance := gameInstance room in
      let maxPlayers := getMaxPlayers gameInstance in
      if maxPlayers <=? Z.of_nat (length (players room)) then
        let room' :=
          withSpectators room
            (spectators room ++ [ {| s_id := sid; s_username := username |} ]) in
        s ← heap σ !! gameState room;
        Some ({| rooms := rooms_put (rooms σ) roomId room'; heap := heap σ |},
              [(toSocket, joinedAsSpectator roomId (gameType room) s (players room));
               (toRoom roomId, spectatorJoined username)])
      else
        let playerIndex := Z.of_nat (length (players room)) in
        let playerSetup := getPlayerSetup gameInstance playerIndex in
        let room' :=
          withPlayers room
            (players room ++ [ {| p_id := sid; p_username := username;
                                  p_index := playerIndex;
                                  p_info := playerSetup |} ]) in
        let h :=
          if 2 <=? Z.of_nat (length (players room'))
          then alter (setStatus playing) (gameState room) (heap σ)
          else heap σ in
        s ← h !! gameState room;
        Some ({| rooms := rooms_put (rooms σ) roomId room'; heap := h |},
              [(toSocket, roomJoined roomId (gameType room) playerIndex playerSetup s);
               (toRoom roomId, gameStart s (players room'))])
  end.

Definition onMakeMove (σ : server) (sid roomId : string) (mv : move)
  : option (server * list emit) :=
  match rooms_get (rooms σ) roomId with
  | None => Some (σ, [])
  | Some room =>
      match find (isSocket sid) (players room) with
      | None => Some (σ, [])
      | Some player =>
          let gameInstance := gameInstance room in
          let playerIndex := p_index player in
          '(h, updatedGameState) ←
            callMakeMove gameInstance (heap σ) (gameState room) playerIndex mv;
          if negb (Nat.eqb updatedGameState (gameState room)) then
            s ← h !! updatedGameState;
            Some ({| rooms := rooms_put (rooms σ) roomId
                                (withGameState room updatedGameState);
                     heap := h |},
                  [(toRoom roomId, gameStateUpdate s)])
          else Some ({| rooms := rooms σ; heap := h |}, [])
      end
  end.

Definition onResetGame (σ : server) (sid roomId : string)
  : option (server * list emit) :=
  match rooms_get (rooms σ) roomId with
  | None => Some (σ, [])
  | Some room =>
      let gameInstance := gameInstance room in
      let '(h, fresh) := alloc (heap σ) (init gameInstance) in
      let h := alter (setStatus playing) fresh h in
      s ← h !! fresh;
      Some ({| rooms := rooms_put (rooms σ) roomId (withGameState room fresh);
               heap := h |},
            [(toRoom roomId, gameReset s)])
  end.

(** The [for (const roomId in rooms)] loop of the disconnect handler over
    the rooms not yet visited. The loop stops at the first room in which
    the socket is a player; the rooms after it are left as they are. *)
Fixpoint disconnectLoop (sid : string) (todo : table) (h : store)
  : option (table * store * list emit) :=
  match todo with
  | [] => Some ([], h, [])
  | (roomId, room) :: rest =>
      match findIndex (isSocket sid) (players room) with
      | Some playerIndex =>
          match players room !! playerIndex with
          | None => None
          | Some disconnectedPlayer =>
              let room' := withPlayers room (delete playerIndex (players room)) in
              if (length (players room') =? 0)%nat then Some (rest, h, [])
              else
                let h' := alter (setStatus waiting) (gameState room) h in
                match h' !! gameState room with
                | None => None
                | Some s =>
                    Some ((roomId, room') :: rest, h',
                          [(toRoom roomId,
                            playerDisconnected (p_username disconnectedPlayer)
                                               (p_index disconnectedPlayer) s)])
                end
          end
      | None =>
          match findIndex (isSpectatorSocket sid) (spectators room) with
          | Some spectatorIndex =>
              match spectators room !! spectatorIndex with
              | None => None
              | Some disconnectedSpectator =>
                  let room' :=
                    withSpectators room (delete spectatorIndex (spectators room)) in
                  match disconnectLoop sid rest h with
                  | None => None
                  | Some (rs, h', out) =>
                      Some ((roomId, room') :: rs, h',
                            (toRoom roomId,
                             spectatorLeft (s_username disconnectedSpectator)) :: out)
                  end
              end
          | None =>
              match disconnectLoop sid rest h with
              | None => None
              | Some (rs, h', out) => Some ((roomId, room) :: rs, h', out)
              end
          end
      end
  end.

Definition onDisconnect (σ : server) (sid : string)
  : option (server * list emit) :=
  '(rs, h, out) ← disconnectLoop sid (rooms σ) (heap σ);
  Some ({| rooms := rs; heap := h |}, out).

Definition handle (σ : server) (sid : string) (ev : event)
  : option (server * list emit) :=
  match ev with
  | createRoom username gameType uuid => onCreateRoom σ sid username gameType uuid
  | joinRoom roomId username => onJoinRoom σ sid roomId username
  | makeMoveEv roomId mv => onMakeMove σ sid roomId mv
  | resetGame roomId => onResetGame σ sid roomId
  | disconnect => onDisconnect σ sid
  end.

(** A run of the server on a sequence of inbound events. *)
Fixpoint run (σ : server) (evs : list (string * event)) : option server :=
  match evs with
  | [] => Some σ
  | (sid, ev) :: rest =>
      match handle σ sid ev with
      | Some (σ', _) => run σ' rest
      | None => None
      end
  end.

(** The states the server can be in. *)
Inductive reachable : server -> Prop :=
| reachable_empty : reachable empty
| reachable_step σ sid ev σ' out :
    reachable σ -> handle σ sid ev = Some (σ', out) -> reachable σ'.

(** The game state a room currently holds. *)
Definition stateOf (σ : server) (roomId : string) : option gstate :=
  room ← rooms_get (rooms σ) roomId;
  heap σ !! gameState room.

End Server.

(** ** The first version of the server: tic-tac-toe inside the handlers

    Before the engines were split off, the entry point kept the rules of
    tic-tac-toe in its [makeMove] handler and in the helper
    [checkWinner]. Players are known by their symbol, the strings ['X'] and
    ['O'], and the board holds these strings. *)

Module Legacy.

Inductive symbol := X | O.

(** What a read of the board can give: [undefined], [null], or a symbol. *)
Inductive cell :=
| CUndefined
| CNull
| CSym (y : symbol).

Definition symbol_eqb (a b : symbol) : bool :=
  match a, b with
  | X, X | O, O => true
  | _, _ => false
  end.

(** [a === b] on cells. *)
Definition strict_eq (a b : cell) : bool :=
  match a, b with
  | CUndefined, CUndefined => true
  | CNull, CNull => true
  | CSym x, CSym y => symbol_eqb x y
  | _, _ => false
  end.

(** A value used as a condition: [undefined] and [null] are falsy, the two
    symbols are non-empty strings and truthy. *)
Definition truthy (v : cell) : bool :=
  match v with
  | CSym _ => true
  | _ => false
  end.

Definition get (arr : list cell) (k : option Z) : cell :=
  match k with
  | Some i => default CUndefined (elem arr i)
  | None => CUndefined
  end.

(** [arr[k] = v], as [js_set] above. *)
Definition set (arr : list cell) (k : option Z) (v : cell) : list cell :=
  match k with
  | Some i =>
      if i <? 0 then arr
      else
        let n := Z.to_nat i in
        if (n <? length arr)%nat then <[n := v]> arr
        else arr ++ repeat CUndefined (n - length arr) ++ [v]
  | None => arr
  end.

Record gameState := mkState {
  board : list cell;
  currentPlayer : symbol;
  winner : cell;
  status : Status
}.

(** The state [createRoom] stores. *)
Definition initial : gameState :=
  {| board := repeat CNull 9;
     currentPlayer := X;
     winner := CNull;
     status := waiting |}.

Definition winPatterns : list (list Z) :=
  [ [0; 1; 2]; [3; 4; 5]; [6; 7; 8];
    [0; 3; 6]; [1; 4; 7]; [2; 5; 8];
    [0; 4; 8]; [2; 4; 6] ].

(** The loop of [checkWinner]: [board[a]] of the first pattern that passes
    the test, [null] when none does. *)
Fixpoint scanPatterns (b : list cell) (patterns : list (list Z)) : cell :=
  match patterns with
  | [] => CNull
  | pattern :: rest =>
      let a := get b (pattern !! 0%nat) in
      let b' := get b (pattern !! 1%nat) in
      let c := get b (pattern !! 2%nat) in
      if truthy a && strict_eq a b' && strict_eq a c then a
      else scanPatterns b rest
  end.

Definition checkWinner (b : list cell) : cell := scanPatterns b winPatterns.

(** [board.includes(null)]. *)
Definition includesNull (b : list cell) : bool :=
  existsb (fun c => strict_eq c CNull) b.

(** What the [makeMove] handler does to the room's game state once it has
    found the sender among the players, [sym] being the sender's symbol:
    [None] where the handler returns without writing or broadcasting. *)
Definition makeMove (gs : gameState) (sym : symbol) (index : option Z)
  : option gameState :=
  if negb (Status_eqb (status gs) playing) then None
  else if negb (symbol_eqb (currentPlayer gs) sym) then None
  else if negb (strict_eq (get (board gs) index) CNull) then None
  else
    let newBoard := set (board gs) index (CSym sym) in
    let w := checkWinner newBoard in
    Some
      {| board := newBoard;
         currentPlayer := if symbol_eqb sym X then O else X;
         winner := if truthy w then w else winner gs;
         status :=
           if truthy w then won
           else if negb (includesNull newBoard) then draw
           else status gs |}.

End Legacy.

(** * Vocabulary of the statements *)

(** All three cells of a tic-tac-toe pattern hold the index of player [w]. *)
Definition ownsLine (b : list jsval) (pattern : list Z) (w : Z) : Prop :=
  Forall (fun i => js_get b (Some i) = JNum w) pattern.

(** The cell [(x, y)] of a connect-four board is on the board and holds the
    index of player [p]. *)
Definition ownedBy (b : list (list jsval)) (p x y : Z) : Prop :=
  0 <= x < 7 /\ 0 <= y < 6 /\ Connect4.cellAt b x y = JNum p.

(** Four contiguous cells of player [p] on the line through [(c, r)] with
    direction [d], the cell [(c, r)] being one of the four: the four cells
    are those at offsets [-k .. 3-k] from [(c, r)]. *)
Definition fourThrough (b : list (list jsval)) (p c r : Z) (d : Z * Z) : Prop :=
  exists k, 0 <= k <= 3 /\
    forall i, 0 <= i <= 3 ->
      ownedBy b p (c + (i - k) * fst d) (r + (i - k) * snd d).

(** Some line through [(c, r)], horizontal, vertical or diagonal, has four
    or more contiguous cells of player [p] around [(c, r)]. *)
Definition winsAt (b : list (list jsval)) (p c r : Z) : Prop :=
  exists d, In d Connect4.directions /\ fourThrough b p c r d.

(** Boolean form of [ownedBy]. *)
Definition ownedb (b : list (list jsval)) (p x y : Z) : bool :=
  Connect4.inBounds x y && strict_eq (Connect4.cellAt b x y) (JNum p).

(** The number of consecutive offsets [j, j+1, ...] at which [own] holds,
    counted up to [n]. *)
Fixpoint countFrom (own : Z -> bool) (n : nat) (j : Z) : nat :=
  if own j then
    match n with
    | O => O
    | S n' => S (countFrom own n' (j + 1))
    end
  else O.

(** A connect-four state ready for play: [init()] with the status set to
    [playing], as the join and reset handlers leave it. *)
Definition freshPlaying : Connect4.state :=
  {| Connect4.board := Connect4.board Connect4.init;
     Connect4.currentPlayer := Connect4.currentPlayer Connect4.init;
     Connect4.winner := Connect4.winner Connect4.init;
     Connect4.status := playing;
     Connect4.winningCells := Connect4.winningCells Connect4.init |}.

(** [n] consecutive drops into column [c], the players taking turns and
    [turn] dropping first; each drop is a call of [makeMove] on the state
    the previous call returned. *)
Fixpoint drops (s : Connect4.state) (c : Z) (turn : Z) (n : nat)
  : option Connect4.state :=
  match n with
  | O => Some s
  | S n' =>
      match Connect4.makeMove s turn {| index := None; column := Some c |} with
      | Some r => drops (returned_state s r) c (1 - turn) n'
      | None => None
      end
  end.

(** States on which an engine is meant to run: built by that engine, with
    a board of the engine's shape. *)
Definition wfState (g : Server.gameClass) (s : Server.gstate) : Prop :=
  match g, s with
  | Server.TicTacToeGame, Server.TState t => TicTacToe.wf t
  | Server.Connect4Game, Server.CState c => Connect4.wf c
  | _, _ => False
  end.

(** Terminal status. *)
Definition terminal (s : Server.gstate) : Prop :=
  Server.statusOf s = won \/ Server.statusOf s = draw.

(** A sequence of moves, each of them valid in the state the previous one
    produced; [None] if one of them is not. *)
Fixpoint play (g : Server.gameClass) (s : Server.gstate)
         (ms : list (Z * move)) : option Server.gstate :=
  match ms with
  | [] => Some s
  | (p, mv) :: rest =>
      match Server.isValidMove g s p mv with
      | Some true =>
          match Server.makeMove g s p mv with
          | Some r => play g (returned_state s r) rest
          | None => None
          end
      | _ => None
      end
  end.

(** Every cell of the board is [null]. *)
Definition boardEmpty (s : Server.gstate) : Prop :=
  match s with
  | Server.TState t => Forall (fun c => c = JNull) (TicTacToe.board t)
  | Server.CState c =>
      Forall (fun col => Forall (fun x => x = JNull) col) (Connect4.board c)
  end.

(** The keys of the room table and the state objects its rooms refer to. *)
Definition keys (rs : Server.table) : list string := fst <$> rs.
Definition locs (rs : Server.table) : list Server.loc :=
  (fun e => Server.gameState (snd e)) <$> rs.
Definition keyloc (e : string * Server.room) : string * Server.loc :=
  (fst e, Server.gameState (snd e)).

(** The shape of the server's state that the handlers maintain: no key
    occurs twice in the table, no two rooms refer to the same game-state
    object, and every reference is to an allocated object. *)
Record inv (σ : Server.server) : Prop := mkInv {
  inv_keys : NoDup (keys (Server.rooms σ));
  inv_locs : NoDup (locs (Server.rooms σ));
  inv_bound : Forall (fun l => (l < length (Server.heap σ))%nat)
                     (locs (Server.rooms σ))
}.

(** Events that are neither a reset of room [roomId] nor a join of it, and
    do not create a room under its identifier. *)
Definition leavesGameAlone (roomId : string) (ev : Server.event) : Prop :=
  match ev with
  | Server.makeMoveEv _ _ | Server.disconnect => True
  | Server.createRoom _ _ uuid => substring 0 6 uuid <> roomId
  | Server.joinRoom r _ | Server.resetGame r => r <> roomId
  end.

(** *** A session used in the examples

    Alice creates a tic-tac-toe room, Bob joins, Alice plays the centre,
    Carol joins and is taken in as a spectator. *)
Definition cellMove (i : Z) : move := {| index := Some i; column := None |}.
Definition columnMove (c : Z) : move := {| index := None; column := Some c |}.

Definition demoEvents : list (string * Server.event) :=
  [ ("a", Server.createRoom "Alice" None "abc123de-4f5a");
    ("b", Server.joinRoom "abc123" "Bob");
    ("a", Server.makeMoveEv "abc123" (cellMove 4));
    ("c", Server.joinRoom "abc123" "Carol") ]%string.

Definition demoAlice : Server.player :=
  {| Server.p_id := "a"; Server.p_username := "Alice";
     Server.p_index := 0; Server.p_info := Server.Symbol "X" |}.

Definition demoBob : Server.player :=
  {| Server.p_id := "b"; Server.p_username := "Bob";
     Server.p_index := 1; Server.p_info := Server.Symbol "O" |}.

Definition demoRoom : Server.room :=
  {| Server.r_id := "abc123";
     Server.gameType := "tic-tac-toe";
     Server.gameInstance := Server.TicTacToeGame;
     Server.players := [demoAlice; demoBob];
     Server.gameState := 1%nat;
     Server.spectators :=
       [ {| Server.s_id := "c"; Server.s_username := "Carol" |} ] |}.

Definition demoOpening : TicTacToe.state :=
  {| TicTacToe.board := repeat JNull 9;
     TicTacToe.currentPlayer := 0;
     TicTacToe.winner := JNull;
     TicTacToe.status := playing;
     TicTacToe.winningPattern := None |}.

Definition demoState : TicTacToe.state :=
  {| TicTacToe.board :=
       [JNull; JNull; JNull; JNull; JNum 0; JNull; JNull; JNull; JNull];
     TicTacToe.currentPlayer := 1;
     TicTacToe.winner := JNull;
     TicTacToe.status := playing;
     TicTacToe.winningPattern := None |}.

Definition demoServer : Server.server :=
  {| Server.rooms := [("abc123"%string, demoRoom)];
     Server.heap := [Server.TState demoOpening; Server.TState demoState] |}.

(** A tic-tac-toe position in which the middle row belongs to seat 0. *)
Definition demoWon : TicTacToe.state :=
  {| TicTacToe.board :=
       [JNum 1; JNum 1; JNull; JNum 0; JNum 0; JNum 0; JNull; JNull; JNull];
     TicTacToe.currentPlayer := 0;
     TicTacToe.winner := JNull;
     TicTacToe.status := playing;
     TicTacToe.winningPattern := None |}.

(** A connect-four position in which seat 0 has three pieces in the bottom
    row, columns 0 to 2, seat 1 has three pieces in column 6, and it is seat
    0 to move. *)
Definition demoThree : Connect4.state :=
  {| Connect4.board :=
       [ [JNull; JNull; JNull; JNull; JNull; JNum 0];
         [JNull; JNull; JNull; JNull; JNull; JNum 0];
         [JNull; JNull; JNull; JNull; JNull; JNum 0];
         [JNull; JNull; JNull; JNull; JNull; JNull];
         [JNull; JNull; JNull; JNull; JNull; JNull];
         [JNull; JNull; JNull; JNull; JNull; JNull];
         [JNull; JNull; JNull; JNum 1; JNum 1; JNum 1] ];
     Connect4.currentPlayer := 0;
     Connect4.winner := JNull;
     Connect4.status := playing;
     Connect4.winningCells := None |}.

(** * Further vocabulary *)

(** The number of [null] cells of an array. *)
Definition emptyCells (b : list jsval) : nat :=
  length (List.filter (fun c => strict_eq c JNull) b).

(** The number of [null] cells of a connect-four board. *)
Definition emptyCells4 (b : list (list jsval)) : nat :=
  fold_right (fun col n => (emptyCells col + n)%nat) O b.

Definition freeCells (s : Server.gstate) : nat :=
  match s with
  | Server.TState t => emptyCells (TicTacToe.board t)
  | Server.CState c => emptyCells4 (Connect4.board c)
  end.

(** No tic-tac-toe triple is owned by one player. *)
Definition noLine (b : list jsval) : Prop :=
  ~ exists pattern p, In pattern TicTacToe.winPatterns /\ ownsLine b pattern p.

(** A connect-four column in which no piece floats: below an occupied cell
    every cell is occupied. *)
Definition settled (col : list jsval) : Prop :=
  forall y y', 0 <= y -> y <= y' < 6 ->
    js_get col (Some y) <> JNull -> js_get col (Some y') <> JNull.

Definition gravity (b : list (list jsval)) : Prop := Forall settled b.

(** The cells [(c + k * dx, r + k * dy)], [-3 <= k <= 3], of the line
    through [(c, r)] with direction [(dx, dy)]. *)
Definition onLine (c r : Z) (d : Z * Z) (cell : Z * Z) : Prop :=
  exists k, -3 <= k <= 3 /\ cell = (c + k * fst d, r + k * snd d).

(** Every occupied cell of [s] holds the same value in [s']. *)
Definition occupiedKept (s s' : Server.gstate) : Prop :=
  match s, s' with
  | Server.TState t, Server.TState t' =>
      forall j, js_get (TicTacToe.board t) (Some j) <> JNull ->
        js_get (TicTacToe.board t') (Some j) = js_get (TicTacToe.board t) (Some j)
  | Server.CState c, Server.CState c' =>
      forall x y, Connect4.cellAt (Connect4.board c) x y <> JNull ->
        Connect4.cellAt (Connect4.board c') x y
        = Connect4.cellAt (Connect4.board c) x y
  | _, _ => False
  end.

(** The longest game an engine allows: the number of cells of its board. *)
Definition boardSize (g : Server.gameClass) : nat :=
  match g with
  | Server.TicTacToeGame => 9
  | Server.Connect4Game => 42
  end.

(** *** The shape of a reachable server *)

(** A seat: index 0 or 1, with the attribute the engine gives that index. *)
Definition seatOk (g : Server.gameClass) (p : Server.player) : Prop :=
  (Server.p_index p = 0 \/ Server.p_index p = 1) /\
  Server.p_info p = Server.getPlayerSetup g (Server.p_index p).

(** A game state of engine [g]: a board of the engine's shape, the turn
    with seat 0 or 1, and for connect-four no floating piece. *)
Definition stateOk (g : Server.gameClass) (s : Server.gstate) : Prop :=
  wfState g s /\
  (Server.currentPlayerOf s = 0 \/ Server.currentPlayerOf s = 1) /\
  match s with
  | Server.CState c => gravity (Connect4.board c)
  | Server.TState _ => True
  end.

Definition roomOk (h : list Server.gstate) (e : string * Server.room) : Prop :=
  Server.r_id (snd e) = fst e /\
  Server.gameTypes (Server.gameType (snd e)) = Some (Server.gameInstance (snd e)) /\
  (1 <= length (Server.players (snd e)) <= 2)%nat /\
  Forall (seatOk (Server.gameInstance (snd e))) (Server.players (snd e)) /\
  exists s, h !! Server.gameState (snd e) = Some s /\
            stateOk (Server.gameInstance (snd e)) s.

Definition serverOk (σ : Server.server) : Prop :=
  inv σ /\ Forall (roomOk (Server.heap σ)) (Server.rooms σ).

(** A change of the store that keeps every well-formed state where it is,
    well-formed for the same engine. *)
Definition storeStep (h h' : list Server.gstate) : Prop :=
  forall l s g, h !! l = Some s -> stateOk g s ->
    exists s', h' !! l = Some s' /\ stateOk g s'.

(** The socket [sid] holds a seat in no room other than [roomId]. *)
Definition seatedOnlyIn (σ : Server.server) (sid roomId : string) : Prop :=
  forall k r, Server.rooms_get (Server.rooms σ) k = Some r -> k <> roomId ->
    find (Server.isSocket sid) (Server.players r) = None.

(** The seat a second player is given on joining. *)
Definition secondSeat (g : Server.gameClass) (sid username : string)
  : Server.player :=
  {| Server.p_id := sid; Server.p_username := username;
     Server.p_index := 1;
     Server.p_info := Server.getPlayerSetup g 1 |}.

(** *** The two versions of the tic-tac-toe rules *)

(** The seat index the engine uses for a symbol of the first version; it
    is the index [getPlayerSetup] maps back to that symbol. *)
Definition seatOf (y : Legacy.symbol) : Z :=
  match y with
  | Legacy.X => 0
  | Legacy.O => 1
  end.

Definition cellValue (c : Legacy.cell) : jsval :=
  match c with
  | Legacy.CUndefined => JUndefined
  | Legacy.CNull => JNull
  | Legacy.CSym y => JNum (seatOf y)
  end.

(** The engine's state for a game state of the first version; the first
    version has no highlighted line, so that field is a parameter. *)
Definition engineState (gs : Legacy.gameState) (wp : option (list Z))
  : TicTacToe.state :=
  {| TicTacToe.board := cellValue <$> Legacy.board gs;
     TicTacToe.currentPlayer := seatOf (Legacy.currentPlayer gs);
     TicTacToe.winner := cellValue (Legacy.winner gs);
     TicTacToe.status := Legacy.status gs;
     TicTacToe.winningPattern := wp |}.

(** A board as the first version builds it: nine cells, each [null] or a
    symbol. *)
Definition legacyWf (b : list Legacy.cell) : Prop :=
  length b = 9%nat /\ Forall (fun c => c <> Legacy.CUndefined) b.

(** A position of the first version: X holds cells 0 and 4, O holds cells
    1 and 2, and it is X to move. *)
Definition demoLegacy : Legacy.gameState :=
  {| Legacy.board :=
       [Legacy.CSym Legacy.X; Legacy.CSym Legacy.O; Legacy.CSym Legacy.O;
        Legacy.CNull; Legacy.CSym Legacy.X; Legacy.CNull;
        Legacy.CNull; Legacy.CNull; Legacy.CNull];
     Legacy.currentPlayer := Legacy.X;
     Legacy.winner := Legacy.CNull;
     Legacy.status := playing |}.

(** *** Further positions and sessions used in the examples *)

(** A tic-tac-toe position without an owned triple in which seat 0, to
    move, completes the top row by playing cell 2. *)
Definition demoTwo : TicTacToe.state :=
  {| TicTacToe.board :=
       [JNum 0; JNum 0; JNull; JNum 1; JNum 1; JNull; JNull; JNull; JNull];
     TicTacToe.currentPlayer := 0;
     TicTacToe.winner := JNull;
     TicTacToe.status := playing;
     TicTacToe.winningPattern := None |}.

(** The server after Alice has created her room. *)
Definition demoSoloRoom : Server.room :=
  {| Server.r_id := "abc123";
     Server.gameType := "tic-tac-toe";
     Server.gameInstance := Server.TicTacToeGame;
     Server.players := [demoAlice];
     Server.gameState := 0%nat;
     Server.spectators := [] |}.

Definition demoSolo : Server.server :=
  {| Server.rooms := [("abc123"%string, demoSoloRoom)];
     Server.heap := [Server.TState TicTacToe.init] |}.

(** The server after Bob has joined and before the first move. *)
Definition demoPairRoom : Server.room :=
  {| Server.r_id := "abc123";
     Server.gameType := "tic-tac-toe";
     Server.gameInstance := Server.TicTacToeGame;
     Server.players := [demoAlice; demoBob];
     Server.gameState := 0%nat;
     Server.spectators := [] |}.

Definition demoPair : Server.server :=
  {| Server.rooms := [("abc123"%string, demoPairRoom)];
     Server.heap := [Server.TState demoOpening] |}.






(** The server after Alice has created two rooms from the same socket. *)
Definition demoTwiceEvents : list (string * Server.event) :=
  [ ("a", Server.createRoom "Alice" None "abc123de-4f5a");
    ("a", Server.createRoom "Alice" None "def456ab-0c1d") ]%string.

Definition demoSecondRoom : Server.room :=
  {| Server.r_id := "def456";
     Server.gameType := "tic-tac-toe";
     Server.gameInstance := Server.TicTacToeGame;
     Server.players := [demoAlice];
     Server.gameState := 1%nat;
     Server.spectators := [] |}.

Definition demoTwice : Server.server :=
  {| Server.rooms := [("abc123"%string, demoSoloRoom);
                      ("def456"%string, demoSecondRoom)];
     Server.heap := [Server.TState TicTacToe.init; Server.TState TicTacToe.init] |}.

(** * Properties *)

(** ** Values and array reads *)

Lemma strict_eq_spec a b : strict_eq a b = true <-> a = b.
Proof.
  destruct a, b; simpl; split; intros H; try congruence; try discriminate.
  - apply Z.eqb_eq in H. congruence.
  - inversion H. apply Z.eqb_refl.
Qed.

Lemma strict_eq_refl a : strict_eq a a = true.
Proof. now apply strict_eq_spec. Qed.

Lemma strict_eq_false a b : strict_eq a b = false <-> a <> b.
Proof.
  rewrite <- strict_eq_spec. destruct (strict_eq a b); split; congruence.
Qed.

Lemma Status_eqb_spec a b : Status_eqb a b = true <-> a = b.
Proof. destruct a, b; simpl; split; congruence. Qed.

Lemma elem_Some {A} (arr : list A) i x :
  elem arr i = Some x <-> 0 <= i /\ arr !! Z.to_nat i = Some x.
Proof.
  unfold elem. destruct (Z.ltb_spec i 0); split; intros H'.
  - discriminate.
  - lia.
  - split; [lia | assumption].
  - apply H'.
Qed.

Lemma elem_in_range {A} (arr : list A) i :
  0 <= i < Z.of_nat (length arr) -> exists x, elem arr i = Some x.
Proof.
  intros Hi. unfold elem. destruct (Z.ltb_spec i 0); [lia|].
  destruct (lookup_lt_is_Some_2 arr (Z.to_nat i)) as [x Hx]; [lia|].
  now exists x.
Qed.

Lemma elem_out_of_range {A} (arr : list A) i :
  i < 0 \/ Z.of_nat (length arr) <= i -> elem arr i = None.
Proof.
  intros Hi. unfold elem. destruct (Z.ltb_spec i 0); [reflexivity|].
  apply lookup_ge_None_2. lia.
Qed.

Lemma js_get_out_of_range arr k :
  ~ (exists i, k = Some i /\ 0 <= i < Z.of_nat (length arr)) ->
  js_get arr k = JUndefined.
Proof.
  intros Hk. destruct k as [i|]; simpl; [|reflexivity].
  rewrite elem_out_of_range; [reflexivity|].
  destruct (Z.ltb_spec i 0); [now left|].
  destruct (Z.ltb_spec i (Z.of_nat (length arr))); [|now right].
  exfalso. apply Hk. exists i. split; [reflexivity | lia].
Qed.

Lemma js_get_defined arr i :
  Forall (fun c => c <> JUndefined) arr ->
  0 <= i < Z.of_nat (length arr) ->
  js_get arr (Some i) <> JUndefined.
Proof.
  intros Hall Hi. simpl.
  destruct (elem_in_range arr i Hi) as [x Hx]. rewrite Hx. simpl.
  apply elem_Some in Hx as [_ Hx].
  rewrite Forall_forall in Hall. apply Hall.
  eapply list_elem_of_lookup_2. exact Hx.
Qed.

(** ** Tic-tac-toe *)

Section TicTacToeFacts.
Import TicTacToe.

Lemma scanPatterns_Some b ps r :
  scanPatterns b ps = Some r ->
  exists pattern,
    In pattern ps /\ lineOwned b pattern = true /\
    r = Over won (js_get b (pattern !! 0%nat)) (Some pattern).
Proof.
  induction ps as [|q ps IH]; simpl; [discriminate|].
  destruct (lineOwned b q) eqn:Hq.
  - intros [= <-]. exists q. auto.
  - intros H. destruct (IH H) as (pattern & Hin & Hown & Hr).
    exists pattern. auto.
Qed.

Lemma scanPatterns_None b ps :
  scanPatterns b ps = None <->
  forall pattern, In pattern ps -> lineOwned b pattern = false.
Proof.
  induction ps as [|q ps IH]; simpl.
  - split; [intros _ ? [] | reflexivity].
  - destruct (lineOwned b q) eqn:Hq.
    + split; [discriminate|]. intros H. specialize (H q (or_introl eq_refl)).
      congruence.
    + rewrite IH. split.
      * intros H pattern [<-|Hin]; auto.
      * intros H pattern Hin. apply H. now right.
Qed.

Lemma winPatterns_shape pattern :
  In pattern winPatterns ->
  exists a b c, pattern = [a; b; c] /\ 0 <= a < 9 /\ 0 <= b < 9 /\ 0 <= c < 9.
Proof.
  unfold winPatterns. simpl.
  intros H; repeat (destruct H as [<-|H]; [do 3 eexists; split; [reflexivity|lia]|]).
  destruct H.
Qed.

Lemma lineOwned_owns s pattern :
  wf s -> In pattern winPatterns ->
  lineOwned (board s) pattern = true <->
  exists w, ownsLine (board s) pattern w.
Proof.
  intros [Hlen Hdef] Hin.
  destruct (winPatterns_shape _ Hin) as (a & b & c & -> & Ha & Hb & Hc).
  unfold lineOwned, ownsLine. simpl lookup.
  assert (Hda : js_get (board s) (Some a) <> JUndefined)
    by (apply js_get_defined; [assumption | lia]).
  split.
  - intros H. apply andb_prop in H as [H Hc']. apply andb_prop in H as [Hn Hb'].
    apply strict_eq_spec in Hb', Hc'.
    apply negb_true_iff, strict_eq_false in Hn.
    destruct (js_get (board s) (Some a)) as [| |w] eqn:Ea; try congruence.
    exists w. repeat constructor; congruence.
  - intros [w Hw]. inversion Hw as [|? ? Ea Hw1]; subst.
    inversion Hw1 as [|? ? Eb Hw2]; subst.
    inversion Hw2 as [|? ? Ec _]; subst.
    rewrite Ea, Eb, Ec. simpl. now rewrite Z.eqb_refl.
Qed.

(** C2. On a tic-tac-toe state with its nine cells, [checkGameOver]
    reports status [won] if and only if one of the eight fixed triples has
    its three cells owned by one player; the winner it reports is that
    player and the highlight it reports is that triple. *)
Theorem checkGameOver_win_exact (s : state) :
  wf s ->
  ((exists w pat, checkGameOver s = Over won w pat) <->
   (exists pattern p, In pattern winPatterns /\ ownsLine (board s) pattern p))
  /\
  (forall w pat, checkGameOver s = Over won w pat ->
     exists pattern p,
       pat = Some pattern /\ w = JNum p /\
       In pattern winPatterns /\ ownsLine (board s) pattern p).
Proof.
  intros Hwf.
  assert (Hfwd : forall w pat, checkGameOver s = Over won w pat ->
     exists pattern p,
       pat = Some pattern /\ w = JNum p /\
       In pattern winPatterns /\ ownsLine (board s) pattern p).
  { intros w pat. unfold checkGameOver.
    destruct (scanPatterns (board s) winPatterns) as [r|] eqn:Hscan.
    - destruct (scanPatterns_Some _ _ _ Hscan) as (pattern & Hin & Hown & ->).
      intros [= <- <-].
      apply (lineOwned_owns s pattern Hwf Hin) in Hown as [p Hp].
      exists pattern, p. repeat split; try assumption.
      destruct (winPatterns_shape _ Hin) as (a & b & c & -> & _).
      inversion Hp; subst. simpl lookup. assumption.
    - destruct (negb (includesNull (board s))); discriminate. }
  split; [split|exact Hfwd].
  - intros (w & pat & H). destruct (Hfwd _ _ H) as (pattern & p & _ & _ & Hin & Hp).
    eauto.
  - intros (pattern & p & Hin & Hp). unfold checkGameOver.
    destruct (scanPatterns (board s) winPatterns) as [r|] eqn:Hscan.
    + destruct (scanPatterns_Some _ _ _ Hscan) as (q & _ & _ & ->). eauto.
    + exfalso. rewrite scanPatterns_None in Hscan.
      specialize (Hscan pattern Hin).
      assert (lineOwned (board s) pattern = true)
        by (apply lineOwned_owns; eauto).
      congruence.
Qed.

Lemma checkGameOver_shape s :
  checkGameOver s = NotOver \/
  (exists w pat, checkGameOver s = Over won w pat) \/
  checkGameOver s = Over draw JNull None.
Proof.
  unfold checkGameOver.
  destruct (scanPatterns (board s) winPatterns) as [r|] eqn:Hscan.
  - destruct (scanPatterns_Some _ _ _ Hscan) as (q & _ & _ & ->). eauto.
  - destruct (negb (includesNull (board s))); auto.
Qed.

Lemma ttt_isValidMove_true s p mv :
  isValidMove s p mv = true ->
  currentPlayer s = p /\ status s = playing /\
  js_get (board s) (index mv) = JNull.
Proof.
  unfold isValidMove.
  destruct (Z.eqb_spec (currentPlayer s) p); [|discriminate].
  destruct (Status_eqb (status s) playing) eqn:Hst; [|discriminate].
  destruct (strict_eq _ _) eqn:Hc; [|discriminate].
  intros _. apply Status_eqb_spec in Hst. apply strict_eq_spec in Hc. auto.
Qed.

(** What a valid tic-tac-toe move does to the turn. *)
Lemma ttt_makeMove_valid_turn s p mv :
  isValidMove s p mv = true ->
  exists s',
    makeMove s p mv = NewObject s' /\
    (status s' = playing /\ currentPlayer s' = getNextPlayer s \/
     (status s' = won \/ status s' = draw) /\
     currentPlayer s' = currentPlayer s).
Proof.
  intros Hvalid. unfold makeMove. rewrite Hvalid. cbn [negb].
  apply ttt_isValidMove_true in Hvalid as (_ & Hst & _).
  match goal with |- context [checkGameOver ?n] =>
    destruct (checkGameOver_shape n) as [E | [(w & pat & E) | E]]; rewrite E
  end; eexists; (split; [reflexivity|]); cbn [status currentPlayer]; auto.
Qed.

(** C10. A tic-tac-toe move whose cell index is not one of 0..8 reads
    [undefined] from the board, which is not [null]: [isValidMove] returns
    false although it has no bounds check, and [makeMove] hands back the
    state it was given. *)
Theorem isValidMove_out_of_range s p mv :
  length (board s) = 9%nat ->
  ~ (exists i, index mv = Some i /\ 0 <= i <= 8) ->
  js_get (board s) (index mv) = JUndefined /\
  strict_eq (js_get (board s) (index mv)) JNull = false /\
  isValidMove s p mv = false /\
  makeMove s p mv = SameObject.
Proof.
  intros Hlen Hout.
  assert (Hget : js_get (board s) (index mv) = JUndefined).
  { apply js_get_out_of_range. intros (i & Hi & Hr). apply Hout.
    exists i. split; [assumption|]. rewrite Hlen in Hr. lia. }
  assert (Hv : isValidMove s p mv = false).
  { unfold isValidMove. rewrite Hget. cbn [strict_eq negb].
    destruct (negb (currentPlayer s =? p)); [reflexivity|].
    destruct (negb (Status_eqb (status s) playing)); reflexivity. }
  split; [assumption|]. split; [now rewrite Hget|]. split; [assumption|].
  unfold makeMove. now rewrite Hv.
Qed.

Lemma ttt_makeMove_valid_wf s p mv s' :
  wf s -> isValidMove s p mv = true -> makeMove s p mv = NewObject s' ->
  wf s'.
Proof.
  intros [Hlen Hdef] Hvalid Hmm.
  pose proof (ttt_isValidMove_true _ _ _ Hvalid) as (_ & _ & Hnull).
  assert (Hb : board s' = js_set (board s) (index mv) (JNum p)).
  { unfold makeMove in Hmm. rewrite Hvalid in Hmm. cbn [negb] in Hmm.
    destruct (checkGameOver _); injection Hmm as <-; reflexivity. }
  unfold wf. rewrite Hb.
  destruct (index mv) as [i|]; [|discriminate].
  cbn [js_get] in Hnull. unfold js_set.
  destruct (elem (board s) i) as [x|] eqn:Hx; [|discriminate].
  apply elem_Some in Hx as [Hi Hx].
  destruct (Z.ltb_spec i 0); [lia|].
  pose proof (lookup_lt_Some _ _ _ Hx) as Hlt.
  destruct (Nat.ltb_spec (Z.to_nat i) (length (board s))); [|lia].
  split; [now rewrite length_insert|].
  apply Forall_insert; [assumption | discriminate].
Qed.

End TicTacToeFacts.

(** ** Connect-four *)

Section Connect4Facts.
Import Connect4.

Lemma wf_board_column b x :
  wf_board b -> 0 <= x < 7 ->
  exists col, elem b x = Some col /\ length col = 6%nat /\
              Forall (fun c => c <> JUndefined) col.
Proof.
  intros [Hlen Hcols] Hx.
  destruct (elem_in_range b x) as [col Hcol]; [lia|].
  exists col. split; [assumption|].
  apply elem_Some in Hcol as [_ Hcol].
  rewrite Forall_forall in Hcols. apply Hcols.
  eapply list_elem_of_lookup_2. exact Hcol.
Qed.

Lemma inBounds_spec x y :
  inBounds x y = true <-> 0 <= x < 7 /\ 0 <= y < 6.
Proof.
  unfold inBounds. rewrite !andb_true_iff, !Z.leb_le, !Z.ltb_lt. lia.
Qed.

Lemma ownedb_spec b p x y : ownedb b p x y = true <-> ownedBy b p x y.
Proof.
  unfold ownedb, ownedBy.
  rewrite andb_true_iff, inBounds_spec, strict_eq_spec. tauto.
Qed.

Lemma cellAt_column b x col y :
  elem b x = Some col -> cellAt b x y = js_get col (Some y).
Proof. intros H. unfold cellAt. now rewrite H. Qed.

Lemma countFrom_ext f g n j :
  (forall i, f i = g i) -> countFrom f n j = countFrom g n j.
Proof.
  intros Hfg. revert j. induction n as [|n IH]; intros j; simpl;
    rewrite Hfg; [reflexivity|]. now rewrite IH.
Qed.

Lemma countFrom_le f n j : (countFrom f n j <= n)%nat.
Proof.
  revert j. induction n as [|n IH]; intros j; simpl; destruct (f j); try lia.
  specialize (IH (j + 1)). lia.
Qed.

(** On a well-formed board the [while] loop does not throw, and the
    number of cells it pushes is the length of the run it walks over,
    at most [left]. *)
Lemma walk_length b p sx sy c r :
  wf_board b ->
  forall left j,
  exists cells,
    walk b p sx sy left (c + j * sx) (r + j * sy) = Some cells /\
    length cells =
      countFrom (fun i => ownedb b p (c + i * sx) (r + i * sy)) left j.
Proof.
  intros Hwf. induction left as [|left IH]; intros j.
  - simpl. unfold ownedb.
    destruct (inBounds (c + j * sx) (r + j * sy)) eqn:Hin; simpl.
    + apply inBounds_spec in Hin as [Hx Hy].
      destruct (wf_board_column b _ Hwf Hx) as (col & Hcol & _).
      rewrite Hcol. rewrite (cellAt_column _ _ _ _ Hcol).
      destruct (strict_eq _ _); exists []; auto.
    + exists []; auto.
  - simpl. unfold ownedb at 1.
    destruct (inBounds (c + j * sx) (r + j * sy)) eqn:Hin; simpl.
    + apply inBounds_spec in Hin as [Hx Hy].
      destruct (wf_board_column b _ Hwf Hx) as (col & Hcol & _).
      rewrite Hcol. rewrite (cellAt_column _ _ _ _ Hcol).
      destruct (strict_eq _ _); [|exists []; auto].
      destruct (IH (j + 1)) as (rest & Hrest & Hlen).
      replace (c + (j + 1) * sx) with (c + j * sx + sx) in Hrest by lia.
      replace (r + (j + 1) * sy) with (r + j * sy + sy) in Hrest by lia.
      rewrite Hrest. eexists; split; [reflexivity|]. simpl. now rewrite Hlen.
    + exists []; auto.
Qed.

Lemma walk_bound b p sx sy left x y cells :
  walk b p sx sy left x y = Some cells -> (length cells <= left)%nat.
Proof.
  revert x y cells. induction left as [|left IH]; intros x y cells; simpl.
  - destruct (inBounds x y); [|intros [= <-]; simpl; lia].
    destruct (elem b x); [|discriminate].
    destruct (strict_eq _ _); intros [= <-]; simpl; lia.
  - destruct (inBounds x y); [|intros [= <-]; simpl; lia].
    destruct (elem b x); [|discriminate].
    destruct (strict_eq _ _); [|intros [= <-]; simpl; lia].
    destruct (walk b p sx sy left (x + sx) (y + sy)) as [rest|] eqn:Hrest;
      [|discriminate].
    intros [= <-]. simpl. apply IH in Hrest. lia.
Qed.

(** The combinatorial core: with the middle cell owned, the two capped
    walks find three more cells exactly when some window of four cells
    around the middle is owned. *)
Lemma four_window (own : Z -> bool) :
  own 0 = true ->
  (4 <=? 1 + countFrom own 3 1 + countFrom (fun i => own (- i)) 3 1)%nat =
  existsb (fun k => forallb (fun i => own (i - k)) [0; 1; 2; 3]) [0; 1; 2; 3].
Proof.
  intros H0. cbn -[Nat.leb].
  repeat match goal with
         | |- context [own ?e] =>
             let v := eval vm_compute in e in
             progress change (own e) with (own v)
         end.
  rewrite H0.
  destruct (own 1), (own 2), (own 3), (own (-1)), (own (-2)), (own (-3));
    reflexivity.
Qed.

Lemma lineCells_length b c r p dx dy :
  wf_board b ->
  exists cells,
    lineCells b c r p (dx, dy) = Some cells /\
    length cells =
      (1 + countFrom (fun j => ownedb b p (c + j * dx) (r + j * dy)) 3 1
         + countFrom (fun j => ownedb b p (c + - j * dx) (r + - j * dy)) 3 1)%nat.
Proof.
  intros Hwf. unfold lineCells.
  destruct (walk_length b p (dx * 1) (dy * 1) c r Hwf 3 1) as (fwd & Hf & Lf).
  destruct (walk_length b p (dx * -1) (dy * -1) c r Hwf 3 1) as (bwd & Hb & Lb).
  replace (c + 1 * (dx * 1)) with (c + dx * 1) in Hf by lia.
  replace (r + 1 * (dy * 1)) with (r + dy * 1) in Hf by lia.
  replace (c + 1 * (dx * -1)) with (c + dx * -1) in Hb by lia.
  replace (r + 1 * (dy * -1)) with (r + dy * -1) in Hb by lia.
  rewrite Hf. cbn [mbind option_bind]. rewrite Hb. cbn [mbind option_bind].
  eexists; split; [reflexivity|]. cbn [length]. rewrite length_app, Lf, Lb.
  rewrite (countFrom_ext _ (fun j => ownedb b p (c + j * dx) (r + j * dy)) 3 1)
    by (intros i; f_equal; lia).
  rewrite (countFrom_ext (fun i => ownedb b p (c + i * (dx * -1)) (r + i * (dy * -1)))
             (fun j => ownedb b p (c + - j * dx) (r + - j * dy)) 3 1)
    by (intros i; f_equal; lia).
  reflexivity.
Qed.

Lemma fourThrough_bool b p c r dx dy :
  fourThrough b p c r (dx, dy) <->
  existsb (fun k => forallb (fun i =>
             ownedb b p (c + (i - k) * dx) (r + (i - k) * dy)) [0; 1; 2; 3])
          [0; 1; 2; 3] = true.
Proof.
  unfold fourThrough. simpl fst. simpl snd.
  rewrite existsb_exists. split.
  - intros (k & Hk & Hall). exists k. split.
    + simpl. lia.
    + apply forallb_forall. intros i Hi. apply ownedb_spec, Hall.
      simpl in Hi. lia.
  - intros (k & Hk & Hall). exists k. split.
    + simpl in Hk. lia.
    + intros i Hi. apply ownedb_spec.
      rewrite forallb_forall in Hall. apply Hall. simpl. lia.
Qed.

(** One direction of the scan: the line has four cells or more exactly
    when a window of four owned cells lies around the last piece. *)
Lemma lineCells_four b c r p dx dy :
  wf_board b -> ownedBy b p c r ->
  exists cells,
    lineCells b c r p (dx, dy) = Some cells /\
    (length cells <= 7)%nat /\
    ((4 <=? length cells)%nat = true <-> fourThrough b p c r (dx, dy)).
Proof.
  intros Hwf Hown.
  destruct (lineCells_length b c r p dx dy Hwf) as (cells & Hcells & Hlen).
  exists cells. split; [assumption|]. rewrite Hlen. split.
  - pose proof (countFrom_le
      (fun j => ownedb b p (c + j * dx) (r + j * dy)) 3 1).
    pose proof (countFrom_le
      (fun j => ownedb b p (c + - j * dx) (r + - j * dy)) 3 1).
    lia.
  - rewrite fourThrough_bool.
    set (own := fun j => ownedb b p (c + j * dx) (r + j * dy)).
    assert (H0 : own 0 = true).
    { unfold own. apply ownedb_spec.
      replace (c + 0 * dx) with c by lia. replace (r + 0 * dy) with r by lia.
      assumption. }
    pose proof (four_window own H0) as Hw.
    assert (E : countFrom (fun j => ownedb b p (c + - j * dx) (r + - j * dy)) 3 1
                = countFrom (fun i => own (- i)) 3 1)
      by (apply countFrom_ext; reflexivity).
    rewrite E. fold own in Hw |- *.
    change (fun j => ownedb b p (c + j * dx) (r + j * dy)) with own.
    rewrite Hw. reflexivity.
Qed.

Lemma scanDirections_spec b c r p ds :
  wf_board b -> ownedBy b p c r ->
  exists res,
    scanDirections b c r p ds = Some res /\
    (res = None \/
     exists cells, res = Some (Over won (JNum p) (Some cells)) /\
                   (4 <= length cells <= 7)%nat) /\
    (res <> None <-> exists d, In d ds /\ fourThrough b p c r d).
Proof.
  intros Hwf Hown. induction ds as [|[dx dy] ds IH]; cbn [scanDirections].
  - exists None. split; [reflexivity|]. split; [now left|].
    split; [congruence|]. intros (d & [] & _).
  - destruct (lineCells_four b c r p dx dy Hwf Hown) as (cells & -> & Hle & Hfour).
    destruct (4 <=? length cells)%nat eqn:H4.
    + eexists; split; [reflexivity|]. split.
      * right. exists cells. split; [reflexivity|].
        apply Nat.leb_le in H4. lia.
      * split; [|congruence]. intros _. exists (dx, dy).
        split; [now left | now apply Hfour].
    + destruct IH as (res & -> & Hshape & Hiff).
      exists res. split; [reflexivity|]. split; [assumption|].
      rewrite Hiff. split.
      * intros (d & Hin & Hd). exists d. split; [now right | assumption].
      * intros (d & [<-|Hin] & Hd).
        -- apply Hfour in Hd. congruence.
        -- exists d. auto.
Qed.

(** [checkGameOver] on a well-formed board whose cell [(c, r)] belongs to
    [p]: it returns, and it reports a win exactly for [winsAt]. *)
Lemma c4_checkGameOver_spec s c r p :
  wf s -> ownedBy (board s) p c r ->
  exists over,
    checkGameOver s c r p = Some over /\
    ((exists w cells, over = Over won w cells) <-> winsAt (board s) p c r) /\
    (forall w cells, over = Over won w cells ->
       w = JNum p /\ exists l, cells = Some l /\ (4 <= length l <= 7)%nat) /\
    (over = NotOver \/
     (exists w cells, over = Over won w cells) \/
     over = Over draw JNull None).
Proof.
  intros Hwf Hown. unfold checkGameOver, winsAt.
  destruct (scanDirections_spec (board s) c r p directions Hwf Hown)
    as (res & -> & Hshape & Hiff).
  simpl. destruct Hshape as [-> | (cells & -> & Hlen)].
  - assert (Hno : ~ exists d, In d directions /\ fourThrough (board s) p c r d)
      by (rewrite <- Hiff; congruence).
    destruct (isBoardFull (board s)); eexists; (split; [reflexivity|]);
      (split; [split; [intros (? & ? & [=]) | intros H; now destruct Hno]|]);
      (split; [intros ? ? [=] | auto]).
  - eexists; split; [reflexivity|]. split; [|split].
    + split; [intros _; apply Hiff; congruence | eauto].
    + intros w l [= <- <-]. eauto.
    + right. left. eauto.
Qed.

(** The drop loop: the row it finds is empty and every row below it is
    occupied. *)
Lemma findRow_rows col r :
  findRow col rows = Some r ->
  0 <= r < 6 /\ js_get col (Some r) = JNull /\
  forall y, r < y < 6 -> js_get col (Some y) <> JNull.
Proof.
  unfold rows. cbn [findRow].
  repeat match goal with
         | |- context [strict_eq ?a JNull] =>
             let E := fresh "E" in
             destruct (strict_eq a JNull) eqn:E;
             [apply strict_eq_spec in E | apply strict_eq_false in E]
         end;
    intros [= <-]; (split; [lia|]); (split; [assumption|]);
    intros y Hy;
    repeat match goal with
           | H : js_get col (Some ?k) <> JNull |- _ =>
               destruct (Z.eq_dec y k) as [->|]; [exact H|]; clear H
           end;
    lia.
Qed.

Lemma findRow_rows_None col :
  findRow col rows = None -> js_get col (Some 0) <> JNull.
Proof.
  unfold rows. cbn [findRow].
  repeat match goal with
         | |- context [strict_eq ?a JNull] =>
             let E := fresh "E" in
             destruct (strict_eq a JNull) eqn:E; [discriminate|]
         end.
  intros _. now apply strict_eq_false.
Qed.

Lemma js_get_insert col r v y :
  0 <= r < Z.of_nat (length col) ->
  js_get (js_set col (Some r) v) (Some y) =
  if y =? r then v else js_get col (Some y).
Proof.
  intros Hr. unfold js_set.
  destruct (Z.ltb_spec r 0); [lia|].
  destruct (Nat.ltb_spec (Z.to_nat r) (length col)); [|lia].
  unfold js_get, elem.
  destruct (Z.eqb_spec y r) as [->|Hne].
  - destruct (Z.ltb_spec r 0); [lia|].
    rewrite list_lookup_insert_eq by assumption. reflexivity.
  - destruct (Z.ltb_spec y 0); [reflexivity|].
    rewrite list_lookup_insert_ne by lia. reflexivity.
Qed.

Lemma cellAt_setCell b c r v col x y :
  elem b c = Some col -> 0 <= r < Z.of_nat (length col) ->
  cellAt (setCell b c r v) x y =
  if (x =? c) && (y =? r) then v else cellAt b x y.
Proof.
  intros Hcol Hr. unfold setCell. rewrite Hcol.
  pose proof Hcol as Hcol'. apply elem_Some in Hcol' as [Hc Hlk].
  assert (Hlt : (Z.to_nat c < length b)%nat) by (eapply lookup_lt_Some; eauto).
  unfold cellAt at 1.
  destruct (Z.eqb_spec x c) as [->|Hne]; cbn [andb].
  - unfold elem at 1. destruct (Z.ltb_spec c 0); [lia|].
    rewrite list_lookup_insert_eq by assumption.
    rewrite js_get_insert by assumption.
    destruct (y =? r); [reflexivity|].
    unfold cellAt. now rewrite Hcol.
  - unfold cellAt, elem. destruct (Z.ltb_spec x 0); [reflexivity|].
    rewrite list_lookup_insert_ne by lia. reflexivity.
Qed.

Lemma wf_board_setCell b c r p :
  wf_board b -> 0 <= c < 7 -> 0 <= r < 6 ->
  wf_board (setCell b c r (JNum p)).
Proof.
  intros Hwf Hc Hr.
  destruct (wf_board_column b c Hwf Hc) as (col & Hcol & Hlen & Hdef).
  destruct Hwf as [Hb Hcols].
  unfold setCell. rewrite Hcol. split.
  - now rewrite length_insert.
  - apply Forall_insert; [assumption|].
    unfold js_set. destruct (Z.ltb_spec r 0); [lia|].
    destruct (Nat.ltb_spec (Z.to_nat r) (length col)); [|lia].
    split.
    + now rewrite length_insert.
    + apply Forall_insert; [assumption | discriminate].
Qed.

(** What a valid move does, step by step. *)
Lemma c4_makeMove_valid s p mv :
  wf s -> isValidMove s p mv = Some true ->
  exists c r over,
    column mv = Some c /\ 0 <= c < 7 /\ 0 <= r < 6 /\
    currentPlayer s = p /\ status s = playing /\
    cellAt (board s) c 0 = JNull /\
    cellAt (board s) c r = JNull /\
    (forall y, r < y < 6 -> cellAt (board s) c y <> JNull) /\
    dropPiece (board s) c p = Some (r, setCell (board s) c r (JNum p)) /\
    let newGameState :=
      {| board := setCell (board s) c r (JNum p);
         currentPlayer := currentPlayer s;
         winner := winner s;
         status := status s;
         winningCells := winningCells s |} in
    wf newGameState /\
    ownedBy (board newGameState) p c r /\
    checkGameOver newGameState c r p = Some over /\
    makeMove s p mv =
      Some (NewObject
        match over with
        | Over st w cells =>
            {| board := board newGameState;
               currentPlayer := currentPlayer s;
               winner := w; status := st; winningCells := cells |}
        | NotOver =>
            {| board := board newGameState;
               currentPlayer := getNextPlayer newGameState;
               winner := winner s; status := status s;
               winningCells := winningCells s |}
        end).
Proof.
  intros Hwf Hvalid. unfold makeMove. rewrite Hvalid. cbn [mbind option_bind negb].
  unfold isValidMove in Hvalid.
  destruct (Z.eqb_spec (currentPlayer s) p) as [Hcp|]; [|discriminate].
  destruct (Status_eqb (status s) playing) eqn:Hst; [|discriminate].
  apply Status_eqb_spec in Hst. cbn [negb] in Hvalid.
  destruct (column mv) as [c|] eqn:Hc; [|discriminate].
  cbn [num_ltb num_geb columnAt] in Hvalid.
  destruct (Z.ltb_spec c 0); [discriminate|].
  destruct (Z.leb_spec 7 c); [discriminate|]. cbn [orb] in Hvalid.
  assert (Hcr : 0 <= c < 7) by lia.
  destruct (wf_board_column (board s) c Hwf Hcr) as (col & Hcol & Hlen & Hdef).
  rewrite Hcol in Hvalid.
  destruct (strict_eq (js_get col (Some 0)) JNull) eqn:Htop; [|discriminate].
  apply strict_eq_spec in Htop.
  destruct (findRow col rows) as [r|] eqn:Hrow.
  2:{ apply findRow_rows_None in Hrow. congruence. }
  destruct (findRow_rows col r Hrow) as (Hr & Hempty & Hbelow).
  assert (Hwf' : wf_board (setCell (board s) c r (JNum p)))
    by (apply wf_board_setCell; assumption).
  assert (Hown : ownedBy (setCell (board s) c r (JNum p)) p c r).
  { split; [assumption|]. split; [assumption|].
    rewrite (cellAt_setCell _ _ _ _ col) by (assumption || lia).
    now rewrite !Z.eqb_refl. }
  set (ngs := {| board := setCell (board s) c r (JNum p);
                 currentPlayer := currentPlayer s; winner := winner s;
                 status := status s; winningCells := winningCells s |}).
  destruct (c4_checkGameOver_spec ngs c r p Hwf' Hown) as (over & Hover & _).
  exists c, r, over.
  assert (Hdrop : dropPiece (board s) c p
                  = Some (r, setCell (board s) c r (JNum p))).
  { unfold dropPiece. cbn [columnAt]. rewrite Hcol. cbn [mbind option_bind].
    now rewrite Hrow. }
  split; [reflexivity|]. split; [assumption|]. split; [assumption|].
  split; [assumption|]. split; [assumption|].
  split; [now rewrite (cellAt_column _ _ _ _ Hcol)|].
  split; [now rewrite (cellAt_column _ _ _ _ Hcol)|].
  split.
  { intros y Hy. rewrite (cellAt_column _ _ _ _ Hcol). now apply Hbelow. }
  split; [assumption|].
  split; [exact Hwf'|]. split; [exact Hown|]. split; [exact Hover|].
  cbn [mbind option_bind]. rewrite Hdrop. cbn [mbind option_bind].
  fold ngs. rewrite Hover.
  cbn [mbind option_bind]. destruct over; reflexivity.
Qed.

Lemma walk_total b p sx sy left x y :
  wf_board b ->
  exists cells,
    walk b p sx sy left x y = Some cells /\ (length cells <= left)%nat.
Proof.
  intros Hwf.
  destruct (walk_length b p sx sy x y Hwf left 0) as (cells & Hcells & _).
  replace (x + 0 * sx) with x in Hcells by lia.
  replace (y + 0 * sy) with y in Hcells by lia.
  exists cells. split; [assumption|]. eapply walk_bound; eauto.
Qed.

Lemma wf_cell_defined b x y :
  wf_board b -> 0 <= x < 7 -> 0 <= y < 6 -> cellAt b x y <> JUndefined.
Proof.
  intros Hwf Hx Hy.
  destruct (wf_board_column b x Hwf Hx) as (col & Hcol & Hlen & Hdef).
  rewrite (cellAt_column _ _ _ _ Hcol). apply js_get_defined; [assumption|lia].
Qed.

(** A move on a column whose top cell is not empty is refused, and
    [makeMove] hands back its argument. *)
Lemma full_column_rejected s p mv c :
  wf s -> column mv = Some c -> cellAt (board s) c 0 <> JNull ->
  isValidMove s p mv = Some false /\ makeMove s p mv = Some SameObject.
Proof.
  intros Hwf Hc Htop.
  assert (Hv : isValidMove s p mv = Some false).
  { unfold isValidMove. rewrite Hc. cbn [num_ltb num_geb columnAt].
    destruct (negb (currentPlayer s =? p)); [reflexivity|].
    destruct (negb (Status_eqb (status s) playing)); [reflexivity|].
    destruct (Z.ltb_spec c 0); [reflexivity|].
    destruct (Z.leb_spec 7 c); [reflexivity|]. cbn [orb].
    destruct (wf_board_column (board s) c Hwf) as (col & Hcol & _); [lia|].
    rewrite Hcol. rewrite (cellAt_column _ _ _ _ Hcol) in Htop.
    apply strict_eq_false in Htop. now rewrite Htop. }
  split; [assumption|]. unfold makeMove. now rewrite Hv.
Qed.

(** C1. For the connect-four state a valid move produces, [checkGameOver]
    returns, and it reports a win if and only if one of the four lines
    through the piece just placed has four or more contiguous cells of the
    mover around that piece; each of the two walks of a line adds at most
    three cells, and the winner reported is the mover. *)
Theorem checkGameOver_win_through_last_piece s p mv :
  wf s -> isValidMove s p mv = Some true ->
  exists c r newGameState over s',
    column mv = Some c /\
    dropPiece (board s) c p = Some (r, board newGameState) /\
    checkGameOver newGameState c r p = Some over /\
    ((exists w cells, over = Over won w cells) <->
     winsAt (board newGameState) p c r) /\
    (forall w cells, over = Over won w cells -> w = JNum p) /\
    (forall dx dy m, In (dx, dy) directions -> m = 1 \/ m = -1 ->
       exists cells,
         walk (board newGameState) p (dx * m) (dy * m) 3
              (c + dx * m) (r + dy * m) = Some cells /\
         (length cells <= 3)%nat) /\
    makeMove s p mv = Some (NewObject s') /\
    board s' = board newGameState /\
    (status s' = won <-> winsAt (board s') p c r) /\
    (status s' = won -> winner s' = JNum p).
Proof.
  intros Hwf Hvalid.
  destruct (c4_makeMove_valid s p mv Hwf Hvalid)
    as (c & r & over & Hc & Hcr & Hr & Hcp & Hst & _ & _ & _ & Hdrop & H).
  cbv zeta in H. destruct H as (Hwf' & Hown & Hover & Hmm).
  set (ngs := {| board := setCell (board s) c r (JNum p);
                 currentPlayer := currentPlayer s; winner := winner s;
                 status := status s; winningCells := winningCells s |}) in *.
  destruct (c4_checkGameOver_spec ngs c r p Hwf' Hown)
    as (over' & Hover' & Hiff & Hwinner & Hshape).
  assert (over' = over) by congruence. subst over'.
  eexists c, r, ngs, over, _.
  split; [assumption|]. split; [exact Hdrop|]. split; [assumption|].
  split; [exact Hiff|]. split; [intros w cells E; now apply Hwinner in E|].
  split; [intros dx dy m _ _; now apply walk_total|].
  split; [exact Hmm|].
  destruct Hshape as [-> | [(w & cells & ->) | ->]]; cbn [board status winner].
  - split; [reflexivity|]. rewrite Hst. split.
    + split; [discriminate|]. intros Hw. apply Hiff in Hw as (? & ? & [=]).
    + discriminate.
  - split; [reflexivity|]. split.
    + split; [intros _; apply Hiff; eauto | reflexivity].
    + intros _. now destruct (Hwinner w cells eq_refl).
  - split; [reflexivity|]. split.
    + split; [discriminate|]. intros Hw. apply Hiff in Hw as (? & ? & [=]).
    + discriminate.
Qed.

(** C5. A valid connect-four move changes exactly one cell, in the chosen
    column, from empty to the mover's index, and every cell below it in
    that column is occupied: the piece lands on the lowest empty row. A
    move on a column whose top cell is occupied is refused. *)
Theorem makeMove_lowest_empty_row s :
  wf s ->
  (forall p mv, isValidMove s p mv = Some true ->
     exists c r s',
       column mv = Some c /\ 0 <= c < 7 /\ 0 <= r < 6 /\
       makeMove s p mv = Some (NewObject s') /\
       cellAt (board s) c r = JNull /\
       cellAt (board s') c r = JNum p /\
       (forall x y, (x, y) <> (c, r) ->
          cellAt (board s') x y = cellAt (board s) x y) /\
       (forall y, r < y < 6 -> exists q, cellAt (board s) c y = JNum q))
  /\
  (forall p mv c q, column mv = Some c -> cellAt (board s) c 0 = JNum q ->
     isValidMove s p mv = Some false /\ makeMove s p mv = Some SameObject).
Proof.
  intros Hwf. split.
  - intros p mv Hvalid.
    destruct (c4_makeMove_valid s p mv Hwf Hvalid)
      as (c & r & over & Hc & Hcr & Hr & _ & _ & _ & Hempty & Hbelow & _ & H).
    cbv zeta in H. destruct H as (_ & Hown & _ & Hmm).
    destruct (wf_board_column (board s) c Hwf Hcr) as (col & Hcol & Hlen & _).
    eexists c, r, _. split; [assumption|]. split; [assumption|].
    split; [assumption|]. split; [exact Hmm|]. split; [assumption|].
    assert (Hb : forall x y,
               cellAt (setCell (board s) c r (JNum p)) x y =
               if (x =? c) && (y =? r) then JNum p else cellAt (board s) x y)
      by (intros; apply (cellAt_setCell _ _ _ _ col); [assumption|lia]).
    split; [|split].
    + destruct over; cbn [board]; apply Hown.
    + intros x y Hne.
      assert (E : (x =? c) && (y =? r) = false).
      { apply andb_false_iff.
        destruct (Z.eqb_spec x c), (Z.eqb_spec y r); auto. congruence. }
      destruct over; cbn [board]; rewrite Hb, E; reflexivity.
    + intros y Hy.
      pose proof (Hbelow y Hy) as Hn.
      pose proof (wf_cell_defined (board s) c y Hwf Hcr) as Hd.
      destruct (cellAt (board s) c y) as [| |q]; [exfalso; apply Hd; [lia|reflexivity]|congruence|eauto].
  - intros p mv c q Hc Htop. apply (full_column_rejected s p mv c); try assumption.
    congruence.
Qed.

Lemma wf_freshPlaying : wf freshPlaying.
Proof.
  split; [reflexivity|].
  repeat (constructor; [split; [reflexivity|repeat constructor; discriminate]|]).
  constructor.
Qed.

(** C6. Starting from a fresh playing state, the players take turns
    dropping into one column. After the seventh drop the column is full,
    and the eighth drop is refused: [makeMove] hands back the state it was
    given. The column has six rows, so it is full from the sixth drop on
    and the seventh drop is refused in the same way. *)
Theorem eighth_drop_rejected c :
  0 <= c < 7 ->
  exists s6 s7,
    drops freshPlaying c 0 6 = Some s6 /\
    drops freshPlaying c 0 7 = Some s7 /\
    (forall y, 0 <= y < 6 -> exists q, cellAt (board s7) c y = JNum q) /\
    (forall q, isValidMove s7 q {| index := None; column := Some c |} = Some false /\
               makeMove s7 q {| index := None; column := Some c |} = Some SameObject) /\
    drops freshPlaying c 0 8 = Some s7 /\
    s7 = s6.
Proof.
  intros Hc.
  assert (Hcases : c = 0 \/ c = 1 \/ c = 2 \/ c = 3 \/ c = 4 \/ c = 5 \/ c = 6)
    by lia.
  assert (Hgoal : forall s7,
    drops freshPlaying c 0 6 = Some s7 ->
    drops freshPlaying c 0 7 = Some s7 ->
    drops freshPlaying c 0 8 = Some s7 ->
    wf s7 ->
    (forall y, 0 <= y < 6 -> exists q, cellAt (board s7) c y = JNum q) ->
    exists s6 s7,
      drops freshPlaying c 0 6 = Some s6 /\
      drops freshPlaying c 0 7 = Some s7 /\
      (forall y, 0 <= y < 6 -> exists q, cellAt (board s7) c y = JNum q) /\
      (forall q, isValidMove s7 q {| index := None; column := Some c |} = Some false /\
                 makeMove s7 q {| index := None; column := Some c |} = Some SameObject) /\
      drops freshPlaying c 0 8 = Some s7 /\
      s7 = s6).
  { intros s7 H6 H7 H8 Hwf Hfull. exists s7, s7.
    split; [assumption|]. split; [assumption|]. split; [assumption|].
    split; [|split; [assumption|reflexivity]].
    intros q. destruct (Hfull 0) as [q0 Hq0]; [lia|].
    apply (full_column_rejected s7 q _ c); [assumption|reflexivity|congruence]. }
  assert (Hwfb : forall b, Forall (fun col => length col = 6%nat /\
                    Forall (fun x => x <> JUndefined) col) b ->
                 length b = 7%nat -> wf_board b) by (intros; split; assumption).
  destruct Hcases as [->|[->|[->|[->|[->|[->| ->]]]]]];
    (eapply Hgoal;
     [ vm_compute; reflexivity
     | vm_compute; reflexivity
     | vm_compute; reflexivity
     | apply Hwfb; [|reflexivity];
       repeat (constructor;
               [split; [reflexivity|repeat constructor; discriminate]|]);
       constructor
     | intros y Hy;
       assert (Hy' : y = 0 \/ y = 1 \/ y = 2 \/ y = 3 \/ y = 4 \/ y = 5) by lia;
       destruct Hy' as [->|[->|[->|[->|[->| ->]]]]];
       vm_compute; eauto ]).
Qed.

End Connect4Facts.

(** ** Turns *)

Section Turns.
Import Server.

Lemma getNextPlayer_mod2 cp :
  cp = 0 \/ cp = 1 -> (if cp =? 0 then 1 else 0) = (cp + 1) mod 2.
Proof. intros [->| ->]; reflexivity. Qed.

(** One valid move, for either engine. *)
Lemma valid_move_turn g s p mv :
  wfState g s ->
  currentPlayerOf s = 0 \/ currentPlayerOf s = 1 ->
  isValidMove g s p mv = Some true ->
  exists s1,
    makeMove g s p mv = Some (NewObject s1) /\
    wfState g s1 /\
    p = currentPlayerOf s /\ statusOf s = playing /\
    (statusOf s1 = playing /\
     currentPlayerOf s1 = (currentPlayerOf s + 1) mod 2 \/
     terminal s1 /\ currentPlayerOf s1 = currentPlayerOf s).
Proof.
  intros Hwf Hcp Hvalid.
  destruct g, s as [t|c]; cbn in Hwf; try contradiction;
    cbn [isValidMove] in Hvalid; cbn [currentPlayerOf statusOf] in *.
  - injection Hvalid as Hvalid.
    destruct (ttt_makeMove_valid_turn t p mv Hvalid) as (t' & Hmm & Hturn).
    pose proof (ttt_isValidMove_true _ _ _ Hvalid) as (Hp & Hst & _).
    exists (TState t'). cbn [makeMove]. rewrite Hmm.
    split; [reflexivity|]. split.
    { cbn. eapply ttt_makeMove_valid_wf; eauto. }
    split; [congruence|]. split; [assumption|].
    unfold terminal. cbn [statusOf currentPlayerOf].
    destruct Hturn as [[Hs Hc] | [Hs Hc]]; [left | right; auto].
    split; [assumption|]. rewrite Hc. unfold TicTacToe.getNextPlayer.
    now apply getNextPlayer_mod2.
  - destruct (c4_makeMove_valid c p mv Hwf Hvalid)
      as (col & r & over & _ & _ & _ & Hp & Hst & _ & _ & _ & _ & H).
    cbv zeta in H. destruct H as (Hwf' & Hown & Hover & Hmm).
    destruct (c4_checkGameOver_spec _ col r p Hwf' Hown)
      as (over' & Hover' & _ & _ & Hshape).
    assert (over' = over) by congruence. subst over'.
    eexists (CState _). cbn [makeMove]. rewrite Hmm. cbn [mbind option_bind].
    split; [reflexivity|].
    unfold terminal. cbn [statusOf currentPlayerOf wfState].
    destruct Hshape as [-> | [(w & cells & ->) | ->]];
      cbn [Connect4.status Connect4.currentPlayer Connect4.board];
      (split; [exact Hwf'|]); (split; [congruence|]); (split; [assumption|]);
      auto.
    left. split; [assumption|]. unfold Connect4.getNextPlayer.
    cbn [Connect4.currentPlayer]. now apply getNextPlayer_mod2.
Qed.

Lemma isValidMove_not_playing g s p mv :
  statusOf s <> playing -> isValidMove g s p mv <> Some true.
Proof.
  intros Hst. destruct g, s as [t|c]; cbn [isValidMove]; try discriminate;
    cbn [statusOf] in Hst.
  - unfold TicTacToe.isValidMove.
    destruct (negb _); [discriminate|].
    destruct (Status_eqb _ playing) eqn:E;
      [apply Status_eqb_spec in E; contradiction | discriminate].
  - unfold Connect4.isValidMove.
    destruct (negb _); [discriminate|].
    destruct (Status_eqb _ playing) eqn:E;
      [apply Status_eqb_spec in E; contradiction | discriminate].
Qed.

Lemma play_terminal g s ms s' :
  terminal s -> play g s ms = Some s' -> ms = [] /\ s' = s.
Proof.
  intros Hterm. destruct ms as [|[p mv] ms]; cbn [play].
  - intros [= <-]. auto.
  - assert (Hnv : isValidMove g s p mv <> Some true).
    { apply isValidMove_not_playing. destruct Hterm as [E|E]; rewrite E; discriminate. }
    destruct (isValidMove g s p mv) as [[|]|]; try discriminate. congruence.
Qed.

Lemma play_turns g ms : forall s s',
  wfState g s -> statusOf s = playing ->
  currentPlayerOf s = 0 \/ currentPlayerOf s = 1 ->
  play g s ms = Some s' ->
  wfState g s' /\
  (currentPlayerOf s' = 0 \/ currentPlayerOf s' = 1) /\
  (forall k p mv, ms !! k = Some (p, mv) ->
     p = (currentPlayerOf s + Z.of_nat k) mod 2) /\
  (statusOf s' = playing /\
   currentPlayerOf s' = (currentPlayerOf s + Z.of_nat (length ms)) mod 2 \/
   terminal s' /\ ms <> [] /\
   currentPlayerOf s' = (currentPlayerOf s + Z.of_nat (length ms) - 1) mod 2).
Proof.
  induction ms as [|[p mv] ms IH]; intros s s' Hwf Hst Hcp; cbn [play].
  - intros [= <-]. split; [assumption|]. split; [assumption|]. split.
    + intros k p mv Hk. discriminate.
    + left. split; [assumption|]. cbn [length].
      destruct Hcp as [-> | ->]; reflexivity.
  - destruct (isValidMove g s p mv) as [[|]|] eqn:Hvalid; try discriminate.
    destruct (valid_move_turn g s p mv Hwf Hcp Hvalid)
      as (s1 & Hmm & Hwf1 & Hp & _ & Hturn).
    rewrite Hmm. cbn [returned_state]. intros Hplay.
    destruct Hturn as [[Hs1 Hc1] | [Hterm Hc1]].
    + assert (Hcp1 : currentPlayerOf s1 = 0 \/ currentPlayerOf s1 = 1)
        by (rewrite Hc1; destruct Hcp as [-> | ->]; auto).
      destruct (IH s1 s' Hwf1 Hs1 Hcp1 Hplay) as (Hwf' & Hcp' & Hmovers & Hfinal).
      split; [assumption|]. split; [assumption|]. split.
      * intros [|k] q mv' Hk.
        -- cbn in Hk. injection Hk as <- <-. rewrite Hp.
           destruct Hcp as [-> | ->]; reflexivity.
        -- cbn in Hk. rewrite (Hmovers k q mv' Hk), Hc1.
           destruct Hcp as [-> | ->]; Z.to_euclidean_division_equations; lia.
      * cbn [length]. destruct Hfinal as [[Hs' Hc'] | (Ht' & Hne & Hc')].
        -- left. split; [assumption|]. rewrite Hc', Hc1.
           destruct Hcp as [-> | ->]; Z.to_euclidean_division_equations; lia.
        -- right. split; [assumption|]. split; [discriminate|].
           rewrite Hc', Hc1.
           destruct Hcp as [-> | ->]; Z.to_euclidean_division_equations; lia.
    + destruct (play_terminal g s1 ms s' Hterm Hplay) as [-> ->].
      split; [assumption|]. split; [now rewrite Hc1|]. split.
      * intros [|k] q mv' Hk; [|discriminate].
        cbn in Hk. injection Hk as <- <-. rewrite Hp.
        destruct Hcp as [-> | ->]; reflexivity.
      * right. split; [assumption|]. split; [discriminate|].
        rewrite Hc1. cbn [length].
        destruct Hcp as [-> | ->]; reflexivity.
Qed.

(** C4. Along every sequence of valid moves from a playing state, in
    either game, the turn alternates between seats 0 and 1 until a
    terminal status is reached: the k-th move is made by seat
    [(first + k) mod 2]; a valid move that does not end the game sets
    [currentPlayer] to [(current + 1) mod 2]; a valid move that ends it
    leaves [currentPlayer] as it was. *)
Theorem currentPlayer_alternates g s ms s' :
  wfState g s -> statusOf s = playing ->
  currentPlayerOf s = 0 \/ currentPlayerOf s = 1 ->
  play g s ms = Some s' ->
  (forall k p mv, ms !! k = Some (p, mv) ->
     p = (currentPlayerOf s + Z.of_nat k) mod 2) /\
  (statusOf s' = playing /\
   currentPlayerOf s' = (currentPlayerOf s + Z.of_nat (length ms)) mod 2 \/
   terminal s' /\ ms <> [] /\
   currentPlayerOf s' = (currentPlayerOf s + Z.of_nat (length ms) - 1) mod 2) /\
  (forall p mv, isValidMove g s' p mv = Some true ->
     exists s'',
       makeMove g s' p mv = Some (NewObject s'') /\
       (statusOf s'' = playing /\
        currentPlayerOf s'' = (currentPlayerOf s' + 1) mod 2 \/
        terminal s'' /\ currentPlayerOf s'' = currentPlayerOf s')).
Proof.
  intros Hwf Hst Hcp Hplay.
  destruct (play_turns g ms s s' Hwf Hst Hcp Hplay) as (Hwf' & Hcp' & Hmovers & Hfinal).
  split; [assumption|]. split; [assumption|].
  intros p mv Hvalid.
  destruct (valid_move_turn g s' p mv Hwf' Hcp' Hvalid) as (s1 & Hmm & _ & _ & _ & Hturn).
  exists s1. auto.
Qed.

End Turns.

(** ** The room table and the store *)

Section ServerFacts.
Import Server.

Lemma String_eqb_eq a b : String.eqb a b = true <-> a = b.
Proof. apply String.eqb_eq. Qed.

Lemma rooms_get_replace_eq rs k v old :
  rooms_get rs k = Some old -> rooms_get (rooms_replace rs k v) k = Some v.
Proof.
  induction rs as [|[k' r] rs IH]; cbn [rooms_get rooms_replace]; [discriminate|].
  destruct (String.eqb k' k) eqn:E; cbn [rooms_get]; rewrite E; auto.
Qed.

Lemma rooms_get_replace_ne rs k v k' :
  k' <> k -> rooms_get (rooms_replace rs k v) k' = rooms_get rs k'.
Proof.
  intros Hne. induction rs as [|[k0 r] rs IH]; cbn [rooms_get rooms_replace];
    [reflexivity|].
  destruct (String.eqb k0 k) eqn:E; cbn [rooms_get].
  - apply String_eqb_eq in E. subst k0.
    destruct (String.eqb k k') eqn:E'; [|reflexivity].
    apply String_eqb_eq in E'. congruence.
  - now rewrite IH.
Qed.

Lemma rooms_get_insert_index_eq rs n k v :
  rooms_get rs k = None -> rooms_get (rooms_insert_index rs n k v) k = Some v.
Proof.
  induction rs as [|[k' r] rs IH]; cbn [rooms_get rooms_insert_index].
  - now rewrite String.eqb_refl.
  - destruct (String.eqb k' k) eqn:E; [discriminate|]. intros Hnone.
    destruct (arrayIndex k') as [n'|]; [destruct (n <? n')%N|];
      cbn [rooms_get]; rewrite ?String.eqb_refl, ?E; auto.
Qed.

Lemma rooms_get_insert_index_ne rs n k v k' :
  k' <> k -> rooms_get (rooms_insert_index rs n k v) k' = rooms_get rs k'.
Proof.
  intros Hne.
  assert (Hk : String.eqb k k' = false)
    by (apply not_true_iff_false; rewrite String_eqb_eq; congruence).
  induction rs as [|[k0 r] rs IH]; cbn [rooms_get rooms_insert_index].
  - now rewrite Hk.
  - destruct (arrayIndex k0) as [n'|]; [destruct (n <? n')%N|];
      cbn [rooms_get]; rewrite ?Hk, ?IH; reflexivity.
Qed.

Lemma rooms_get_app rs k v k' :
  rooms_get (rs ++ [(k, v)]) k' =
  match rooms_get rs k' with
  | Some r => Some r
  | None => if String.eqb k k' then Some v else None
  end.
Proof.
  induction rs as [|[k0 r] rs IH]; cbn [rooms_get app]; [reflexivity|].
  destruct (String.eqb k0 k'); auto.
Qed.

(** After [rooms[k] = v], [rooms[k]] is [v] and the other keys are as
    before. *)
Lemma rooms_get_put_eq rs k v : rooms_get (rooms_put rs k v) k = Some v.
Proof.
  unfold rooms_put. destruct (rooms_get rs k) as [old|] eqn:E.
  - eapply rooms_get_replace_eq; eauto.
  - destruct (arrayIndex k).
    + now apply rooms_get_insert_index_eq.
    + rewrite rooms_get_app, E. now rewrite String.eqb_refl.
Qed.

Lemma rooms_get_put_ne rs k v k' :
  k' <> k -> rooms_get (rooms_put rs k v) k' = rooms_get rs k'.
Proof.
  intros Hne. unfold rooms_put. destruct (rooms_get rs k) as [old|] eqn:E.
  - now apply rooms_get_replace_ne.
  - destruct (arrayIndex k).
    + now apply rooms_get_insert_index_ne.
    + rewrite rooms_get_app. destruct (rooms_get rs k'); [reflexivity|].
      destruct (String.eqb k k') eqn:E'; [|reflexivity].
      apply String_eqb_eq in E'. congruence.
Qed.

Lemma alloc_lookup_new (h : list gstate) s : (h ++ [s]) !! length h = Some s.
Proof. rewrite lookup_app_r by lia. now rewrite Nat.sub_diag. Qed.

Lemma alloc_lookup_old (h : list gstate) s l x :
  h !! l = Some x -> (h ++ [s]) !! l = Some x.
Proof. apply lookup_app_l_Some. Qed.

(** The reference [makeMove] returns is the one it was given exactly when
    the engine returned its argument. *)
Lemma callMakeMove_cases g (h : list gstate) l p mv s :
  h !! l = Some s ->
  match makeMove g s p mv with
  | None => callMakeMove g h l p mv = None
  | Some SameObject => callMakeMove g h l p mv = Some (h, l)
  | Some (NewObject s') =>
      callMakeMove g h l p mv = Some (h ++ [s'], length h) /\ length h <> l
  end.
Proof.
  intros Hl. unfold callMakeMove. rewrite Hl. cbn [mbind option_bind].
  destruct (makeMove g s p mv) as [[|s']|]; cbn [mbind option_bind]; auto.
  split; [reflexivity|]. apply lookup_lt_Some in Hl. lia.
Qed.

Lemma invalid_move_same_object g s p mv :
  isValidMove g s p mv = Some false -> makeMove g s p mv = Some SameObject.
Proof.
  destruct g, s as [t|c]; cbn [isValidMove makeMove]; try discriminate.
  - intros [= Hv]. unfold TicTacToe.makeMove. now rewrite Hv.
  - intros Hv. unfold Connect4.makeMove. now rewrite Hv.
Qed.

(** C3. When [isValidMove] returns false, [makeMove] returns the very
    object it was given, not a copy. The move handler compares the
    returned reference with the stored one: when they are the same it
    leaves the server as it is and emits nothing, and only when they
    differ does it store the returned state and broadcast it. So an
    invalid move changes no stored state and broadcasts nothing. *)
Theorem invalid_move_is_noop σ sid roomId room player s mv :
  rooms_get (rooms σ) roomId = Some room ->
  find (isSocket sid) (players room) = Some player ->
  heap σ !! gameState room = Some s ->
  (isValidMove (gameInstance room) s (p_index player) mv = Some false ->
     makeMove (gameInstance room) s (p_index player) mv = Some SameObject /\
     callMakeMove (gameInstance room) (heap σ) (gameState room)
                  (p_index player) mv = Some (heap σ, gameState room) /\
     handle σ sid (makeMoveEv roomId mv) = Some (σ, []))
  /\
  (forall h updated,
     callMakeMove (gameInstance room) (heap σ) (gameState room)
                  (p_index player) mv = Some (h, updated) ->
     (updated = gameState room ->
        handle σ sid (makeMoveEv roomId mv) = Some (σ, [])) /\
     (updated <> gameState room ->
        exists s',
          h !! updated = Some s' /\
          makeMove (gameInstance room) s (p_index player) mv
            = Some (NewObject s') /\
          handle σ sid (makeMoveEv roomId mv) =
            Some ({| rooms := rooms_put (rooms σ) roomId
                                (withGameState room updated);
                     heap := h |},
                  [(toRoom roomId, gameStateUpdate s')]))).
Proof.
  intros Hroom Hplayer Hs.
  pose proof (callMakeMove_cases (gameInstance room) (heap σ)
                (gameState room) (p_index player) mv s Hs) as Hcases.
  assert (Hsame : callMakeMove (gameInstance room) (heap σ) (gameState room)
                    (p_index player) mv = Some (heap σ, gameState room) ->
                  handle σ sid (makeMoveEv roomId mv) = Some (σ, [])).
  { intros Hcall. cbn [handle]. unfold onMakeMove.
    rewrite Hroom, Hplayer, Hcall. cbn [mbind option_bind].
    rewrite Nat.eqb_refl. cbn [negb]. destruct σ; reflexivity. }
  split.
  - intros Hinvalid. apply invalid_move_same_object in Hinvalid.
    rewrite Hinvalid in Hcases. auto.
  - intros h updated Hcall.
    destruct (makeMove (gameInstance room) s (p_index player) mv)
      as [[|s']|] eqn:Hmm.
    + rewrite Hcall in Hcases. injection Hcases as -> ->.
      split; [intros _; now apply Hsame | congruence].
    + destruct Hcases as [Hc Hne]. rewrite Hcall in Hc. injection Hc as -> ->.
      split; [congruence|]. intros _. exists s'.
      split; [apply alloc_lookup_new|]. split; [reflexivity|].
      cbn [handle]. unfold onMakeMove.
      rewrite Hroom, Hplayer, Hcall. cbn [mbind option_bind].
      destruct (Nat.eqb_spec (length (heap σ)) (gameState room)); [congruence|].
      cbn [negb]. rewrite alloc_lookup_new. reflexivity.
    + congruence.
Qed.

(** C7. Whatever the state of a room and however many players are
    seated, the reset handler replaces the room's game state by a new
    [init()] object, whose board is empty, and sets its status to
    [playing]; the room's players and spectators are as before. *)
Theorem resetGame_fresh_playing σ sid roomId room :
  rooms_get (rooms σ) roomId = Some room ->
  exists σ' room' s',
    handle σ sid (resetGame roomId) =
      Some (σ', [(toRoom roomId, gameReset s')]) /\
    rooms_get (rooms σ') roomId = Some room' /\
    heap σ' !! gameState room' = Some s' /\
    s' = setStatus playing (init (gameInstance room)) /\
    boardEmpty s' /\ statusOf s' = playing /\
    players room' = players room /\
    spectators room' = spectators room /\
    gameInstance room' = gameInstance room /\
    gameState room' = length (heap σ).
Proof.
  intros Hroom. cbn [handle]. unfold onResetGame. rewrite Hroom.
  cbn [alloc]. rewrite list_lookup_alter_eq, alloc_lookup_new.
  cbn [fmap option_fmap option_map mbind option_bind].
  eexists _, (withGameState room (length (heap σ))), _.
  split; [reflexivity|]. cbn [rooms heap].
  split; [apply rooms_get_put_eq|].
  split; [cbn [gameState withGameState];
          now rewrite list_lookup_alter_eq, alloc_lookup_new|].
  split; [reflexivity|].
  split; [destruct (gameInstance room); cbn; repeat constructor|].
  split; [destruct (gameInstance room); reflexivity|].
  repeat split.
Qed.

End ServerFacts.


(** ** What the handlers maintain *)

Section Invariant.
Import Server.

Lemma rooms_get_elem (rs : list (string * room)) k r :
  rooms_get rs k = Some r -> (k, r) ∈ rs.
Proof.
  induction rs as [|[k' r'] rs IH]; cbn [rooms_get]; [discriminate|].
  destruct (String.eqb k' k) eqn:E.
  - intros [= <-]. apply String_eqb_eq in E. subst. left.
  - intros H. right. auto.
Qed.

Lemma elem_rooms_get (rs : list (string * room)) k r :
  NoDup (keys rs) -> (k, r) ∈ rs -> rooms_get rs k = Some r.
Proof.
  induction rs as [|[k' r'] rs IH]; intros Hnd Hin.
  - inversion Hin.
  - unfold keys in Hnd. cbn in Hnd. apply NoDup_cons in Hnd as [Hnotin Hnd].
    apply elem_of_cons in Hin as [[= -> ->]|Hin]; cbn [rooms_get].
    + now rewrite String.eqb_refl.
    + destruct (String.eqb k' k) eqn:E; [|auto].
      apply String_eqb_eq in E. subst. exfalso. apply Hnotin.
      apply list_elem_of_fmap. exists (k, r). auto.
Qed.

Lemma rooms_get_None_keys (rs : list (string * room)) k :
  rooms_get rs k = None -> k ∉ keys rs.
Proof.
  induction rs as [|[k' r'] rs IH]; cbn [rooms_get]; intros H.
  - unfold keys. cbn. apply not_elem_of_nil.
  - destruct (String.eqb k' k) eqn:E; [discriminate|].
    unfold keys. cbn. apply not_elem_of_cons. split; [|now apply IH].
    intros ->. rewrite String.eqb_refl in E. discriminate.
Qed.

Lemma rooms_replace_split (rs : list (string * room)) k v old :
  rooms_get rs k = Some old ->
  exists l1 l2, rs = l1 ++ (k, old) :: l2 /\
                rooms_replace rs k v = l1 ++ (k, v) :: l2.
Proof.
  induction rs as [|[k' r'] rs IH]; cbn [rooms_get rooms_replace]; [discriminate|].
  destruct (String.eqb k' k) eqn:E.
  - intros [= ->]. apply String_eqb_eq in E. subst. exists [], rs. auto.
  - intros H. destruct (IH H) as (l1 & l2 & -> & ->).
    exists ((k', r') :: l1), l2. auto.
Qed.

Lemma rooms_insert_index_split (rs : list (string * room)) n k v :
  exists l1 l2, rs = l1 ++ l2 /\ rooms_insert_index rs n k v = l1 ++ (k, v) :: l2.
Proof.
  induction rs as [|[k' r'] rs IH]; cbn [rooms_insert_index].
  - exists [], []. auto.
  - destruct IH as (l1 & l2 & Hrs & Hins).
    destruct (arrayIndex k') as [n'|]; [destruct (n <? n')%N|].
    + exists [], ((k', r') :: rs). auto.
    + exists ((k', r') :: l1), l2. rewrite Hins. split; [|reflexivity].
      cbn. now rewrite <- Hrs.
    + exists [], ((k', r') :: rs). auto.
Qed.

Lemma rooms_put_split (rs : list (string * room)) k v :
  exists l1 l2,
    rooms_put rs k v = l1 ++ (k, v) :: l2 /\
    ((exists old, rooms_get rs k = Some old /\ rs = l1 ++ (k, old) :: l2) \/
     (rooms_get rs k = None /\ rs = l1 ++ l2)).
Proof.
  unfold rooms_put. destruct (rooms_get rs k) as [old|] eqn:E.
  - destruct (rooms_replace_split rs k v old E) as (l1 & l2 & Hrs & Hrep).
    exists l1, l2. split; [assumption|]. left. eauto.
  - destruct (arrayIndex k) as [n|].
    + destruct (rooms_insert_index_split rs n k v) as (l1 & l2 & Hrs & Hins).
      exists l1, l2. auto.
    + exists rs, []. rewrite app_nil_r. auto.
Qed.

Lemma NoDup_middle {A} (l1 l2 : list A) b :
  NoDup (l1 ++ l2) -> b ∉ l1 -> b ∉ l2 -> NoDup (l1 ++ b :: l2).
Proof.
  intros Hnd H1 H2. rewrite <- Permutation_middle. apply NoDup_cons.
  split; [|assumption]. rewrite not_elem_of_app. auto.
Qed.

Lemma NoDup_middle_inv {A} (l1 l2 : list A) a :
  NoDup (l1 ++ a :: l2) -> NoDup (l1 ++ l2) /\ (a ∉ l1) /\ (a ∉ l2).
Proof.
  rewrite <- Permutation_middle, NoDup_cons, not_elem_of_app. tauto.
Qed.

Lemma inv_put σ k v (h' : list gstate) :
  inv σ ->
  (length (heap σ) <= length h')%nat ->
  (gameState v < length h')%nat ->
  ((length (heap σ) <= gameState v)%nat \/
   exists old, rooms_get (rooms σ) k = Some old /\ gameState old = gameState v) ->
  inv {| rooms := rooms_put (rooms σ) k v; heap := h' |}.
Proof.
  intros [Hk Hl Hb] Hlen Hv Hfresh.
  destruct (rooms_put_split (rooms σ) k v) as (l1 & l2 & Hput & Hcase).
  assert (Hbound : forall rs : list (string * room),
             Forall (fun l => (l < length (heap σ))%nat) (locs rs) ->
             Forall (fun l => (l < length h')%nat) (locs rs)).
  { intros rs Hall. eapply Forall_impl; [exact Hall|]. intros; simpl in *; lia. }
  assert (Hnotin : forall rs : list (string * room),
             Forall (fun l => (l < length (heap σ))%nat) (locs rs) ->
             (length (heap σ) <= gameState v)%nat -> gameState v ∉ locs rs).
  { intros rs Hall Hge Hin. rewrite Forall_forall in Hall.
    specialize (Hall _ Hin). lia. }
  constructor; cbn [rooms heap]; rewrite Hput; unfold keys, locs in *;
    rewrite fmap_app in *; cbn [fmap list_fmap fst snd] in *.
  - destruct Hcase as [(old & _ & Hrs) | (Hnone & Hrs)]; rewrite Hrs in Hk;
      rewrite fmap_app in Hk; cbn [fmap list_fmap fst] in Hk; [assumption|].
    apply rooms_get_None_keys in Hnone. unfold keys in Hnone.
    rewrite Hrs, fmap_app, not_elem_of_app in Hnone.
    apply NoDup_middle; tauto.
  - destruct Hcase as [(old & Hold & Hrs) | (Hnone & Hrs)]; rewrite Hrs in Hl, Hb;
      rewrite fmap_app in Hl, Hb; cbn [fmap list_fmap snd] in Hl, Hb.
    + apply NoDup_middle_inv in Hl as (Hnd & H1 & H2).
      apply Forall_app in Hb as [Hb1 Hb2]. apply Forall_cons in Hb2 as [_ Hb2].
      destruct Hfresh as [Hge | (old' & Hold' & Heq)].
      * apply NoDup_middle; [assumption| |]; now apply (Hnotin _).
      * assert (old' = old) by congruence. subst old'. rewrite <- Heq.
        apply NoDup_middle; assumption.
    + destruct Hfresh as [Hge | (old' & Hold' & _)]; [|congruence].
      apply Forall_app in Hb as [Hb1 Hb2].
      apply NoDup_middle; [assumption| |]; now apply (Hnotin _).
  - destruct Hcase as [(old & Hold & Hrs) | (Hnone & Hrs)]; rewrite Hrs in Hb;
      rewrite fmap_app in Hb; cbn [fmap list_fmap snd] in Hb;
      apply Forall_app in Hb as [Hb1 Hb2].
    + apply Forall_cons in Hb2 as [_ Hb2].
      apply Forall_app. split; [now apply (Hbound _)|].
      apply Forall_cons. split; [assumption | now apply (Hbound _)].
    + apply Forall_app. split; [now apply (Hbound _)|].
      apply Forall_cons. split; [assumption | now apply (Hbound _)].
Qed.

Lemma findIndex_find {A} (f : A -> bool) (l : list A) :
  findIndex f l = None <-> find f l = None.
Proof.
  induction l as [|x l IH]; cbn [findIndex find]; [tauto|].
  destruct (f x); [split; discriminate|].
  destruct (findIndex f l); [|tauto].
  split; [discriminate|]. intros H. apply IH in H. discriminate.
Qed.

(** The disconnect loop keeps keys and references of the rooms it leaves in
    the table, writes only the status of a room the socket was seated in,
    and keeps every room the socket was not seated in. *)
Lemma disconnectLoop_spec sid (rs : list (string * room)) :
  forall (h : list gstate) rs' h' out,
  disconnectLoop sid rs h = Some (rs', h', out) ->
  sublist (keyloc <$> rs') (keyloc <$> rs) /\
  length h' = length h /\
  (forall l, l ∉ locs rs -> h' !! l = h !! l) /\
  (forall l, h' !! l = h !! l \/ h' !! l = setStatus waiting <$> h !! l) /\
  (forall k r, (k, r) ∈ rs -> findIndex (isSocket sid) (players r) = None ->
     exists r', (k, r') ∈ rs' /\ gameState r' = gameState r /\
                players r' = players r /\
                gameInstance r' = gameInstance r) /\
  (NoDup (locs rs) ->
   forall k r, (k, r) ∈ rs -> findIndex (isSocket sid) (players r) = None ->
     h' !! gameState r = h !! gameState r).
Proof.
  induction rs as [|[roomId room] rest IH]; intros h rs' h' out; cbn [disconnectLoop].
  - intros [= <- <- <-]. split; [constructor|]. split; [reflexivity|].
    split; [auto|]. split; [auto|]. split; intros; exfalso; eapply not_elem_of_nil; eauto.
  - destruct (findIndex (isSocket sid) (players room)) as [i|] eqn:Hfind.
    + destruct (players room !! i) as [dp|]; [|discriminate].
      assert (Hrest : forall k r, (k, r) ∈ (roomId, room) :: rest ->
                findIndex (isSocket sid) (players r) = None -> (k, r) ∈ rest).
      { intros k r Hin Hnone. apply elem_of_cons in Hin as [[= -> ->]|Hin];
          [congruence | assumption]. }
      destruct (length (players (withPlayers room (delete i (players room)))) =? 0)%nat.
      * intros [= <- <- <-].
        split; [apply sublist_cons; reflexivity|]. split; [reflexivity|].
        split; [auto|]. split; [auto|]. split.
        -- intros k r Hin Hnone. exists r. auto.
        -- auto.
      * destruct (alter (setStatus waiting) (gameState room) h !! gameState room)
          as [s|]; [|discriminate].
        intros [= <- <- <-].
        split; [apply sublist_skip; reflexivity|].
        split; [apply length_alter|]. split.
        { intros l Hl. apply list_lookup_alter_ne. intros <-. apply Hl. left. }
        split.
        { intros l. destruct (decide (gameState room = l)) as [<-|Hne].
          - right. apply list_lookup_alter_eq.
          - left. now apply list_lookup_alter_ne. }
        split.
        -- intros k r Hin Hnone. exists r. split; [right; auto | auto].
        -- intros Hnd k r Hin Hnone. apply list_lookup_alter_ne.
           unfold locs in Hnd. cbn in Hnd. apply NoDup_cons in Hnd as [Hnotin _].
           intros E. apply Hnotin. rewrite E.
           apply list_elem_of_fmap. exists (k, r). split; [reflexivity|]. auto.
    + assert (Hstep : forall room',
                gameState room' = gameState room ->
                players room' = players room ->
                gameInstance room' = gameInstance room ->
                forall rs0 h0 out0,
                disconnectLoop sid rest h = Some (rs0, h0, out0) ->
                rs' = (roomId, room') :: rs0 -> h' = h0 ->
                sublist (keyloc <$> rs') (keyloc <$> (roomId, room) :: rest) /\
                length h' = length h /\
                (forall l, l ∉ locs ((roomId, room) :: rest) -> h' !! l = h !! l) /\
                (forall l, h' !! l = h !! l \/ h' !! l = setStatus waiting <$> h !! l) /\
                (forall k r, (k, r) ∈ (roomId, room) :: rest ->
                   findIndex (isSocket sid) (players r) = None ->
                   exists r', (k, r') ∈ rs' /\ gameState r' = gameState r /\
                              players r' = players r /\
                              gameInstance r' = gameInstance r) /\
                (NoDup (locs ((roomId, room) :: rest)) ->
                 forall k r, (k, r) ∈ (roomId, room) :: rest ->
                   findIndex (isSocket sid) (players r) = None ->
                   h' !! gameState r = h !! gameState r)).
      { intros room' Hgs Hps Hgi rs0 h0 out0 Hloop -> ->.
        destruct (IH h rs0 h0 out0 Hloop) as (Hsub & Hlen & Hframe & Hany & Hkeep & Hsame).
        split.
        { cbn [fmap list_fmap]. unfold keyloc at 1 3. cbn [fst snd]. rewrite Hgs.
          now apply sublist_skip. }
        split; [assumption|]. split.
        { intros l Hl. apply Hframe. intros Hin. apply Hl. now right. }
        split; [assumption|]. split.
        - intros k r Hin Hnone. apply elem_of_cons in Hin as [[= -> ->]|Hin].
          + exists room'. split; [left | auto].
          + destruct (Hkeep k r Hin Hnone) as (r' & Hr' & Hrest).
            exists r'. split; [now right | assumption].
        - intros Hnd k r Hin Hnone.
          unfold locs in Hnd. cbn in Hnd. apply NoDup_cons in Hnd as [Hnotin Hnd].
          apply elem_of_cons in Hin as [[= -> ->]|Hin].
          + apply Hframe. exact Hnotin.
          + now apply (Hsame Hnd k r). }
      destruct (findIndex (isSpectatorSocket sid) (spectators room)) as [j|].
      * destruct (spectators room !! j) as [ds|]; [|discriminate].
        destruct (disconnectLoop sid rest h) as [[[rs0 h0] out0]|] eqn:Hloop;
          [|discriminate].
        intros [= <- <- <-].
        eapply (Hstep (withSpectators room (delete j (spectators room))));
          reflexivity.
      * destruct (disconnectLoop sid rest h) as [[[rs0 h0] out0]|] eqn:Hloop;
          [|discriminate].
        intros [= <- <- <-]. eapply (Hstep room); reflexivity.
Qed.

Lemma handle_inv σ sid ev σ' out :
  inv σ -> handle σ sid ev = Some (σ', out) -> inv σ'.
Proof.
  intros Hinv. pose proof Hinv as [Hk Hl Hb].
  assert (Hroom : forall k r, rooms_get (rooms σ) k = Some r ->
                    (gameState r < length (heap σ))%nat).
  { intros k r Hr. apply rooms_get_elem in Hr.
    rewrite Forall_forall in Hb. apply Hb.
    apply list_elem_of_fmap. exists (k, r). auto. }
  destruct ev as [username gt uuid | roomId username | roomId mv | roomId |];
    cbn [handle].
  - unfold onCreateRoom. destruct (gameTypes _) as [g|]; [|now intros [= <- <-]].
    cbn [alloc]. rewrite alloc_lookup_new. cbn [mbind option_bind].
    intros [= <- <-]. apply inv_put; cbn [gameState]; try assumption;
      rewrite ?length_app; cbn [length]; lia.
  - unfold onJoinRoom.
    destruct (rooms_get (rooms σ) roomId) as [room|] eqn:Hr; [|now intros [= <- <-]].
    specialize (Hroom _ _ Hr).
    destruct (getMaxPlayers _ <=? _).
    + destruct (heap σ !! gameState room); cbn [mbind option_bind]; [|discriminate].
      intros [= <- <-]. apply inv_put; cbn [gameState withSpectators]; try assumption;
        try lia. right. eauto.
    + match goal with |- context [if ?c then alter _ _ _ else _] => destruct c end;
        (match goal with |- context [?h !! gameState room] =>
           destruct (h !! gameState room) end; cbn [mbind option_bind];
         [|discriminate]);
        intros [= <- <-]; apply inv_put; cbn [gameState withPlayers];
        rewrite ?length_alter; try assumption; try lia; right; eauto.
  - unfold onMakeMove.
    destruct (rooms_get (rooms σ) roomId) as [room|] eqn:Hr; [|now intros [= <- <-]].
    destruct (find _ _) as [player|]; [|now intros [= <- <-]].
    specialize (Hroom _ _ Hr).
    destruct (lookup_lt_is_Some_2 (heap σ) (gameState room) Hroom) as [s Hs].
    pose proof (callMakeMove_cases (gameInstance room) (heap σ)
                  (gameState room) (p_index player) mv s Hs) as Hcases.
    destruct (makeMove _ s _ mv) as [[|s']|].
    + rewrite Hcases. cbn [mbind option_bind]. rewrite Nat.eqb_refl. cbn [negb].
      intros [= <- <-]. destruct σ; assumption.
    + destruct Hcases as [-> Hne]. cbn [mbind option_bind].
      destruct (Nat.eqb_spec (length (heap σ)) (gameState room)); [lia|].
      cbn [negb]. rewrite alloc_lookup_new. cbn [mbind option_bind].
      intros [= <- <-]. apply inv_put; cbn [gameState withGameState];
        rewrite ?length_app; cbn [length]; try assumption; lia.
    + rewrite Hcases. discriminate.
  - unfold onResetGame.
    destruct (rooms_get (rooms σ) roomId) as [room|] eqn:Hr; [|now intros [= <- <-]].
    cbn [alloc]. rewrite list_lookup_alter_eq, alloc_lookup_new.
    cbn [fmap option_fmap option_map mbind option_bind].
    intros [= <- <-]. apply inv_put; cbn [gameState withGameState];
      rewrite ?length_alter, ?length_app; cbn [length]; try assumption; lia.
  - unfold onDisconnect.
    destruct (disconnectLoop sid (rooms σ) (heap σ)) as [[[rs h] o]|] eqn:Hloop;
      cbn [mbind option_bind]; [|discriminate].
    intros [= <- <-].
    destruct (disconnectLoop_spec sid _ _ _ _ _ Hloop) as (Hsub & Hlen & _).
    assert (Hks : sublist (keys rs) (keys (rooms σ))).
    { unfold keys. 
      replace (fst <$> rs) with (fst <$> (keyloc <$> rs))
        by (rewrite <- list_fmap_compose; reflexivity).
      replace (fst <$> rooms σ) with (fst <$> (keyloc <$> rooms σ))
        by (rewrite <- list_fmap_compose; reflexivity).
      now apply fmap_sublist. }
    assert (Hls : sublist (locs rs) (locs (rooms σ))).
    { unfold locs.
      replace ((fun e => gameState (snd e)) <$> rs) with (snd <$> (keyloc <$> rs))
        by (rewrite <- list_fmap_compose; reflexivity).
      replace ((fun e => gameState (snd e)) <$> rooms σ)
        with (snd <$> (keyloc <$> rooms σ))
        by (rewrite <- list_fmap_compose; reflexivity).
      now apply fmap_sublist. }
    constructor; cbn [rooms heap].
    + eapply sublist_NoDup; eauto.
    + eapply sublist_NoDup; eauto.
    + rewrite Hlen. rewrite Forall_forall in Hb |- *. intros l Hin.
      apply Hb. eapply sublist_subseteq; eauto.
Qed.

Lemma inv_empty : inv empty.
Proof. constructor; cbn; constructor. Qed.

Lemma reachable_inv σ : reachable σ -> inv σ.
Proof.
  induction 1 as [|σ sid ev σ' out _ IH Hstep]; [apply inv_empty|].
  eapply handle_inv; eauto.
Qed.

Lemma run_reachable evs : forall σ σ',
  reachable σ -> run σ evs = Some σ' -> reachable σ'.
Proof.
  induction evs as [|[sid ev] evs IH]; intros σ σ' Hr; cbn [run].
  - now intros [= <-].
  - destruct (handle σ sid ev) as [[σ1 out]|] eqn:Hstep; [|discriminate].
    apply IH. eapply reachable_step; eauto.
Qed.

Lemma distinct_rooms_distinct_states σ k1 k2 r1 r2 :
  inv σ ->
  rooms_get (rooms σ) k1 = Some r1 -> rooms_get (rooms σ) k2 = Some r2 ->
  k1 <> k2 -> gameState r1 <> gameState r2.
Proof.
  intros [_ Hl _] H1 H2 Hne Heq.
  apply rooms_get_elem, list_elem_of_lookup_1 in H1 as [i Hi].
  apply rooms_get_elem, list_elem_of_lookup_1 in H2 as [j Hj].
  assert (Li : locs (rooms σ) !! i = Some (gameState r1))
    by (unfold locs; rewrite list_lookup_fmap, Hi; reflexivity).
  assert (Lj : locs (rooms σ) !! j = Some (gameState r1))
    by (unfold locs; rewrite list_lookup_fmap, Hj, Heq; reflexivity).
  pose proof (NoDup_lookup _ _ _ _ Hl Li Lj) as ->. congruence.
Qed.

Lemma room_state_allocated σ k r :
  inv σ -> rooms_get (rooms σ) k = Some r ->
  exists s, heap σ !! gameState r = Some s.
Proof.
  intros [_ _ Hb] Hr. apply lookup_lt_is_Some_2.
  rewrite Forall_forall in Hb. apply Hb.
  apply list_elem_of_fmap. exists (k, r).
  split; [reflexivity | now apply rooms_get_elem].
Qed.

(** What one handler step can do to the game state of a room: drop the
    room (a disconnect of its last player), leave the state as it is, or
    one of five changes, each tied to the event that causes it. *)
Lemma handle_effect σ sid ev σ' out roomId room s :
  inv σ -> handle σ sid ev = Some (σ', out) ->
  rooms_get (rooms σ) roomId = Some room ->
  heap σ !! gameState room = Some s ->
  (rooms_get (rooms σ') roomId = None /\ ev = disconnect /\
   find (isSocket sid) (players room) <> None)
  \/
  exists room' s',
    rooms_get (rooms σ') roomId = Some room' /\
    heap σ' !! gameState room' = Some s' /\
    ((gameState room' = gameState room /\ s' = s) \/
     (exists mv player,
        ev = makeMoveEv roomId mv /\
        find (isSocket sid) (players room) = Some player /\
        makeMove (gameInstance room) s (p_index player) mv
          = Some (NewObject s')) \/
     (exists u gt uuid,
        ev = createRoom u gt uuid /\ substring 0 6 uuid = roomId /\
        s' = init (gameInstance room')) \/
     (ev = resetGame roomId /\
      s' = setStatus playing (init (gameInstance room))) \/
     (exists u, ev = joinRoom roomId u /\ s' = setStatus playing s) \/
     (ev = disconnect /\ find (isSocket sid) (players room) <> None /\
      s' = setStatus waiting s)).
Proof.
  intros Hinv Hstep Hroom Hs.
  pose proof (handle_inv _ _ _ _ _ Hinv Hstep) as Hinv'.
  assert (Hsame : σ' = σ ->
    exists room' s',
      rooms_get (rooms σ') roomId = Some room' /\
      heap σ' !! gameState room' = Some s' /\
      ((gameState room' = gameState room /\ s' = s) \/
       (exists mv player,
          ev = makeMoveEv roomId mv /\
          find (isSocket sid) (players room) = Some player /\
          makeMove (gameInstance room) s (p_index player) mv
            = Some (NewObject s')) \/
       (exists u gt uuid,
          ev = createRoom u gt uuid /\ substring 0 6 uuid = roomId /\
          s' = init (gameInstance room')) \/
       (ev = resetGame roomId /\
        s' = setStatus playing (init (gameInstance room))) \/
       (exists u, ev = joinRoom roomId u /\ s' = setStatus playing s) \/
       (ev = disconnect /\ find (isSocket sid) (players room) <> None /\
        s' = setStatus waiting s))).
  { intros ->. exists room, s. auto. }
  destruct ev as [username gt uuid | rid username | rid mv | rid |];
    cbn [handle] in Hstep.
  - (* createRoom *)
    right. unfold onCreateRoom in Hstep.
    destruct (gameTypes _) as [g|];
      [|injection Hstep as <- <-; now apply Hsame].
    cbn [alloc] in Hstep. rewrite alloc_lookup_new in Hstep.
    cbn [mbind option_bind] in Hstep. injection Hstep as <- <-. cbn [rooms heap].
    destruct (decide (substring 0 6 uuid = roomId)) as [E|E].
    + rewrite E, rooms_get_put_eq. eexists _, _. split; [reflexivity|].
      cbn [gameState]. split; [apply alloc_lookup_new|].
      right. right. left. exists username, gt, uuid. auto.
    + rewrite rooms_get_put_ne by congruence. exists room, s.
      split; [assumption|]. split; [now apply alloc_lookup_old | auto].
  - (* joinRoom *)
    right. unfold onJoinRoom in Hstep.
    destruct (rooms_get (rooms σ) rid) as [r0|] eqn:Hr0;
      [|injection Hstep as <- <-; now apply Hsame].
    destruct (getMaxPlayers _ <=? _).
    + destruct (heap σ !! gameState r0); cbn [mbind option_bind] in Hstep;
        [|discriminate].
      injection Hstep as <- <-. cbn [rooms heap].
      destruct (decide (rid = roomId)) as [->|E].
      * rewrite rooms_get_put_eq. assert (r0 = room) by congruence. subst r0.
        eexists _, s. split; [reflexivity|]. cbn [gameState withSpectators]. auto.
      * rewrite rooms_get_put_ne by congruence. exists room, s. auto.
    + match type of Hstep with context [if ?c then alter _ _ _ else _] =>
        destruct c end.
      * destruct (alter (setStatus playing) (gameState r0) (heap σ) !! gameState r0);
          cbn [mbind option_bind] in Hstep; [|discriminate].
        injection Hstep as <- <-. cbn [rooms heap].
        destruct (decide (rid = roomId)) as [->|E].
        -- rewrite rooms_get_put_eq. assert (r0 = room) by congruence. subst r0.
           eexists _, _. split; [reflexivity|]. cbn [gameState withPlayers].
           split; [rewrite list_lookup_alter_eq, Hs; reflexivity|].
           do 4 right. left. eauto.
        -- rewrite rooms_get_put_ne by congruence. exists room, s.
           split; [assumption|]. split; [|auto].
           rewrite list_lookup_alter_ne; [assumption|].
           apply (distinct_rooms_distinct_states σ rid roomId r0 room); assumption.
      * destruct (heap σ !! gameState r0); cbn [mbind option_bind] in Hstep;
          [|discriminate].
        injection Hstep as <- <-. cbn [rooms heap].
        destruct (decide (rid = roomId)) as [->|E].
        -- rewrite rooms_get_put_eq. assert (r0 = room) by congruence. subst r0.
           eexists _, s. split; [reflexivity|]. cbn [gameState withPlayers]. auto.
        -- rewrite rooms_get_put_ne by congruence. exists room, s. auto.
  - (* makeMove *)
    right. unfold onMakeMove in Hstep.
    destruct (rooms_get (rooms σ) rid) as [r0|] eqn:Hr0;
      [|injection Hstep as <- <-; now apply Hsame].
    destruct (find (isSocket sid) (players r0)) as [player|] eqn:Hp;
      [|injection Hstep as <- <-; now apply Hsame].
    destruct (room_state_allocated σ rid r0 Hinv Hr0) as [s0 Hs0].
    pose proof (callMakeMove_cases (gameInstance r0) (heap σ)
                  (gameState r0) (p_index player) mv s0 Hs0) as Hcases.
    destruct (makeMove (gameInstance r0) s0 (p_index player) mv)
      as [[|s0']|] eqn:Hmm.
    + rewrite Hcases in Hstep. cbn [mbind option_bind] in Hstep.
      rewrite Nat.eqb_refl in Hstep. cbn [negb] in Hstep.
      injection Hstep as <- <-. apply Hsame. now destruct σ.
    + destruct Hcases as [Hcall Hne]. rewrite Hcall in Hstep.
      cbn [mbind option_bind] in Hstep.
      destruct (Nat.eqb_spec (length (heap σ)) (gameState r0)); [lia|].
      cbn [negb] in Hstep. rewrite alloc_lookup_new in Hstep.
      cbn [mbind option_bind] in Hstep. injection Hstep as <- <-. cbn [rooms heap].
      destruct (decide (rid = roomId)) as [->|E].
      * rewrite rooms_get_put_eq. assert (r0 = room) by congruence. subst r0.
        assert (s0 = s) by congruence. subst s0.
        eexists _, _. split; [reflexivity|]. cbn [gameState withGameState].
        split; [apply alloc_lookup_new|]. right. left. eauto.
      * rewrite rooms_get_put_ne by congruence. exists room, s.
        split; [assumption|]. split; [now apply alloc_lookup_old | auto].
    + rewrite Hcases in Hstep. discriminate.
  - (* resetGame *)
    right. unfold onResetGame in Hstep.
    destruct (rooms_get (rooms σ) rid) as [r0|] eqn:Hr0;
      [|injection Hstep as <- <-; now apply Hsame].
    cbn [alloc] in Hstep. rewrite list_lookup_alter_eq, alloc_lookup_new in Hstep.
    cbn [fmap option_fmap option_map mbind option_bind] in Hstep.
    injection Hstep as <- <-. cbn [rooms heap].
    destruct (decide (rid = roomId)) as [->|E].
    + rewrite rooms_get_put_eq. assert (r0 = room) by congruence. subst r0.
      eexists _, _. split; [reflexivity|]. cbn [gameState withGameState].
      split; [rewrite list_lookup_alter_eq, alloc_lookup_new; reflexivity|].
      do 3 right. left. auto.
    + rewrite rooms_get_put_ne by congruence. exists room, s.
      split; [assumption|]. split; [|auto].
      pose proof (lookup_lt_Some _ _ _ Hs).
      rewrite list_lookup_alter_ne by lia. now apply alloc_lookup_old.
  - (* disconnect *)
    unfold onDisconnect in Hstep.
    destruct (disconnectLoop sid (rooms σ) (heap σ)) as [[[rs h] o]|] eqn:Hloop;
      cbn [mbind option_bind] in Hstep; [|discriminate].
    injection Hstep as <- <-. cbn [rooms heap] in *.
    destruct (disconnectLoop_spec sid _ _ _ _ _ Hloop)
      as (Hsub & Hlen & _ & Hany & Hkeep & Hframe).
    destruct Hinv as [Hk Hl _]. destruct Hinv' as [Hk' _ _]. cbn [rooms] in Hk'.
    pose proof (rooms_get_elem _ _ _ Hroom) as Hin.
    destruct (find (isSocket sid) (players room)) as [pl|] eqn:Hfind.
    + destruct (rooms_get rs roomId) as [room'|] eqn:Hr'.
      * right. pose proof (rooms_get_elem _ _ _ Hr') as Hin'.
        assert (Hgs : gameState room' = gameState room).
        { assert (Hkl : keyloc (roomId, room') ∈ keyloc <$> rooms σ).
          { eapply sublist_subseteq; [exact Hsub|].
            apply list_elem_of_fmap. eauto. }
          apply list_elem_of_fmap in Hkl as ([k0 r0] & Hkl & Hin0).
          unfold keyloc in Hkl. cbn [fst snd] in Hkl. injection Hkl as <- Hgs.
          rewrite (elem_rooms_get _ _ _ Hk Hin0) in Hroom. congruence. }
        destruct (Hany (gameState room)) as [E|E]; rewrite Hs in E.
        -- exists room', s. rewrite Hgs. auto.
        -- exists room', (setStatus waiting s). rewrite Hgs.
           split; [reflexivity|]. split; [assumption|].
           do 5 right. split; [reflexivity|]. split; [congruence | reflexivity].
      * left. split; [reflexivity|]. split; [reflexivity | congruence].
    + right. apply findIndex_find in Hfind.
      destruct (Hkeep roomId room Hin Hfind) as (room' & Hin' & Hgs & _).
      exists room', s. split; [now apply elem_rooms_get|].
      rewrite Hgs. split; [|auto].
      rewrite (Hframe Hl roomId room Hin Hfind). assumption.
Qed.

End Invariant.

(** ** Who writes the game state *)

Section Coordinator.
Import Server.

Lemma demoServer_run : run empty demoEvents = Some demoServer.
Proof. vm_compute. reflexivity. Qed.

(** The tic-tac-toe session of the specification: Alice 4, Bob 0, Alice 3,
    Bob 1, Alice 5 gives Alice the middle row. *)
Example session_middle_row :
  exists σ,
    run demoServer
      [ ("b", makeMoveEv "abc123" (cellMove 0));
        ("a", makeMoveEv "abc123" (cellMove 3));
        ("b", makeMoveEv "abc123" (cellMove 1));
        ("a", makeMoveEv "abc123" (cellMove 5)) ]%string = Some σ /\
    stateOf σ "abc123" =
      Some (TState
        {| TicTacToe.board :=
             [JNum 1; JNum 1; JNull; JNum 0; JNum 0; JNum 0; JNull; JNull; JNull];
           TicTacToe.currentPlayer := 0;
           TicTacToe.winner := JNum 0;
           TicTacToe.status := won;
           TicTacToe.winningPattern := Some [3; 4; 5] |}).
Proof. eexists. split; vm_compute; reflexivity. Qed.

(** A move out of turn and a move on an occupied cell leave the server as it
    is and emit nothing. *)
Example session_ignored_moves :
  handle demoServer "a" (makeMoveEv "abc123" (cellMove 0)) = Some (demoServer, []) /\
  handle demoServer "b" (makeMoveEv "abc123" (cellMove 4)) = Some (demoServer, []).
Proof. split; vm_compute; reflexivity. Qed.

Lemma demoServer_reachable : reachable demoServer.
Proof. exact (run_reachable demoEvents empty demoServer reachable_empty demoServer_run). Qed.

(** C8, as the code has it. After a handler step, the game state of a room
    that is still in the table is the one it was, or the new object built
    by the engine's [makeMove], or a new [init()] object (a room created
    under the same identifier), or differs from the old state or from a new
    [init()] object in the status field alone, which the coordinator writes
    itself: [playing] after [init()] on reset, [playing] on a join that
    fills the second seat, [waiting] on the disconnect of a player. Board,
    turn, winner and highlight come from [makeMove] and [init] only. *)
Theorem coordinator_writes_status_only
        σ sid ev σ' out roomId room room' s s' :
  reachable σ ->
  handle σ sid ev = Some (σ', out) ->
  rooms_get (rooms σ) roomId = Some room ->
  heap σ !! gameState room = Some s ->
  rooms_get (rooms σ') roomId = Some room' ->
  heap σ' !! gameState room' = Some s' ->
  s' = s \/
  (exists p mv,
     ev = makeMoveEv roomId mv /\
     makeMove (gameInstance room) s p mv = Some (NewObject s')) \/
  ((exists u gt uuid, ev = createRoom u gt uuid) /\
   s' = init (gameInstance room')) \/
  (ev = resetGame roomId /\
   s' = setStatus playing (init (gameInstance room))) \/
  ((exists u, ev = joinRoom roomId u) /\ s' = setStatus playing s) \/
  (ev = disconnect /\ s' = setStatus waiting s).
Proof.
  intros Hreach Hstep Hroom Hs Hroom' Hs'.
  destruct (handle_effect σ sid ev σ' out roomId room s
              (reachable_inv σ Hreach) Hstep Hroom Hs)
    as [(Hnone & _) | (r1 & s1 & Hr1 & Hs1 & Hcase)]; [congruence|].
  assert (r1 = room') by congruence. subst r1.
  assert (s1 = s') by congruence. subst s1.
  destruct Hcase as [[_ ->] | [(mv & pl & -> & _ & Hmm) | [(u & gt & uuid & -> & _ & ->)
    | [[-> ->] | [(u & -> & ->) | (-> & _ & ->)]]]]]; eauto 10.
Qed.

(** C8 as stated fails: when Bob takes the second seat of Alice's room, the
    join handler sets the status of the stored state to [playing]; the
    stored state is then not the one it was, not a result of [makeMove] on
    it, and not a result of [init]. *)
Lemma join_writes_status_counterexample :
  exists σ σ' out room room' s s',
    run empty [("a"%string, createRoom "Alice" None "abc123de-4f5a")] = Some σ /\
    handle σ "b" (joinRoom "abc123" "Bob") = Some (σ', out) /\
    rooms_get (rooms σ) "abc123" = Some room /\
    heap σ !! gameState room = Some s /\
    rooms_get (rooms σ') "abc123" = Some room' /\
    heap σ' !! gameState room' = Some s' /\
    s' <> s /\
    (forall g p mv r, makeMove g s p mv = Some r -> returned_state s r <> s') /\
    (forall g, s' <> init g).
Proof.
  do 7 eexists.
  split; [vm_compute; reflexivity|]. split; [vm_compute; reflexivity|].
  split; [vm_compute; reflexivity|]. split; [vm_compute; reflexivity|].
  split; [vm_compute; reflexivity|]. split; [vm_compute; reflexivity|].
  split; [discriminate|]. split.
  - intros g p mv r. destruct g; cbn [makeMove]; [|discriminate].
    unfold TicTacToe.makeMove, TicTacToe.isValidMove.
    cbn [TicTacToe.currentPlayer TicTacToe.status Status_eqb negb].
    destruct (negb (0 =? p)); cbn [negb]; intros [= <-]; discriminate.
  - intros []; discriminate.
Qed.

(** C9, as the code has it. A connection that is a spectator of a room and
    not one of its players cannot change the room's game state by a move,
    by disconnecting, or by any event aimed at another room: after the
    handler the room refers to the same object, with the same contents. *)
Theorem spectator_event_keeps_state σ sid ev σ' out roomId room :
  reachable σ ->
  rooms_get (rooms σ) roomId = Some room ->
  (exists sp, sp ∈ spectators room /\ s_id sp = sid) ->
  find (isSocket sid) (players room) = None ->
  leavesGameAlone roomId ev ->
  handle σ sid ev = Some (σ', out) ->
  exists room' s,
    rooms_get (rooms σ') roomId = Some room' /\
    gameState room' = gameState room /\
    heap σ !! gameState room = Some s /\
    heap σ' !! gameState room' = Some s.
Proof.
  intros Hreach Hroom _ Hseat Hev Hstep.
  pose proof (reachable_inv σ Hreach) as Hinv.
  destruct (room_state_allocated σ roomId room Hinv Hroom) as [s Hs].
  destruct (handle_effect σ sid ev σ' out roomId room s Hinv Hstep Hroom Hs)
    as [(_ & _ & Hp) | (room' & s' & Hr' & Hs' & Hcase)]; [congruence|].
  exists room', s.
  destruct Hcase as [[Hgs ->] | [(mv & pl & -> & Hp & _)
    | [(u & gt & uuid & -> & Hid & _) | [[-> _] | [(u & -> & _) | (_ & Hp & _)]]]]];
    cbn [leavesGameAlone] in Hev; try congruence.
  auto.
Qed.

(** C9 as stated fails: Carol, a spectator of the room, sends a reset, and
    the room's game state is replaced by a fresh one. *)
Lemma spectator_reset_counterexample :
  exists room s σ' out room' s',
    rooms_get (rooms demoServer) "abc123" = Some room /\
    (exists sp, sp ∈ spectators room /\ s_id sp = "c"%string) /\
    find (isSocket "c") (players room) = None /\
    heap demoServer !! gameState room = Some s /\
    handle demoServer "c" (resetGame "abc123") = Some (σ', out) /\
    rooms_get (rooms σ') "abc123" = Some room' /\
    heap σ' !! gameState room' = Some s' /\
    s' <> s.
Proof.
  do 6 eexists.
  split; [vm_compute; reflexivity|]. split.
  { eexists. split; [left | reflexivity]. }
  split; [vm_compute; reflexivity|]. split; [vm_compute; reflexivity|].
  split; [vm_compute; reflexivity|]. split; [vm_compute; reflexivity|].
  split; [vm_compute; reflexivity|]. discriminate.
Qed.

End Coordinator.

(** ** The statements at concrete inputs *)

Section Witnesses.
Import Server.

Lemma wf_demoWon : TicTacToe.wf demoWon.
Proof. split; [reflexivity | repeat constructor; discriminate]. Qed.

Lemma wf_demoOpening : TicTacToe.wf demoOpening.
Proof. split; [reflexivity | repeat constructor; discriminate]. Qed.

Lemma wf_demoThree : Connect4.wf demoThree.
Proof.
  split; [reflexivity|].
  repeat (constructor; [split; [reflexivity|repeat constructor; discriminate]|]).
  constructor.
Qed.

Lemma checkGameOver_win_through_last_piece_witness :
  Connect4.wf demoThree /\
  Connect4.isValidMove demoThree 0 (columnMove 3) = Some true /\
  exists s',
    Connect4.makeMove demoThree 0 (columnMove 3) = Some (NewObject s') /\
    Connect4.status s' = won /\
    Connect4.winner s' = JNum 0 /\
    winsAt (Connect4.board s') 0 3 5.
Proof.
  split; [exact wf_demoThree|]. split; [reflexivity|].
  destruct (checkGameOver_win_through_last_piece demoThree 0 (columnMove 3)
              wf_demoThree eq_refl)
    as (c & r & ngs & over & s' & Hc & Hdrop & _ & _ & _ & _ & Hmm & Hb & Hst & Hw).
  injection Hc as <-.
  assert (Hr : r = 5).
  { vm_compute in Hdrop. injection Hdrop as Hr _. now rewrite Hr. }
  subst r.
  assert (Hwon : Connect4.status s' = won).
  { vm_compute in Hmm. injection Hmm as <-. reflexivity. }
  exists s'. split; [exact Hmm|]. split; [exact Hwon|].
  split; [exact (Hw Hwon) | exact (proj1 Hst Hwon)].
Defined.

Lemma checkGameOver_win_exact_witness :
  TicTacToe.wf demoWon /\
  exists w pat, TicTacToe.checkGameOver demoWon = TicTacToe.Over won w pat.
Proof.
  split; [exact wf_demoWon|].
  apply (proj2 (proj1 (checkGameOver_win_exact demoWon wf_demoWon))).
  exists [3; 4; 5], 0. split.
  - right. left. reflexivity.
  - repeat constructor.
Defined.

Lemma invalid_move_is_noop_witness :
  rooms_get (rooms demoServer) "abc123" = Some demoRoom /\
  find (isSocket "a") (players demoRoom) = Some demoAlice /\
  heap demoServer !! gameState demoRoom = Some (TState demoState) /\
  isValidMove (gameInstance demoRoom) (TState demoState)
              (p_index demoAlice) (cellMove 0) = Some false /\
  handle demoServer "a" (makeMoveEv "abc123" (cellMove 0)) = Some (demoServer, []).
Proof.
  split; [reflexivity|]. split; [reflexivity|]. split; [reflexivity|].
  split; [reflexivity|].
  exact (proj2 (proj2 (proj1
    (invalid_move_is_noop demoServer "a" "abc123" demoRoom demoAlice
       (TState demoState) (cellMove 0) eq_refl eq_refl eq_refl) eq_refl))).
Defined.

Lemma currentPlayer_alternates_witness :
  wfState TicTacToeGame (TState demoOpening) /\
  statusOf (TState demoOpening) = playing /\
  (currentPlayerOf (TState demoOpening) = 0 \/
   currentPlayerOf (TState demoOpening) = 1) /\
  exists s',
    play TicTacToeGame (TState demoOpening) [(0, cellMove 4); (1, cellMove 0)]
      = Some s' /\
    (statusOf s' = playing /\ currentPlayerOf s' = (0 + 2) mod 2 \/
     terminal s' /\ [(0, cellMove 4); (1, cellMove 0)] <> [] /\
     currentPlayerOf s' = (0 + 2 - 1) mod 2).
Proof.
  split; [exact wf_demoOpening|]. split; [reflexivity|].
  split; [left; reflexivity|].
  eexists. split; [vm_compute; reflexivity|].
  refine (proj1 (proj2 (currentPlayer_alternates TicTacToeGame (TState demoOpening)
            [(0, cellMove 4); (1, cellMove 0)] _ wf_demoOpening eq_refl
            (or_introl eq_refl) _))).
  vm_compute. reflexivity.
Defined.

Lemma makeMove_lowest_empty_row_witness :
  Connect4.wf freshPlaying /\
  Connect4.isValidMove freshPlaying 0 (columnMove 3) = Some true /\
  exists c r s',
    column (columnMove 3) = Some c /\ 0 <= r < 6 /\
    Connect4.makeMove freshPlaying 0 (columnMove 3) = Some (NewObject s') /\
    Connect4.cellAt (Connect4.board s') c r = JNum 0 /\
    (forall y, r < y < 6 ->
       exists q, Connect4.cellAt (Connect4.board freshPlaying) c y = JNum q).
Proof.
  split; [exact wf_freshPlaying|]. split; [reflexivity|].
  destruct (proj1 (makeMove_lowest_empty_row freshPlaying wf_freshPlaying)
              0 (columnMove 3) eq_refl)
    as (c & r & s' & Hc & _ & Hr & Hmm & _ & Hcell & _ & Hbelow).
  exists c, r, s'. auto.
Defined.

Lemma eighth_drop_rejected_witness :
  0 <= 3 < 7 /\
  exists s7,
    drops freshPlaying 3 0 7 = Some s7 /\
    Connect4.makeMove s7 1 (columnMove 3) = Some SameObject.
Proof.
  split; [lia|].
  destruct (eighth_drop_rejected 3 ltac:(lia))
    as (s6 & s7 & _ & H7 & _ & Hrej & _).
  exists s7. split; [exact H7 | exact (proj2 (Hrej 1))].
Defined.

Lemma resetGame_fresh_playing_witness :
  rooms_get (rooms demoServer) "abc123" = Some demoRoom /\
  exists σ' room' s',
    handle demoServer "c" (resetGame "abc123")
      = Some (σ', [(toRoom "abc123", gameReset s')]) /\
    heap σ' !! gameState room' = Some s' /\
    boardEmpty s' /\ statusOf s' = playing /\
    players room' = players demoRoom /\
    spectators room' = spectators demoRoom.
Proof.
  split; [reflexivity|].
  destruct (resetGame_fresh_playing demoServer "c" "abc123" demoRoom eq_refl)
    as (σ' & room' & s' & Hh & _ & Hs & _ & He & Hst & Hp & Hsp & _).
  exists σ', room', s'.
  split; [exact Hh|]. split; [exact Hs|]. split; [exact He|].
  split; [exact Hst|]. split; [exact Hp | exact Hsp].
Defined.

Lemma coordinator_writes_status_only_witness :
  reachable demoServer /\
  exists σ' out room' s',
    handle demoServer "b" (makeMoveEv "abc123" (cellMove 0)) = Some (σ', out) /\
    rooms_get (rooms σ') "abc123" = Some room' /\
    heap σ' !! gameState room' = Some s' /\
    (s' = TState demoState \/
     (exists p mv,
        makeMoveEv "abc123" (cellMove 0) = makeMoveEv "abc123" mv /\
        makeMove (gameInstance demoRoom) (TState demoState) p mv
          = Some (NewObject s')) \/
     ((exists u gt uuid, makeMoveEv "abc123" (cellMove 0) = createRoom u gt uuid) /\
      s' = init (gameInstance room')) \/
     (makeMoveEv "abc123" (cellMove 0) = resetGame "abc123" /\
      s' = setStatus playing (init (gameInstance demoRoom))) \/
     ((exists u, makeMoveEv "abc123" (cellMove 0) = joinRoom "abc123" u) /\
      s' = setStatus playing (TState demoState)) \/
     (makeMoveEv "abc123" (cellMove 0) = disconnect /\
      s' = setStatus waiting (TState demoState))).
Proof.
  split; [exact demoServer_reachable|].
  do 4 eexists.
  split; [vm_compute; reflexivity|].
  split; [vm_compute; reflexivity|].
  split; [vm_compute; reflexivity|].
  refine (coordinator_writes_status_only demoServer "b"
            (makeMoveEv "abc123" (cellMove 0)) _ _ "abc123" demoRoom _
            (TState demoState) _ demoServer_reachable _ eq_refl eq_refl _ _);
    vm_compute; reflexivity.
Defined.

Lemma spectator_event_keeps_state_witness :
  reachable demoServer /\
  rooms_get (rooms demoServer) "abc123" = Some demoRoom /\
  (exists sp, sp ∈ spectators demoRoom /\ s_id sp = "c"%string) /\
  find (isSocket "c") (players demoRoom) = None /\
  leavesGameAlone "abc123" (makeMoveEv "abc123" (cellMove 0)) /\
  handle demoServer "c" (makeMoveEv "abc123" (cellMove 0)) = Some (demoServer, []) /\
  exists room' s,
    rooms_get (rooms demoServer) "abc123" = Some room' /\
    gameState room' = gameState demoRoom /\
    heap demoServer !! gameState demoRoom = Some s /\
    heap demoServer !! gameState room' = Some s.
Proof.
  assert (Hsp : exists sp, sp ∈ spectators demoRoom /\ s_id sp = "c"%string)
    by (eexists; split; [left | reflexivity]).
  split; [exact demoServer_reachable|]. split; [reflexivity|].
  split; [exact Hsp|]. split; [reflexivity|]. split; [exact I|].
  split; [reflexivity|].
  exact (spectator_event_keeps_state demoServer "c"
           (makeMoveEv "abc123" (cellMove 0)) demoServer [] "abc123" demoRoom
           demoServer_reachable eq_refl Hsp eq_refl I eq_refl).
Defined.

Lemma isValidMove_out_of_range_witness :
  length (TicTacToe.board demoState) = 9%nat /\
  ~ (exists i, index (cellMove 9) = Some i /\ 0 <= i <= 8) /\
  TicTacToe.isValidMove demoState 1 (cellMove 9) = false /\
  TicTacToe.makeMove demoState 1 (cellMove 9) = SameObject.
Proof.
  assert (Hout : ~ (exists i, index (cellMove 9) = Some i /\ 0 <= i <= 8)).
  { intros (i & Hi & Hr). cbn in Hi. injection Hi as <-. lia. }
  split; [reflexivity|]. split; [exact Hout|].
  exact (proj2 (proj2 (isValidMove_out_of_range demoState 1 (cellMove 9)
                         eq_refl Hout))).
Defined.

End Witnesses.


(** * Further properties of the engines *)

(** ** Tic-tac-toe: draws, single cells, the winner *)

Section TicTacToeMore.
Import TicTacToe.

Lemma includesNull_emptyCells b :
  includesNull b = false <-> emptyCells b = O.
Proof.
  unfold includesNull, emptyCells. induction b as [|c b IH]; cbn [existsb List.filter].
  - split; reflexivity.
  - destruct (strict_eq c JNull); cbn [orb length]; [split; discriminate | exact IH].
Qed.

Lemma emptyCells_insert (b : list jsval) n v :
  b !! n = Some JNull -> v <> JNull ->
  (emptyCells (<[n := v]> b) + 1 = emptyCells b)%nat.
Proof.
  intros Hn Hv. apply strict_eq_false in Hv. unfold emptyCells.
  revert n Hn. induction b as [|c b IH]; intros [|n] Hn; try discriminate.
  - cbn in Hn. injection Hn as ->. cbn. rewrite Hv. cbn. lia.
  - cbn in Hn. specialize (IH n Hn).
    change (<[S n := v]> (c :: b)) with (c :: <[n := v]> b).
    cbn [List.filter]. destruct (strict_eq c JNull); cbn [length]; lia.
Qed.

(** What a valid move does to the board. *)
Lemma ttt_valid_move_board s p mv :
  wf s -> isValidMove s p mv = true ->
  exists i s',
    index mv = Some i /\ 0 <= i < 9 /\
    board s !! Z.to_nat i = Some JNull /\
    makeMove s p mv = NewObject s' /\
    board s' = <[Z.to_nat i := JNum p]> (board s).
Proof.
  intros [Hlen _] Hvalid.
  pose proof (ttt_isValidMove_true _ _ _ Hvalid) as (_ & _ & Hnull).
  destruct (index mv) as [i|] eqn:Hi; [|discriminate].
  cbn [js_get] in Hnull.
  destruct (elem (board s) i) as [x|] eqn:Hx; [|discriminate].
  cbn in Hnull. subst x. apply elem_Some in Hx as [Hi0 Hx].
  pose proof (lookup_lt_Some _ _ _ Hx) as Hlt.
  assert (Hset : js_set (board s) (Some i) (JNum p)
                 = <[Z.to_nat i := JNum p]> (board s)).
  { unfold js_set. destruct (Z.ltb_spec i 0); [lia|].
    destruct (Nat.ltb_spec (Z.to_nat i) (length (board s))); [reflexivity|lia]. }
  unfold makeMove. rewrite Hvalid, Hi, Hset. cbn [negb].
  destruct (checkGameOver _); eexists i, _;
    (split; [reflexivity|]); (split; [lia|]); (split; [assumption|]);
    (split; reflexivity).
Qed.

Lemma js_get_lookup (b : list jsval) j :
  0 <= j -> js_get b (Some j) = default JUndefined (b !! Z.to_nat j).
Proof.
  intros Hj. unfold js_get, elem. destruct (Z.ltb_spec j 0); [lia | reflexivity].
Qed.

(** X1. On a nine-cell board [checkGameOver] reports a draw exactly when no
    triple is owned and no cell is empty, and reports that the game goes on
    exactly when no triple is owned and some cell is empty; a draw carries
    no winner and no highlight. *)
Theorem ttt_draw_exact s :
  wf s ->
  (checkGameOver s = Over draw JNull None <->
   noLine (board s) /\ emptyCells (board s) = O) /\
  (checkGameOver s = NotOver <->
   noLine (board s) /\ (0 < emptyCells (board s))%nat) /\
  (forall w pat, checkGameOver s = Over draw w pat -> w = JNull /\ pat = None).
Proof.
  intros Hwf.
  assert (Hscan : scanPatterns (board s) winPatterns = None <-> noLine (board s)).
  { rewrite scanPatterns_None. unfold noLine. split.
    - intros H (pattern & p & Hin & Hp).
      assert (lineOwned (board s) pattern = true)
        by (apply lineOwned_owns; eauto).
      rewrite H in *; [discriminate | assumption].
    - intros H pattern Hin. destruct (lineOwned (board s) pattern) eqn:E; [|reflexivity].
      exfalso. apply H. apply (lineOwned_owns s pattern Hwf Hin) in E as [p Hp]. eauto. }
  unfold checkGameOver.
  destruct (scanPatterns (board s) winPatterns) as [r|] eqn:E.
  - destruct (scanPatterns_Some _ _ _ E) as (q & _ & _ & ->).
    assert (Hno : ~ noLine (board s)) by (rewrite <- Hscan; discriminate).
    repeat split; try discriminate; tauto.
  - assert (Hyes : noLine (board s)) by now apply Hscan.
    destruct (includesNull (board s)) eqn:Hn; cbn [negb].
    + assert (emptyCells (board s) <> O)
        by (rewrite <- includesNull_emptyCells; congruence).
      repeat split; try discriminate; try tauto; lia.
    + apply includesNull_emptyCells in Hn.
      repeat split; try discriminate; try tauto; try congruence; lia.
Qed.

(** X2. A valid tic-tac-toe move changes the chosen cell, which was empty,
    to the mover's index and no other cell; the board keeps its nine cells
    and has one empty cell less. *)
Theorem ttt_move_fills_one_cell s p mv :
  wf s -> isValidMove s p mv = true ->
  exists i s',
    index mv = Some i /\ 0 <= i < 9 /\
    makeMove s p mv = NewObject s' /\
    js_get (board s) (Some i) = JNull /\
    js_get (board s') (Some i) = JNum p /\
    (forall j, j <> i -> js_get (board s') (Some j) = js_get (board s) (Some j)) /\
    wf s' /\
    (emptyCells (board s') + 1 = emptyCells (board s))%nat.
Proof.
  intros Hwf Hvalid.
  destruct (ttt_valid_move_board s p mv Hwf Hvalid)
    as (i & s' & Hi & Hr & Hnull & Hmm & Hb).
  pose proof (lookup_lt_Some _ _ _ Hnull) as Hlt.
  exists i, s'. split; [assumption|]. split; [assumption|]. split; [assumption|].
  split; [rewrite js_get_lookup by lia; now rewrite Hnull|].
  split.
  { rewrite Hb, js_get_lookup by lia.
    now rewrite list_lookup_insert_eq by assumption. }
  split.
  { intros j Hne. rewrite Hb. unfold js_get, elem.
    destruct (Z.ltb_spec j 0); [reflexivity|].
    rewrite list_lookup_insert_ne by lia. reflexivity. }
  split; [eapply ttt_makeMove_valid_wf; eauto|].
  rewrite Hb. apply emptyCells_insert; [assumption | discriminate].
Qed.

(** X3. When no triple is owned before a valid move and the move wins, the
    winner is the mover, and the highlighted triple is owned by the mover
    and contains the cell just played. *)
Theorem ttt_winner_is_mover s p mv s' :
  wf s -> noLine (board s) ->
  isValidMove s p mv = true -> makeMove s p mv = NewObject s' ->
  status s' = won ->
  winner s' = JNum p /\
  exists pattern i,
    winningPattern s' = Some pattern /\ In pattern winPatterns /\
    index mv = Some i /\ In i pattern /\
    ownsLine (board s') pattern p.
Proof.
  intros Hwf Hno Hvalid Hmm Hwon.
  destruct (ttt_valid_move_board s p mv Hwf Hvalid)
    as (i & s1 & Hi & Hr & Hnull & Hmm1 & Hb).
  assert (s1 = s') by congruence. subst s1.
  pose proof (ttt_makeMove_valid_wf s p mv s' Hwf Hvalid Hmm) as Hwf'.
  pose proof (ttt_isValidMove_true _ _ _ Hvalid) as (_ & Hst & _).
  pose proof (lookup_lt_Some _ _ _ Hnull) as Hlt.
  (* the result of the scan on the new board *)
  assert (Hscan : exists pattern,
             In pattern winPatterns /\ lineOwned (board s') pattern = true /\
             winner s' = js_get (board s') (pattern !! 0%nat) /\
             winningPattern s' = Some pattern).
  { unfold makeMove in Hmm. rewrite Hvalid in Hmm. cbn [negb] in Hmm.
    unfold checkGameOver in Hmm. cbn [board] in Hmm.
    destruct (scanPatterns _ winPatterns) as [r|] eqn:E.
    - destruct (scanPatterns_Some _ _ _ E) as (q & Hin & Hown & ->).
      injection Hmm as <-. cbn [board winner winningPattern]. eauto.
    - destruct (negb (includesNull _)); injection Hmm as <-;
        cbn [status] in Hwon; congruence. }
  destruct Hscan as (pattern & Hin & Hown & Hw & Hpat).
  apply (lineOwned_owns s' pattern Hwf' Hin) in Hown as [w Hown].
  destruct (winPatterns_shape _ Hin) as (a & b & c & -> & Ha & Hbr & Hc).
  assert (Hcell : forall j, 0 <= j -> j <> i ->
             js_get (board s') (Some j) = js_get (board s) (Some j)).
  { intros j Hj Hne. rewrite Hb. unfold js_get, elem.
    destruct (Z.ltb_spec j 0); [lia|].
    rewrite list_lookup_insert_ne by lia. reflexivity. }
  assert (Hplayed : js_get (board s') (Some i) = JNum p).
  { rewrite Hb, js_get_lookup by lia.
    now rewrite list_lookup_insert_eq by assumption. }
  assert (Hin_i : In i [a; b; c]).
  { destruct (Z.eq_dec a i) as [->|Hna]; [now left|].
    destruct (Z.eq_dec b i) as [->|Hnb]; [right; now left|].
    destruct (Z.eq_dec c i) as [->|Hnc]; [right; right; now left|].
    exfalso. apply Hno. exists [a; b; c], w. split; [assumption|].
    inversion Hown as [|? ? Ea H1]; subst. inversion H1 as [|? ? Eb H2]; subst.
    inversion H2 as [|? ? Ec _]; subst.
    repeat constructor; rewrite <- Hcell by lia; assumption. }
  assert (Hwp : w = p).
  { unfold ownsLine in Hown. rewrite Forall_forall in Hown.
    assert (Hi' : i ∈ [a; b; c]) by now apply list_elem_of_In.
    specialize (Hown i Hi'). cbn beta in Hown. congruence. }
  subst w. split.
  - rewrite Hw. cbn [lookup list_lookup]. inversion Hown; subst. assumption.
  - exists [a; b; c], i. auto.
Qed.

End TicTacToeMore.

(** ** Connect-four: draws, gravity, the highlighted cells *)

Section Connect4More.
Import Connect4.

Lemma isBoardFull_tops b :
  wf_board b ->
  isBoardFull b = true <-> forall x, 0 <= x < 7 -> cellAt b x 0 <> JNull.
Proof.
  intros Hwf. unfold isBoardFull. rewrite forallb_forall. split.
  - intros H x Hx.
    destruct (wf_board_column b x Hwf Hx) as (col & Hcol & _).
    rewrite (cellAt_column _ _ _ _ Hcol).
    apply strict_eq_false, negb_true_iff, H.
    apply elem_Some in Hcol as [_ Hcol].
    apply list_elem_of_In. eapply list_elem_of_lookup_2; eauto.
  - intros H col Hin. apply list_elem_of_In, list_elem_of_lookup_1 in Hin as [n Hn].
    pose proof (lookup_lt_Some _ _ _ Hn) as Hlt. destruct Hwf as [Hlen _].
    assert (Hx : 0 <= Z.of_nat n < 7) by lia.
    specialize (H _ Hx). unfold cellAt, elem in H.
    destruct (Z.ltb_spec (Z.of_nat n) 0); [lia|].
    rewrite Nat2Z.id, Hn in H. now apply negb_true_iff, strict_eq_false.
Qed.

(** X4. After a piece of [p] is placed at [(c, r)], [checkGameOver]
    reports a draw exactly when no line through the piece wins and the top
    cell of every column is occupied, and reports that the game goes on
    exactly when no line wins and some column has an empty top cell. *)
Theorem c4_draw_exact s c r p :
  wf s -> ownedBy (board s) p c r ->
  (checkGameOver s c r p = Some (Over draw JNull None) <->
   ~ winsAt (board s) p c r /\
   forall x, 0 <= x < 7 -> cellAt (board s) x 0 <> JNull) /\
  (checkGameOver s c r p = Some NotOver <->
   ~ winsAt (board s) p c r /\
   exists x, 0 <= x < 7 /\ cellAt (board s) x 0 = JNull).
Proof.
  intros Hwf Hown.
  pose proof (isBoardFull_tops (board s) Hwf) as Hfull.
  unfold checkGameOver, winsAt.
  destruct (scanDirections_spec (board s) c r p directions Hwf Hown)
    as (res & -> & Hshape & Hiff).
  cbn [mbind option_bind].
  destruct Hshape as [-> | (cells & -> & _)].
  - assert (Hno : ~ exists d, In d directions /\ fourThrough (board s) p c r d)
      by (rewrite <- Hiff; congruence).
    destruct (isBoardFull (board s)) eqn:E.
    + assert (Ht : forall x, 0 <= x < 7 -> cellAt (board s) x 0 <> JNull)
        by now apply Hfull.
      split; split.
      * intros _. split; assumption.
      * reflexivity.
      * discriminate.
      * intros (_ & x & Hx & Hn). exfalso. now apply (Ht x Hx).
    + assert (Ht : ~ forall x, 0 <= x < 7 -> cellAt (board s) x 0 <> JNull)
        by (rewrite <- Hfull; congruence).
      split; split.
      * discriminate.
      * intros [_ Hall]. contradiction.
      * intros _. split; [assumption|].
        assert (Hex : exists x, In x [0; 1; 2; 3; 4; 5; 6] /\
                                strict_eq (cellAt (board s) x 0) JNull = true).
        { apply existsb_exists.
          destruct (existsb (fun x => strict_eq (cellAt (board s) x 0) JNull)
                            [0; 1; 2; 3; 4; 5; 6]) eqn:Ex; [reflexivity|].
          exfalso. apply Ht. intros x Hx.
          assert (Hin : In x [0; 1; 2; 3; 4; 5; 6]) by (simpl; lia).
          apply strict_eq_false.
          destruct (strict_eq (cellAt (board s) x 0) JNull) eqn:Ec; [|reflexivity].
          assert (existsb (fun x => strict_eq (cellAt (board s) x 0) JNull)
                          [0; 1; 2; 3; 4; 5; 6] = true)
            by (apply existsb_exists; exists x; auto).
          congruence. }
        destruct Hex as (x & Hin & Hx). exists x.
        split; [simpl in Hin; lia | now apply strict_eq_spec].
      * reflexivity.
  - assert (Hyes : exists d, In d directions /\ fourThrough (board s) p c r d)
      by (apply Hiff; congruence).
    split; split; try discriminate; intros [Hn _]; contradiction.
Qed.

Lemma settled_insert col r v :
  length col = 6%nat -> 0 <= r < 6 ->
  settled col ->
  (forall y, r < y < 6 -> js_get col (Some y) <> JNull) ->
  v <> JNull ->
  settled (js_set col (Some r) v).
Proof.
  intros Hlen Hr Hset Hbelow Hv y y' Hy Hy'.
  rewrite !js_get_insert by lia.
  destruct (Z.eqb_spec y' r) as [->|Hne']; [auto|].
  destruct (Z.eqb_spec y r) as [->|Hne].
  - intros _. apply Hbelow. lia.
  - intros Hocc. now apply (Hset y y').
Qed.

Lemma gravity_column b x col :
  gravity b -> elem b x = Some col -> settled col.
Proof.
  intros Hg Hcol. apply elem_Some in Hcol as [_ Hcol].
  unfold gravity in Hg. rewrite Forall_forall in Hg. apply Hg.
  eapply list_elem_of_lookup_2; eauto.
Qed.

Lemma gravity_init : gravity (board init).
Proof.
  unfold gravity. cbn. repeat constructor; intros y y' Hy Hy' H; exfalso; apply H;
    unfold js_get, elem; (destruct (Z.ltb_spec y 0); [lia|]);
    assert (Hc : y = 0 \/ y = 1 \/ y = 2 \/ y = 3 \/ y = 4 \/ y = 5) by lia;
    destruct Hc as [->|[->|[->|[->|[->| ->]]]]]; reflexivity.
Qed.

(** The board after a valid move is the old board with the one cell set. *)
Lemma c4_valid_move_board s p mv s' :
  wf s -> isValidMove s p mv = Some true ->
  makeMove s p mv = Some (NewObject s') ->
  exists c r col,
    column mv = Some c /\ 0 <= c < 7 /\ 0 <= r < 6 /\
    elem (board s) c = Some col /\ length col = 6%nat /\
    js_get col (Some r) = JNull /\
    (forall y, r < y < 6 -> js_get col (Some y) <> JNull) /\
    board s' = setCell (board s) c r (JNum p) /\
    wf s'.
Proof.
  intros Hwf Hvalid Hmm.
  destruct (c4_makeMove_valid s p mv Hwf Hvalid)
    as (c & r & over & Hc & Hcr & Hr & _ & _ & _ & Hempty & Hbelow & _ & H).
  cbv zeta in H. destruct H as (Hwf' & _ & _ & Hmm').
  destruct (wf_board_column (board s) c Hwf Hcr) as (col & Hcol & Hlen & _).
  exists c, r, col. split; [assumption|]. split; [assumption|].
  split; [assumption|]. split; [assumption|]. split; [assumption|].
  split; [now rewrite <- (cellAt_column _ _ _ _ Hcol)|].
  split.
  { intros y Hy. rewrite <- (cellAt_column _ _ _ _ Hcol). now apply Hbelow. }
  rewrite Hmm in Hmm'. injection Hmm' as ->.
  split; destruct over; cbn [board]; first [reflexivity | exact Hwf'].
Qed.

Lemma c4_gravity_step s p mv s' :
  wf s -> gravity (board s) ->
  isValidMove s p mv = Some true ->
  makeMove s p mv = Some (NewObject s') ->
  gravity (board s').
Proof.
  intros Hwf Hg Hvalid Hmm.
  destruct (c4_valid_move_board s p mv s' Hwf Hvalid Hmm)
    as (c & r & col & _ & Hc & Hr & Hcol & Hlen & _ & Hbelow & -> & _).
  unfold setCell. rewrite Hcol. apply Forall_insert; [exact Hg|].
  apply settled_insert; try assumption; try discriminate.
  eapply gravity_column; eauto.
Qed.

(** X5. No piece floats: the empty board has every column settled, and a
    valid move keeps every column settled. *)
Theorem c4_gravity_kept s p mv s' :
  wf s -> gravity (board s) ->
  isValidMove s p mv = Some true ->
  makeMove s p mv = Some (NewObject s') ->
  gravity (board s') /\ gravity (board init).
Proof.
  intros Hwf Hg Hvalid Hmm. split; [|exact gravity_init].
  eapply c4_gravity_step; eauto.
Qed.

Lemma emptyCells_zero col :
  emptyCells col = O <-> forall y, js_get col (Some y) <> JNull.
Proof.
  rewrite <- includesNull_emptyCells. unfold TicTacToe.includesNull. split.
  - intros H y Hy. unfold js_get in Hy.
    destruct (elem col y) as [x|] eqn:Hx; [|discriminate].
    cbn in Hy. subst x. apply elem_Some in Hx as [_ Hx].
    assert (existsb (fun c => strict_eq c JNull) col = true).
    { apply existsb_exists. exists JNull. split; [|reflexivity].
      apply list_elem_of_In. eapply list_elem_of_lookup_2; eauto. }
    congruence.
  - intros H. destruct (existsb _ col) eqn:E; [|reflexivity]. exfalso.
    apply existsb_exists in E as (x & Hin & Hx). apply strict_eq_spec in Hx. subst x.
    apply list_elem_of_In, list_elem_of_lookup_1 in Hin as [n Hn].
    apply (H (Z.of_nat n)). unfold js_get, elem.
    destruct (Z.ltb_spec (Z.of_nat n) 0); [lia|]. now rewrite Nat2Z.id, Hn.
Qed.

Lemma emptyCells4_zero b :
  emptyCells4 b = O <-> Forall (fun col => emptyCells col = O) b.
Proof.
  induction b as [|col b IH]; cbn [emptyCells4 fold_right].
  - split; [constructor | reflexivity].
  - fold (emptyCells4 b). rewrite Forall_cons, <- IH. lia.
Qed.

(** X6. On a board without floating pieces a column's top cell is empty
    exactly when the column has an empty cell. So a move is valid exactly
    when it is the mover's turn, the game is being played and the chosen
    column, one of 0..6, has room; and every top cell is occupied exactly
    when the board has no empty cell at all. *)
Theorem c4_valid_iff_room s p mv :
  wf s -> gravity (board s) ->
  (isValidMove s p mv = Some true <->
   currentPlayer s = p /\ status s = playing /\
   exists c y, column mv = Some c /\ 0 <= c < 7 /\ 0 <= y < 6 /\
               cellAt (board s) c y = JNull) /\
  (isBoardFull (board s) = true <-> emptyCells4 (board s) = O).
Proof.
  intros Hwf Hg.
  assert (Htop : forall c col, elem (board s) c = Some col ->
            (exists y, 0 <= y < 6 /\ js_get col (Some y) = JNull) ->
            js_get col (Some 0) = JNull).
  { intros c col Hcol (y & Hy & Hnull).
    pose proof (gravity_column _ _ _ Hg Hcol) as Hs.
    destruct (js_get col (Some 0)) eqn:E; try reflexivity; exfalso;
      apply (Hs 0 y); try lia; congruence. }
  split.
  - split.
    + intros Hvalid.
      destruct (c4_makeMove_valid s p mv Hwf Hvalid)
        as (c & r & over & Hc & Hcr & Hr & Hcp & Hst & Htop0 & _).
      split; [assumption|]. split; [assumption|].
      exists c, 0. repeat split; try assumption; lia.
    + intros (Hcp & Hst & c & y & Hc & Hcr & Hy & Hnull).
      unfold isValidMove. rewrite Hcp, Z.eqb_refl, Hst, Hc.
      cbn [negb Status_eqb num_ltb num_geb columnAt].
      destruct (Z.ltb_spec c 0); [lia|]. destruct (Z.leb_spec 7 c); [lia|].
      cbn [orb].
      destruct (wf_board_column (board s) c Hwf Hcr) as (col & Hcol & _).
      rewrite Hcol. rewrite (cellAt_column _ _ _ _ Hcol) in Hnull.
      rewrite (Htop c col Hcol) by eauto. reflexivity.
  - rewrite (isBoardFull_tops _ Hwf), emptyCells4_zero, Forall_forall. split.
    + intros H col Hin. apply emptyCells_zero. intros y Hy.
      apply list_elem_of_lookup_1 in Hin as [n Hn].
      pose proof (lookup_lt_Some _ _ _ Hn) as Hlt.
      pose proof Hwf as [Hlen Hcols].
      assert (Hx : 0 <= Z.of_nat n < 7) by lia.
      assert (Hcol : elem (board s) (Z.of_nat n) = Some col).
      { apply elem_Some. split; [lia|]. now rewrite Nat2Z.id. }
      apply (H _ Hx). rewrite (cellAt_column _ _ _ _ Hcol).
      apply (Htop _ col Hcol).
      assert (Hy6 : 0 <= y < 6).
      { unfold js_get in Hy. destruct (elem col y) as [v|] eqn:Ev; [|discriminate].
        apply elem_Some in Ev as [Hy0 Ev]. apply lookup_lt_Some in Ev.
        rewrite Forall_forall in Hcols.
        assert (Hc6 : length col = 6%nat)
          by (apply Hcols; eapply list_elem_of_lookup_2; eauto).
        lia. }
      eauto.
    + intros H x Hx.
      destruct (wf_board_column (board s) x Hwf Hx) as (col & Hcol & _).
      rewrite (cellAt_column _ _ _ _ Hcol). apply emptyCells_zero. apply H.
      apply elem_Some in Hcol as [_ Hcol]. eapply list_elem_of_lookup_2; eauto.
Qed.

Lemma walk_cells b p sx sy c r :
  forall left j cells,
  walk b p sx sy left (c + j * sx) (r + j * sy) = Some cells ->
  Forall (fun cell =>
            ownedBy b p (fst cell) (snd cell) /\
            exists k, j <= k < j + Z.of_nat left /\
                      cell = (c + k * sx, r + k * sy)) cells.
Proof.
  induction left as [|left IH]; intros j cells; cbn [walk].
  - destruct (inBounds _ _); [|intros [= <-]; constructor].
    destruct (columnAt b _); [|discriminate].
    destruct (strict_eq _ _); intros [= <-]; constructor.
  - destruct (inBounds (c + j * sx) (r + j * sy)) eqn:Hin;
      [|intros [= <-]; constructor].
    destruct (columnAt b (Some (c + j * sx))) as [col|] eqn:Hcol; [|discriminate].
    destruct (strict_eq (js_get col (Some (r + j * sy))) (JNum p)) eqn:Hc;
      [|intros [= <-]; constructor].
    destruct (walk b p sx sy left (c + j * sx + sx) (r + j * sy + sy))
      as [rest|] eqn:Hrest; [|discriminate].
    intros [= <-].
    replace (c + j * sx + sx) with (c + (j + 1) * sx) in Hrest by lia.
    replace (r + j * sy + sy) with (r + (j + 1) * sy) in Hrest by lia.
    apply IH in Hrest. constructor.
    + cbn [fst snd]. split.
      * apply inBounds_spec in Hin as [Hx Hy]. split; [assumption|].
        split; [assumption|]. cbn [columnAt] in Hcol.
        rewrite (cellAt_column _ _ _ _ Hcol). now apply strict_eq_spec.
      * exists j. split; [lia | reflexivity].
    + eapply Forall_impl; [exact Hrest|]. cbn beta.
      intros cell (Hown & k & Hk & ->). split; [assumption|].
      exists k. split; [lia | reflexivity].
Qed.

Lemma lineCells_cells b c r p d cells :
  ownedBy b p c r ->
  lineCells b c r p d = Some cells ->
  head cells = Some (c, r) /\
  Forall (fun cell => ownedBy b p (fst cell) (snd cell) /\ onLine c r d cell) cells.
Proof.
  intros Hown. destruct d as [dx dy]. unfold lineCells.
  destruct (walk b p (dx * 1) (dy * 1) 3 (c + dx * 1) (r + dy * 1))
    as [fwd|] eqn:Hf; cbn [mbind option_bind]; [|discriminate].
  destruct (walk b p (dx * -1) (dy * -1) 3 (c + dx * -1) (r + dy * -1))
    as [bwd|] eqn:Hb; cbn [mbind option_bind]; [|discriminate].
  intros [= <-]. split; [reflexivity|].
  replace (c + dx * 1) with (c + 1 * (dx * 1)) in Hf by lia.
  replace (r + dy * 1) with (r + 1 * (dy * 1)) in Hf by lia.
  replace (c + dx * -1) with (c + 1 * (dx * -1)) in Hb by lia.
  replace (r + dy * -1) with (r + 1 * (dy * -1)) in Hb by lia.
  apply walk_cells in Hf, Hb.
  constructor; [|apply Forall_app; split].
  - cbn [fst snd]. split; [assumption|]. exists 0. split; [lia|].
    cbn [fst snd]. f_equal; lia.
  - eapply Forall_impl; [exact Hf|]. cbn beta.
    intros cell (Ho & k & Hk & ->). split; [assumption|].
    exists k. split; [lia|]. cbn [fst snd]. f_equal; lia.
  - eapply Forall_impl; [exact Hb|]. cbn beta.
    intros cell (Ho & k & Hk & ->). split; [assumption|].
    exists (- k). split; [lia|]. cbn [fst snd]. f_equal; lia.
Qed.

Lemma scanDirections_cells b c r p ds over :
  scanDirections b c r p ds = Some (Some over) ->
  exists d cells,
    In d ds /\ lineCells b c r p d = Some cells /\
    (4 <= length cells)%nat /\
    over = Over won (JNum p) (Some cells).
Proof.
  induction ds as [|d ds IH]; cbn [scanDirections]; [discriminate|].
  destruct (lineCells b c r p d) as [cells|] eqn:Hl; [|discriminate].
  destruct (4 <=? length cells)%nat eqn:H4.
  - intros [= <-]. exists d, cells. apply Nat.leb_le in H4.
    split; [now left | auto].
  - intros H. destruct (IH H) as (d' & cells' & Hin & Hrest).
    exists d', cells'. split; [now right | assumption].
Qed.

(** X7. When a valid move wins, the winner is the mover and the highlight
    is a list of four to seven cells that starts with the cell just filled;
    every cell in it is on the board, holds the mover's index and lies on
    one line through that cell, at most three steps away. *)
Theorem c4_winning_cells s p mv s' :
  wf s -> isValidMove s p mv = Some true ->
  makeMove s p mv = Some (NewObject s') ->
  status s' = won ->
  exists c r cells d,
    column mv = Some c /\
    winner s' = JNum p /\
    winningCells s' = Some cells /\
    head cells = Some (c, r) /\
    cellAt (board s) c r = JNull /\
    In d directions /\
    Forall (fun cell => ownedBy (board s') p (fst cell) (snd cell) /\
                        onLine c r d cell) cells /\
    (4 <= length cells <= 7)%nat.
Proof.
  intros Hwf Hvalid Hmm Hwon.
  destruct (c4_makeMove_valid s p mv Hwf Hvalid)
    as (c & r & over & Hc & Hcr & Hr & _ & Hst & _ & Hempty & _ & _ & H).
  cbv zeta in H. destruct H as (Hwf' & Hown & Hover & Hmm').
  rewrite Hmm in Hmm'. injection Hmm' as ->.
  destruct (c4_checkGameOver_spec _ c r p Hwf' Hown)
    as (over' & Hover' & _ & Hwinner & _).
  assert (over' = over) by congruence. subst over'.
  destruct over as [st w cs|]; cbn [status board winner winningCells] in *;
    [|congruence].
  subst st. destruct (Hwinner w cs eq_refl) as (-> & cells & -> & Hlen).
  unfold checkGameOver in Hover. cbn [board] in Hover.
  destruct (scanDirections _ c r p directions) as [[o|]|] eqn:Hscan;
    cbn [mbind option_bind] in Hover.
  - injection Hover as ->.
    destruct (scanDirections_cells _ _ _ _ _ _ Hscan)
      as (d & cells' & Hin & Hline & _ & E).
    injection E as <-.
    destruct (lineCells_cells _ c r p d cells Hown Hline) as (Hhd & Hall).
    exists c, r, cells, d. auto 10.
  - destruct (isBoardFull _); discriminate.
  - discriminate.
Qed.

Lemma emptyCells_le_length col : (emptyCells col <= length col)%nat.
Proof. unfold emptyCells. apply List.filter_length_le. Qed.

Lemma emptyCells4_insert (b : list (list jsval)) n col col' :
  b !! n = Some col ->
  (emptyCells col' + 1 = emptyCells col)%nat ->
  (emptyCells4 (<[n := col']> b) + 1 = emptyCells4 b)%nat.
Proof.
  intros Hn Hc. revert n Hn.
  induction b as [|x b IH]; intros [|n] Hn; try discriminate.
  - cbn in Hn. injection Hn as ->. cbn. lia.
  - cbn in Hn. specialize (IH n Hn).
    change (<[S n := col']> (x :: b)) with (x :: <[n := col']> b).
    cbn [emptyCells4 fold_right]. fold (emptyCells4 b).
    fold (emptyCells4 (<[n := col']> b)). lia.
Qed.

Lemma emptyCells4_bound b :
  wf_board b -> (emptyCells4 b <= 42)%nat.
Proof.
  intros [Hlen Hcols].
  assert (H : (emptyCells4 b <= 6 * length b)%nat).
  { clear Hlen. induction Hcols as [|col b [Hc _] _ IH]; cbn [emptyCells4 fold_right].
    - cbn. lia.
    - fold (emptyCells4 b). pose proof (emptyCells_le_length col). cbn [length]. lia. }
  lia.
Qed.

Lemma c4_valid_move_fills s p mv s' :
  wf s -> isValidMove s p mv = Some true ->
  makeMove s p mv = Some (NewObject s') ->
  (emptyCells4 (board s') + 1 = emptyCells4 (board s))%nat /\
  (forall x y, cellAt (board s) x y <> JNull ->
     cellAt (board s') x y = cellAt (board s) x y).
Proof.
  intros Hwf Hvalid Hmm.
  destruct (c4_valid_move_board s p mv s' Hwf Hvalid Hmm)
    as (c & r & col & _ & Hc & Hr & Hcol & Hlen & Hnull & _ & Hb & _).
  rewrite Hb. split.
  - unfold setCell. rewrite Hcol. pose proof Hcol as Hcol'.
    apply elem_Some in Hcol' as [_ Hlk].
    apply (emptyCells4_insert _ _ col); [assumption|].
    unfold js_set. destruct (Z.ltb_spec r 0); [lia|].
    destruct (Nat.ltb_spec (Z.to_nat r) (length col)); [|lia].
    apply emptyCells_insert; [|discriminate].
    unfold js_get, elem in Hnull. destruct (Z.ltb_spec r 0); [lia|].
    destruct (col !! Z.to_nat r) as [v|] eqn:E; [|discriminate].
    cbn in Hnull. now subst v.
  - intros x y Hocc. rewrite (cellAt_setCell _ _ _ _ col) by (assumption || lia).
    destruct (Z.eqb_spec x c) as [->|]; [|reflexivity].
    destruct (Z.eqb_spec y r) as [->|]; [|reflexivity].
    exfalso. apply Hocc. now rewrite (cellAt_column _ _ _ _ Hcol).
Qed.

End Connect4More.

(** ** Both engines: how long a game can be *)

Section GameLength.
Import Server.

Lemma valid_move_fills g s p mv :
  wfState g s -> isValidMove g s p mv = Some true ->
  exists s1,
    makeMove g s p mv = Some (NewObject s1) /\
    wfState g s1 /\
    (freeCells s1 + 1 = freeCells s)%nat /\
    occupiedKept s s1.
Proof.
  intros Hwf Hvalid.
  destruct g, s as [t|c]; cbn in Hwf; try contradiction;
    cbn [isValidMove] in Hvalid.
  - injection Hvalid as Hvalid.
    destruct (ttt_valid_move_board t p mv Hwf Hvalid)
      as (i & t' & Hi & Hr & Hnull & Hmm & Hb).
    exists (TState t'). cbn [makeMove]. rewrite Hmm. split; [reflexivity|].
    split; [cbn; eapply ttt_makeMove_valid_wf; eauto|].
    cbn [freeCells occupiedKept]. rewrite Hb. split.
    + apply emptyCells_insert; [assumption | discriminate].
    + intros j Hocc. unfold js_get, elem in *.
      destruct (Z.ltb_spec j 0); [reflexivity|].
      destruct (decide (Z.to_nat i = Z.to_nat j)) as [E|E].
      * rewrite <- E, Hnull in Hocc. now contradiction Hocc.
      * rewrite list_lookup_insert_ne by assumption. reflexivity.
  - destruct (c4_makeMove_valid c p mv Hwf Hvalid)
      as (col & r & over & _ & _ & _ & _ & _ & _ & _ & _ & _ & H).
    cbv zeta in H. destruct H as (_ & _ & _ & Hmm).
    eexists (CState _). cbn [makeMove]. rewrite Hmm. cbn [mbind option_bind].
    split; [reflexivity|].
    destruct (c4_valid_move_board c p mv _ Hwf Hvalid Hmm)
      as (_ & _ & _ & _ & _ & _ & _ & _ & _ & _ & _ & Hwf').
    destruct (c4_valid_move_fills c p mv _ Hwf Hvalid Hmm) as [Hcount Hkept].
    split; [exact Hwf'|]. split; [exact Hcount | exact Hkept].
Qed.

Lemma occupiedKept_refl g s : wfState g s -> occupiedKept s s.
Proof. destruct g, s; cbn; try contradiction; auto. Qed.

Lemma occupiedKept_trans g s1 s2 s3 :
  wfState g s1 -> wfState g s2 -> wfState g s3 ->
  occupiedKept s1 s2 -> occupiedKept s2 s3 -> occupiedKept s1 s3.
Proof.
  destruct g, s1, s2, s3; cbn; try contradiction; intros _ _ _ H12 H23.
  - intros j Hocc. rewrite H23, H12; [reflexivity | assumption|].
    rewrite H12; assumption.
  - intros x y Hocc. rewrite H23, H12; [reflexivity | assumption|].
    rewrite H12; assumption.
Qed.

Lemma freeCells_bound g s : wfState g s -> (freeCells s <= boardSize g)%nat.
Proof.
  destruct g, s as [t|c]; cbn; try contradiction.
  - intros [Hlen _]. rewrite <- Hlen. apply emptyCells_le_length.
  - apply emptyCells4_bound.
Qed.

(** X8. Every valid move fills exactly one empty cell and leaves the
    occupied cells as they are. So along a sequence of valid moves the
    number of empty cells drops by the number of moves, no occupied cell
    is ever changed, and a game has at most 9 moves of tic-tac-toe or 42 of
    connect-four. *)
Theorem game_length_bounded g s ms s' :
  wfState g s -> play g s ms = Some s' ->
  (freeCells s' + length ms = freeCells s)%nat /\
  (length ms <= boardSize g)%nat /\
  occupiedKept s s' /\
  wfState g s'.
Proof.
  intros Hwf Hplay.
  assert (H : (freeCells s' + length ms = freeCells s)%nat /\
              occupiedKept s s' /\ wfState g s').
  { revert s Hwf Hplay. induction ms as [|[p mv] ms IH]; intros s Hwf; cbn [play].
    - intros [= <-]. split; [cbn; lia|]. split; [eapply occupiedKept_refl; eauto|].
      assumption.
    - destruct (isValidMove g s p mv) as [[|]|] eqn:Hvalid; try discriminate.
      destruct (valid_move_fills g s p mv Hwf Hvalid)
        as (s1 & Hmm & Hwf1 & Hcount & Hkept).
      rewrite Hmm. cbn [returned_state]. intros Hplay.
      destruct (IH s1 Hwf1 Hplay) as (Hc & Hk & Hwf').
      split; [cbn [length]; lia|]. split; [|assumption].
      apply (occupiedKept_trans g s s1 s'); assumption. }
  destruct H as (Hc & Hk & Hwf'). pose proof (freeCells_bound g s Hwf).
  repeat split; try assumption; lia.
Qed.

End GameLength.

(** * Further properties of the server *)

(** ** The shape of every reachable state *)

Section ServerShape.
Import Server.

Lemma stateOk_init g : stateOk g (init g).
Proof.
  destruct g; cbn.
  - split; [|auto]. split; [reflexivity | repeat constructor; discriminate].
  - split; [exact (proj1 (conj wf_freshPlaying I))|]. split; [auto|].
    exact gravity_init.
Qed.

Lemma stateOk_setStatus st g s : stateOk g s -> stateOk g (setStatus st s).
Proof. destruct g, s; cbn; auto. Qed.

Lemma makeMove_new_valid g s p mv s' :
  makeMove g s p mv = Some (NewObject s') -> isValidMove g s p mv = Some true.
Proof.
  destruct g, s as [t|c]; cbn [makeMove isValidMove]; try discriminate.
  - unfold TicTacToe.makeMove. destruct (TicTacToe.isValidMove t p mv);
      [reflexivity | discriminate].
  - unfold Connect4.makeMove.
    destruct (Connect4.isValidMove c p mv) as [[|]|]; cbn [mbind option_bind negb];
      [reflexivity | discriminate | discriminate].
Qed.

Lemma stateOk_move g s p mv s' :
  stateOk g s -> makeMove g s p mv = Some (NewObject s') -> stateOk g s'.
Proof.
  intros (Hwf & Hcp & Hg) Hmm.
  pose proof (makeMove_new_valid _ _ _ _ _ Hmm) as Hvalid.
  destruct (valid_move_turn g s p mv Hwf Hcp Hvalid)
    as (s1 & Hmm1 & Hwf1 & _ & _ & Hturn).
  assert (s1 = s') by congruence. subst s1.
  split; [assumption|]. split.
  - destruct Hturn as [[_ ->] | [_ ->]]; [|assumption].
    destruct Hcp as [-> | ->]; auto.
  - destruct g, s as [t|c], s' as [t'|c']; cbn in Hwf, Hwf1; try contradiction;
      [exact I|].
    cbn [makeMove isValidMove] in Hmm, Hvalid.
    destruct (Connect4.makeMove c p mv) as [[|c1]|] eqn:E;
      cbn [mbind option_bind] in Hmm; try discriminate.
    injection Hmm as ->. apply (c4_gravity_step c p mv c'); assumption.
Qed.

Lemma storeStep_refl h : storeStep h h.
Proof. intros l s g Hl Hok. eauto. Qed.

Lemma storeStep_trans h1 h2 h3 :
  storeStep h1 h2 -> storeStep h2 h3 -> storeStep h1 h3.
Proof.
  intros H12 H23 l s g Hl Hok.
  destruct (H12 l s g Hl Hok) as (s2 & Hl2 & Hok2). eauto.
Qed.

Lemma storeStep_alloc (h : list gstate) s0 : storeStep h (h ++ [s0]).
Proof. intros l s g Hl Hok. exists s. split; [now apply alloc_lookup_old | assumption]. Qed.

Lemma storeStep_alter (h : list gstate) st l0 :
  storeStep h (alter (setStatus st) l0 h).
Proof.
  intros l s g Hl Hok. destruct (decide (l0 = l)) as [->|Hne].
  - exists (setStatus st s). rewrite list_lookup_alter_eq, Hl.
    split; [reflexivity | now apply stateOk_setStatus].
  - exists s. rewrite list_lookup_alter_ne by assumption. auto.
Qed.

Lemma roomOk_mono h h' e : storeStep h h' -> roomOk h e -> roomOk h' e.
Proof.
  intros Hstep (Hid & Hgt & Hlen & Hseats & s & Hs & Hok).
  destruct (Hstep _ _ _ Hs Hok) as (s' & Hs' & Hok').
  repeat (split; [assumption|]). eauto.
Qed.

Lemma Forall_rooms_put (P : string * room -> Prop) (rs : list (string * room)) k v :
  Forall P rs -> P (k, v) -> Forall P (rooms_put rs k v).
Proof.
  intros Hall Hv.
  destruct (rooms_put_split rs k v) as (l1 & l2 & -> & Hcase).
  destruct Hcase as [(old & _ & ->) | (_ & ->)];
    apply Forall_app in Hall as [H1 H2]; apply Forall_app; (split; [assumption|]).
  - apply Forall_cons in H2 as [_ H2]. now constructor.
  - now constructor.
Qed.

Lemma rooms_get_roomOk σ k r :
  serverOk σ -> rooms_get (rooms σ) k = Some r -> roomOk (heap σ) (k, r).
Proof.
  intros [_ Hall] Hr. rewrite Forall_forall in Hall.
  apply Hall. now apply rooms_get_elem.
Qed.

Lemma findIndex_Some {A} (f : A -> bool) (l : list A) i :
  findIndex f l = Some i ->
  exists x, l !! i = Some x /\ f x = true /\ find f l = Some x.
Proof.
  revert i. induction l as [|y l IH]; intros i; cbn [findIndex find]; [discriminate|].
  destruct (f y) eqn:E.
  - intros [= <-]. exists y. auto.
  - destruct (findIndex f l) as [j|]; [|discriminate].
    intros [= <-]. destruct (IH j eq_refl) as (x & Hx & Hfx & Hfind).
    exists x. auto.
Qed.

Lemma disconnectLoop_ok sid (rs : list (string * room)) :
  forall (h : list gstate) rs' h' out,
  Forall (roomOk h) rs ->
  disconnectLoop sid rs h = Some (rs', h', out) ->
  storeStep h h' /\ Forall (roomOk h') rs'.
Proof.
  induction rs as [|[roomId room] rest IH]; intros h rs' h' out Hall;
    cbn [disconnectLoop].
  - intros [= <- <- <-]. split; [apply storeStep_refl | constructor].
  - apply Forall_cons in Hall as [Hroom Hrest].
    destruct (findIndex (isSocket sid) (players room)) as [i|] eqn:Hfind.
    + destruct (players room !! i) as [dp|] eqn:Hdp; [|discriminate].
      destruct (length (players (withPlayers room (delete i (players room)))) =? 0)%nat
        eqn:Hempty.
      * intros [= <- <- <-]. split; [apply storeStep_refl | assumption].
      * destruct (alter (setStatus waiting) (gameState room) h !! gameState room)
          as [s|]; [|discriminate].
        intros [= <- <- <-].
        pose proof (storeStep_alter h waiting (gameState room)) as Hstep.
        split; [assumption|]. constructor.
        -- apply (roomOk_mono h); [assumption|].
           destruct Hroom as (Hid & Hgt & Hlen & Hseats & Hst).
           unfold roomOk.
           cbn [fst snd withPlayers r_id gameType gameInstance players gameState] in *.
           apply Nat.eqb_neq in Hempty.
           pose proof (sublist_delete (players room) i) as Hsub.
           pose proof (sublist_length _ _ Hsub).
           split; [assumption|]. split; [assumption|]. split; [lia|].
           split; [|assumption].
           rewrite Forall_forall in Hseats |- *. intros x Hx. apply Hseats.
           eapply sublist_subseteq; eauto.
        -- eapply Forall_impl; [exact Hrest|]. intros e. now apply roomOk_mono.
    + assert (Hstep : forall room' rs0 h0 out0,
                roomOk h (roomId, room') ->
                disconnectLoop sid rest h = Some (rs0, h0, out0) ->
                storeStep h h0 /\ Forall (roomOk h0) ((roomId, room') :: rs0)).
      { intros room' rs0 h0 out0 Hok Hloop.
        destruct (IH h rs0 h0 out0 Hrest Hloop) as [Hs Hr].
        split; [assumption|]. constructor; [|assumption].
        now apply (roomOk_mono h). }
      destruct (findIndex (isSpectatorSocket sid) (spectators room)) as [j|].
      * destruct (spectators room !! j) as [ds|]; [|discriminate].
        destruct (disconnectLoop sid rest h) as [[[rs0 h0] out0]|] eqn:Hloop;
          [|discriminate].
        intros [= <- <- <-]. eapply Hstep; [|reflexivity]. exact Hroom.
      * destruct (disconnectLoop sid rest h) as [[[rs0 h0] out0]|] eqn:Hloop;
          [|discriminate].
        intros [= <- <- <-]. eapply Hstep; [|reflexivity]. exact Hroom.
Qed.

Lemma handle_ok σ sid ev σ' out :
  serverOk σ -> handle σ sid ev = Some (σ', out) -> serverOk σ'.
Proof.
  intros Hok Hstep. pose proof Hok as [Hinv Hall].
  split; [eapply handle_inv; eauto|].
  destruct ev as [username gt uuid | roomId username | roomId mv | roomId |];
    cbn [handle] in Hstep.
  - unfold onCreateRoom in Hstep.
    destruct (gameTypes _) as [g|] eqn:Hg; [|injection Hstep as <- <-; assumption].
    cbn [alloc] in Hstep. rewrite alloc_lookup_new in Hstep.
    cbn [mbind option_bind] in Hstep. injection Hstep as <- <-. cbn [rooms heap].
    apply Forall_rooms_put.
    + eapply Forall_impl; [exact Hall|]. intros e.
      apply roomOk_mono, storeStep_alloc.
    + unfold roomOk. cbn [fst snd r_id gameType gameInstance players gameState length].
      split; [reflexivity|]. split; [assumption|]. split; [lia|]. split.
      * repeat constructor.
      * exists (init g). split; [apply alloc_lookup_new | apply stateOk_init].
  - unfold onJoinRoom in Hstep.
    destruct (rooms_get (rooms σ) roomId) as [room|] eqn:Hr;
      [|injection Hstep as <- <-; assumption].
    pose proof (rooms_get_roomOk σ roomId room Hok Hr)
      as (Hid & Hgt & Hlen & Hseats & s & Hs & Hsok).
    cbn [fst snd] in *.
    assert (Hmax : getMaxPlayers (gameInstance room) = 2) by (destruct (gameInstance room); reflexivity).
    rewrite Hmax in Hstep.
    destruct (Z.leb_spec 2 (Z.of_nat (length (players room)))).
    + rewrite Hs in Hstep. cbn [mbind option_bind] in Hstep.
      injection Hstep as <- <-. cbn [rooms heap].
      apply Forall_rooms_put; [assumption|].
      unfold roomOk. cbn [fst snd withSpectators r_id gameType gameInstance players gameState].
      repeat (split; [assumption|]). eauto.
    + assert (Hnew : forall h', storeStep (heap σ) h' ->
                roomOk h' (roomId,
                  withPlayers room
                    (players room ++
                     [{| p_id := sid; p_username := username;
                         p_index := Z.of_nat (length (players room));
                         p_info := getPlayerSetup (gameInstance room)
                                     (Z.of_nat (length (players room))) |}]))).
      { intros h' Hh'. destruct (Hh' _ _ _ Hs Hsok) as (s' & Hs' & Hsok').
        unfold roomOk.
        cbn [fst snd withPlayers r_id gameType gameInstance players gameState].
        split; [assumption|]. split; [assumption|].
        split; [rewrite length_app; cbn [length]; lia|]. split.
        - apply Forall_app. split; [assumption|]. constructor; [|constructor].
          split; [cbn [p_index]; lia | reflexivity].
        - eauto. }
      match type of Hstep with context [if ?c then alter _ _ _ else _] =>
        destruct c end.
      * destruct (alter (setStatus playing) (gameState room) (heap σ) !! gameState room);
          cbn [mbind option_bind] in Hstep; [|discriminate].
        injection Hstep as <- <-. cbn [rooms heap].
        pose proof (storeStep_alter (heap σ) playing (gameState room)) as Hh.
        apply Forall_rooms_put; [|now apply Hnew].
        eapply Forall_impl; [exact Hall|]. intros e. now apply roomOk_mono.
      * rewrite Hs in Hstep. cbn [mbind option_bind] in Hstep.
        injection Hstep as <- <-. cbn [rooms heap].
        apply Forall_rooms_put; [assumption|]. apply Hnew, storeStep_refl.
  - unfold onMakeMove in Hstep.
    destruct (rooms_get (rooms σ) roomId) as [room|] eqn:Hr;
      [|injection Hstep as <- <-; assumption].
    destruct (find _ _) as [player|]; [|injection Hstep as <- <-; assumption].
    pose proof (rooms_get_roomOk σ roomId room Hok Hr)
      as (Hid & Hgt & Hlen & Hseats & s & Hs & Hsok).
    cbn [fst snd] in *.
    pose proof (callMakeMove_cases (gameInstance room) (heap σ)
                  (gameState room) (p_index player) mv s Hs) as Hcases.
    destruct (makeMove _ s _ mv) as [[|s']|] eqn:Hmm.
    + rewrite Hcases in Hstep. cbn [mbind option_bind] in Hstep.
      rewrite Nat.eqb_refl in Hstep. cbn [negb] in Hstep.
      injection Hstep as <- <-. assumption.
    + destruct Hcases as [Hcall Hne]. rewrite Hcall in Hstep.
      cbn [mbind option_bind] in Hstep.
      destruct (Nat.eqb_spec (length (heap σ)) (gameState room)); [lia|].
      cbn [negb] in Hstep. rewrite alloc_lookup_new in Hstep.
      cbn [mbind option_bind] in Hstep. injection Hstep as <- <-. cbn [rooms heap].
      apply Forall_rooms_put.
      * eapply Forall_impl; [exact Hall|]. intros e.
        apply roomOk_mono, storeStep_alloc.
      * unfold roomOk.
        cbn [fst snd withGameState r_id gameType gameInstance players gameState].
        repeat (split; [assumption|]). exists s'.
        split; [apply alloc_lookup_new | eapply stateOk_move; eauto].
    + rewrite Hcases in Hstep. discriminate.
  - unfold onResetGame in Hstep.
    destruct (rooms_get (rooms σ) roomId) as [room|] eqn:Hr;
      [|injection Hstep as <- <-; assumption].
    pose proof (rooms_get_roomOk σ roomId room Hok Hr)
      as (Hid & Hgt & Hlen & Hseats & _).
    cbn [fst snd] in *.
    cbn [alloc] in Hstep. rewrite list_lookup_alter_eq, alloc_lookup_new in Hstep.
    cbn [fmap option_fmap option_map mbind option_bind] in Hstep.
    injection Hstep as <- <-. cbn [rooms heap].
    apply Forall_rooms_put.
    + eapply Forall_impl; [exact Hall|]. intros e. apply roomOk_mono.
      eapply storeStep_trans; [apply storeStep_alloc | apply storeStep_alter].
    + unfold roomOk.
      cbn [fst snd withGameState r_id gameType gameInstance players gameState].
      repeat (split; [assumption|]).
      exists (setStatus playing (init (gameInstance room))). split.
      * rewrite list_lookup_alter_eq, alloc_lookup_new. reflexivity.
      * apply stateOk_setStatus, stateOk_init.
  - unfold onDisconnect in Hstep.
    destruct (disconnectLoop sid (rooms σ) (heap σ)) as [[[rs h] o]|] eqn:Hloop;
      cbn [mbind option_bind] in Hstep; [|discriminate].
    injection Hstep as <- <-. cbn [rooms heap].
    eapply disconnectLoop_ok; eauto.
Qed.

Lemma reachable_ok σ : reachable σ -> serverOk σ.
Proof.
  induction 1 as [|σ sid ev σ' out _ IH Hstep].
  - split; [apply inv_empty | constructor].
  - eapply handle_ok; eauto.
Qed.

End ServerShape.

(** ** Exceptions and replies *)

Section ServerReplies.
Import Server.

(** X9. In every state the server can reach, a room is stored under its own
    identifier, its game type names its engine, it has one or two players,
    each with seat index 0 or 1 and the attribute of that index, and its
    game state is an allocated object of its engine's shape (nine cells, or
    seven settled columns of six) whose turn is with seat 0 or 1; no other
    room refers to the same object. *)
Theorem reachable_room_shape σ roomId room :
  reachable σ ->
  rooms_get (rooms σ) roomId = Some room ->
  r_id room = roomId /\
  gameTypes (gameType room) = Some (gameInstance room) /\
  (1 <= length (players room) <= 2)%nat /\
  Forall (seatOk (gameInstance room)) (players room) /\
  (exists s, heap σ !! gameState room = Some s /\
             stateOk (gameInstance room) s) /\
  (forall k r, rooms_get (rooms σ) k = Some r -> k <> roomId ->
     gameState r <> gameState room).
Proof.
  intros Hreach Hroom. pose proof (reachable_ok σ Hreach) as Hok.
  destruct (rooms_get_roomOk σ roomId room Hok Hroom)
    as (Hid & Hgt & Hlen & Hseats & Hst).
  cbn [fst snd] in *. repeat (split; [assumption|]).
  intros k r Hr Hne.
  apply (distinct_rooms_distinct_states σ k roomId r room); try assumption.
  apply Hok.
Qed.





Lemma disconnectLoop_out sid (rs : list (string * room)) :
  forall (h : list gstate) rs' h' out,
  disconnectLoop sid rs h = Some (rs', h', out) ->
  Forall (fun e => exists roomId, fst e = toRoom roomId /\
                     ((exists u i s, snd e = playerDisconnected u i s) \/
                      (exists u, snd e = spectatorLeft u))) out.
Proof.
  induction rs as [|[roomId room] rest IH]; intros h rs' h' out; cbn [disconnectLoop].
  - intros [= <- <- <-]. constructor.
  - destruct (findIndex (isSocket sid) (players room)) as [i|].
    + destruct (players room !! i) as [dp|]; [|discriminate].
      destruct (_ =? 0)%nat; [intros [= <- <- <-]; constructor|].
      destruct (_ !! _) as [s|]; [|discriminate].
      intros [= <- <- <-]. repeat constructor. cbn [fst snd]. eauto 10.
    + destruct (findIndex (isSpectatorSocket sid) (spectators room)) as [j|].
      * destruct (spectators room !! j) as [ds|]; [|discriminate].
        destruct (disconnectLoop sid rest h) as [[[rs0 h0] out0]|] eqn:Hloop;
          [|discriminate].
        intros [= <- <- <-]. constructor; [cbn [fst snd]; eauto 10|].
        eapply IH; eauto.
      * destruct (disconnectLoop sid rest h) as [[[rs0 h0] out0]|] eqn:Hloop;
          [|discriminate].
        intros [= <- <- <-]. eapply IH; eauto.
Qed.

(** X11. Replies and broadcasts are kept apart. An [error] is emitted to the
    sender alone, is the only event of its handler run, and leaves the
    server as it was; [roomCreated], [roomJoined] and [joinedAsSpectator]
    go to the sender alone; every other event goes to a room. *)
Theorem replies_to_sender_broadcasts_to_room σ sid ev σ' out t m :
  handle σ sid ev = Some (σ', out) ->
  (t, m) ∈ out ->
  match m with
  | error _ => t = toSocket /\ σ' = σ /\ out = [(t, m)]
  | roomCreated _ _ _ _ _ | roomJoined _ _ _ _ _ | joinedAsSpectator _ _ _ _ =>
      t = toSocket
  | _ => exists roomId, t = toRoom roomId
  end.
Proof.
  intros Hstep Hin.
  destruct ev as [username gt uuid | roomId username | roomId mv | roomId |];
    cbn [handle] in Hstep.
  - unfold onCreateRoom in Hstep. destruct (gameTypes _).
    + cbn [alloc] in Hstep. rewrite alloc_lookup_new in Hstep.
      cbn [mbind option_bind] in Hstep. injection Hstep as <- <-.
      apply list_elem_of_singleton in Hin. injection Hin as -> ->. reflexivity.
    + injection Hstep as <- <-.
      apply list_elem_of_singleton in Hin. injection Hin as -> ->. auto.
  - unfold onJoinRoom in Hstep.
    destruct (rooms_get (rooms σ) roomId) as [room|].
    2:{ injection Hstep as <- <-.
        apply list_elem_of_singleton in Hin. injection Hin as -> ->. auto. }
    destruct (_ <=? _).
    + destruct (heap σ !! gameState room); cbn [mbind option_bind] in Hstep;
        [|discriminate].
      injection Hstep as <- <-.
      apply elem_of_cons in Hin as [Hin|Hin]; [injection Hin as -> ->; reflexivity|].
      apply list_elem_of_singleton in Hin. injection Hin as -> ->. eauto.
    + match type of Hstep with context [?h !! gameState room] =>
        destruct (h !! gameState room) end; cbn [mbind option_bind] in Hstep;
        [|discriminate].
      injection Hstep as <- <-.
      apply elem_of_cons in Hin as [Hin|Hin]; [injection Hin as -> ->; reflexivity|].
      apply list_elem_of_singleton in Hin. injection Hin as -> ->. eauto.
  - unfold onMakeMove in Hstep.
    destruct (rooms_get (rooms σ) roomId) as [room|].
    2:{ injection Hstep as <- <-. inversion Hin. }
    destruct (find _ _) as [player|].
    2:{ injection Hstep as <- <-. inversion Hin. }
    destruct (callMakeMove _ _ _ _ _) as [[h updated]|];
      cbn [mbind option_bind] in Hstep; [|discriminate].
    destruct (negb _).
    + destruct (h !! updated); cbn [mbind option_bind] in Hstep; [|discriminate].
      injection Hstep as <- <-.
      apply list_elem_of_singleton in Hin. injection Hin as -> ->. eauto.
    + injection Hstep as <- <-. inversion Hin.
  - unfold onResetGame in Hstep.
    destruct (rooms_get (rooms σ) roomId) as [room|].
    2:{ injection Hstep as <- <-. inversion Hin. }
    cbn [alloc] in Hstep.
    destruct (_ !! _); cbn [mbind option_bind] in Hstep; [|discriminate].
    injection Hstep as <- <-.
    apply list_elem_of_singleton in Hin. injection Hin as -> ->. eauto.
  - unfold onDisconnect in Hstep.
    destruct (disconnectLoop sid (rooms σ) (heap σ)) as [[[rs h] o]|] eqn:Hloop;
      cbn [mbind option_bind] in Hstep; [|discriminate].
    injection Hstep as <- <-.
    pose proof (disconnectLoop_out _ _ _ _ _ _ Hloop) as Hout.
    rewrite Forall_forall in Hout.
    destruct (Hout _ Hin) as (roomId & Ht & [(u & i & s & Hm) | (u & Hm)]);
      cbn [fst snd] in *; subst; eauto.
Qed.

End ServerReplies.

(** ** Joining, leaving, and what happens to the game *)

Section ServerLifecycle.
Import Server.

Lemma keys_rooms_get_None (rs : list (string * room)) k :
  k ∉ keys rs -> rooms_get rs k = None.
Proof.
  induction rs as [|[k' r] rs IH]; cbn [rooms_get]; [reflexivity|].
  unfold keys. cbn. intros Hnot. apply not_elem_of_cons in Hnot as [Hne Hnot].
  destruct (String.eqb k' k) eqn:E; [|now apply IH].
  apply String_eqb_eq in E. congruence.
Qed.

Lemma find_findIndex {A} (f : A -> bool) (l : list A) x :
  find f l = Some x -> exists i, findIndex f l = Some i /\ l !! i = Some x.
Proof.
  induction l as [|y l IH]; cbn [find findIndex]; [discriminate|].
  destruct (f y).
  - intros [= <-]. exists O. auto.
  - intros H. destruct (IH H) as (i & -> & Hi). exists (S i). auto.
Qed.

Lemma setStatus_setStatus st st' s : setStatus st (setStatus st' s) = setStatus st s.
Proof. destruct s; reflexivity. Qed.

Lemma freeCells_setStatus st s : freeCells (setStatus st s) = freeCells s.
Proof. destruct s; reflexivity. Qed.

(** The disconnect loop when the socket is seated in one room only. *)
Lemma disconnectLoop_seated sid roomId room i dp s (h : list gstate) :
  findIndex (isSocket sid) (players room) = Some i ->
  players room !! i = Some dp ->
  h !! gameState room = Some s ->
  forall rs : list (string * Server.room),
  NoDup (keys rs) ->
  (roomId, room) ∈ rs ->
  (forall k r, (k, r) ∈ rs -> k <> roomId ->
     findIndex (isSocket sid) (players r) = None) ->
  exists rs' h' out,
    disconnectLoop sid rs h = Some (rs', h', out) /\
    (forall k r, k <> roomId -> rooms_get rs k = Some r ->
       exists r', rooms_get rs' k = Some r' /\ players r' = players r /\
                  gameState r' = gameState r /\
                  gameInstance r' = gameInstance r) /\
    ((delete i (players room) = [] /\ h' = h /\ rooms_get rs' roomId = None) \/
     (delete i (players room) <> [] /\
      h' = alter (setStatus waiting) (gameState room) h /\
      rooms_get rs' roomId = Some (withPlayers room (delete i (players room))) /\
      (toRoom roomId,
       playerDisconnected (p_username dp) (p_index dp) (setStatus waiting s)) ∈ out)).
Proof.
  intros Hfind Hdp Hs.
  induction rs as [|[k0 r0] rest IH]; intros Hnd Hin Hothers.
  - inversion Hin.
  - unfold keys in Hnd. cbn in Hnd. apply NoDup_cons in Hnd as [Hnotin Hnd].
    destruct (decide (k0 = roomId)) as [->|Hne].
    + assert (r0 = room).
      { apply elem_of_cons in Hin as [[= ->]|Hin]; [reflexivity|].
        exfalso. apply Hnotin. apply list_elem_of_fmap. exists (roomId, room). auto. }
      subst r0. cbn [disconnectLoop]. rewrite Hfind, Hdp.
      cbn [players withPlayers].
      assert (Hrest : forall k r, k <> roomId ->
                rooms_get ((roomId, room) :: rest) k = Some r ->
                rooms_get rest k = Some r).
      { intros k r Hk. cbn [rooms_get].
        destruct (String.eqb roomId k) eqn:E; [|auto].
        apply String_eqb_eq in E. congruence. }
      destruct (length (delete i (players room)) =? 0)%nat eqn:Hlen.
      * apply Nat.eqb_eq, length_zero_iff_nil in Hlen.
        exists rest, h, []. split; [reflexivity|]. split.
        -- intros k r Hk Hr. exists r. split; [now apply Hrest | auto].
        -- left. split; [assumption|]. split; [reflexivity|].
           now apply keys_rooms_get_None.
      * apply Nat.eqb_neq in Hlen.
        rewrite list_lookup_alter_eq, Hs. cbn [fmap option_fmap option_map].
        eexists _, _, _. split; [reflexivity|]. split.
        -- intros k r Hk Hr. exists r. cbn [rooms_get].
           destruct (String.eqb roomId k) eqn:E;
             [apply String_eqb_eq in E; congruence|].
           split; [now apply Hrest | auto].
        -- right. split; [intros E; rewrite E in Hlen; now apply Hlen|].
           split; [reflexivity|]. split.
           ++ cbn [rooms_get]. now rewrite String.eqb_refl.
           ++ left.
    + assert (Hin' : (roomId, room) ∈ rest).
      { apply elem_of_cons in Hin as [[= -> ->]|Hin]; [congruence | assumption]. }
      assert (Hnone : findIndex (isSocket sid) (players r0) = None)
        by (apply (Hothers k0 r0); [left | assumption]).
      destruct (IH Hnd Hin') as (rs' & h' & out & Hloop & Hkeep & Hcase).
      { intros k r Hkr Hk. apply (Hothers k r); [now right | assumption]. }
      assert (Hk0 : String.eqb k0 roomId = false).
      { apply not_true_iff_false. rewrite String_eqb_eq. assumption. }
      assert (Hgen : forall r1 (o : list emit),
                players r1 = players r0 -> gameState r1 = gameState r0 ->
                gameInstance r1 = gameInstance r0 ->
                (forall e, e ∈ out -> e ∈ o) ->
                (forall k r, k <> roomId ->
                   rooms_get ((k0, r0) :: rest) k = Some r ->
                   exists r', rooms_get ((k0, r1) :: rs') k = Some r' /\
                              players r' = players r /\
                              gameState r' = gameState r /\
                              gameInstance r' = gameInstance r) /\
                ((delete i (players room) = [] /\ h' = h /\
                  rooms_get ((k0, r1) :: rs') roomId = None) \/
                 (delete i (players room) <> [] /\
                  h' = alter (setStatus waiting) (gameState room) h /\
                  rooms_get ((k0, r1) :: rs') roomId
                    = Some (withPlayers room (delete i (players room))) /\
                  (toRoom roomId,
                   playerDisconnected (p_username dp) (p_index dp)
                     (setStatus waiting s)) ∈ o))).
      { intros r1 o Hp1 Hg1 Hi1 Hsub. split.
        - intros k r Hk. cbn [rooms_get].
          destruct (String.eqb k0 k); [intros [= <-]; eauto | now apply Hkeep].
        - cbn [rooms_get]. rewrite Hk0.
          destruct Hcase as [(E & Hh & Hr) | (E & Hh & Hr & Ho)]; [left | right]; auto. }
      cbn [disconnectLoop]. rewrite Hnone.
      destruct (findIndex (isSpectatorSocket sid) (spectators r0)) as [j|] eqn:Hj.
      * destruct (findIndex_Some _ _ _ Hj) as (ds & -> & _). rewrite Hloop.
        eexists _, _, _. split; [reflexivity|].
        apply Hgen; try reflexivity. intros e He. now right.
      * rewrite Hloop. eexists _, _, _. split; [reflexivity|].
        apply Hgen; try reflexivity. auto.
Qed.

(** The same at the level of the handler. *)
Lemma disconnect_seated σ sid roomId room dp s :
  serverOk σ ->
  rooms_get (rooms σ) roomId = Some room ->
  find (isSocket sid) (players room) = Some dp ->
  heap σ !! gameState room = Some s ->
  seatedOnlyIn σ sid roomId ->
  exists i σ' out,
    findIndex (isSocket sid) (players room) = Some i /\
    players room !! i = Some dp /\
    handle σ sid disconnect = Some (σ', out) /\
    (forall k r, k <> roomId -> rooms_get (rooms σ) k = Some r ->
       exists r', rooms_get (rooms σ') k = Some r' /\ players r' = players r /\
                  gameState r' = gameState r /\
                  gameInstance r' = gameInstance r) /\
    ((delete i (players room) = [] /\ heap σ' = heap σ /\
      rooms_get (rooms σ') roomId = None) \/
     (delete i (players room) <> [] /\
      heap σ' = alter (setStatus waiting) (gameState room) (heap σ) /\
      rooms_get (rooms σ') roomId
        = Some (withPlayers room (delete i (players room))) /\
      (toRoom roomId,
       playerDisconnected (p_username dp) (p_index dp) (setStatus waiting s)) ∈ out)).
Proof.
  intros [[Hk _ _] _] Hroom Hseat Hs Honly.
  destruct (find_findIndex _ _ _ Hseat) as (i & Hfind & Hdp).
  destruct (disconnectLoop_seated sid roomId room i dp s (heap σ) Hfind Hdp Hs
              (rooms σ) Hk (rooms_get_elem _ _ _ Hroom))
    as (rs' & h' & out & Hloop & Hkeep & Hcase).
  { intros k r Hin Hne. apply findIndex_find. apply (Honly k r); [|assumption].
    now apply elem_rooms_get. }
  exists i, {| rooms := rs'; heap := h' |}, out.
  split; [assumption|]. split; [assumption|]. split.
  { cbn [handle]. unfold onDisconnect. rewrite Hloop. reflexivity. }
  split; [exact Hkeep | exact Hcase].
Qed.

(** X12. When the last player of a room disconnects, the room is removed
    from the table, the store is not touched, every other room keeps its
    players and state, and a later join under the room's identifier is
    answered with "Room not found" and changes nothing. *)
Theorem last_player_leaves_room_deleted σ sid roomId room dp :
  reachable σ ->
  rooms_get (rooms σ) roomId = Some room ->
  players room = [dp] -> p_id dp = sid ->
  seatedOnlyIn σ sid roomId ->
  exists σ' out,
    handle σ sid disconnect = Some (σ', out) /\
    rooms_get (rooms σ') roomId = None /\
    heap σ' = heap σ /\
    (forall k r, k <> roomId -> rooms_get (rooms σ) k = Some r ->
       exists r', rooms_get (rooms σ') k = Some r' /\ players r' = players r /\
                  gameState r' = gameState r) /\
    (forall sid' username,
       handle σ' sid' (joinRoom roomId username)
       = Some (σ', [(toSocket, error "Room not found")])).
Proof.
  intros Hreach Hroom Hplayers Hid Honly.
  pose proof (reachable_ok σ Hreach) as Hok.
  destruct (rooms_get_roomOk σ roomId room Hok Hroom) as (_ & _ & _ & _ & s & Hs & _).
  cbn [snd] in Hs.
  assert (Hseat : find (isSocket sid) (players room) = Some dp).
  { rewrite Hplayers. cbn [find]. unfold isSocket. rewrite Hid, String.eqb_refl.
    reflexivity. }
  destruct (disconnect_seated σ sid roomId room dp s Hok Hroom Hseat Hs Honly)
    as (i & σ' & out & Hfind & Hdp & Hstep & Hkeep & Hcase).
  assert (i = O).
  { rewrite Hplayers in Hfind. cbn [findIndex] in Hfind. unfold isSocket in Hfind.
    rewrite Hid, String.eqb_refl in Hfind. congruence. }
  subst i. rewrite Hplayers in Hcase. cbn in Hcase.
  destruct Hcase as [(_ & Hh & Hr) | (Hne & _)]; [|congruence].
  exists σ', out. split; [assumption|]. split; [assumption|]. split; [assumption|].
  split.
  - intros k r Hk Hkr. destruct (Hkeep k r Hk Hkr) as (r' & H1 & H2 & H3 & _). eauto.
  - intros sid' username. cbn [handle]. unfold onJoinRoom. now rewrite Hr.
Qed.

(** X13. When one of two seated players disconnects, the room stays with
    the other player, its spectators as before, the status of its game
    state is set to [waiting] while board, turn, winner and highlight stay,
    and the room is told with that state. *)
Theorem player_leaves_room_waits σ sid roomId room dp s :
  reachable σ ->
  rooms_get (rooms σ) roomId = Some room ->
  find (isSocket sid) (players room) = Some dp ->
  length (players room) = 2%nat ->
  heap σ !! gameState room = Some s ->
  seatedOnlyIn σ sid roomId ->
  exists i σ' out room',
    players room !! i = Some dp /\
    handle σ sid disconnect = Some (σ', out) /\
    rooms_get (rooms σ') roomId = Some room' /\
    players room' = delete i (players room) /\
    length (players room') = 1%nat /\
    spectators room' = spectators room /\
    gameState room' = gameState room /\
    heap σ' !! gameState room' = Some (setStatus waiting s) /\
    (toRoom roomId,
     playerDisconnected (p_username dp) (p_index dp) (setStatus waiting s)) ∈ out.
Proof.
  intros Hreach Hroom Hseat Hlen Hs Honly.
  pose proof (reachable_ok σ Hreach) as Hok.
  destruct (disconnect_seated σ sid roomId room dp s Hok Hroom Hseat Hs Honly)
    as (i & σ' & out & Hfind & Hdp & Hstep & _ & Hcase).
  assert (Hdel : length (delete i (players room)) = 1%nat).
  { pose proof (lookup_lt_Some _ _ _ Hdp). rewrite length_delete by eauto. lia. }
  destruct Hcase as [(E & _) | (_ & Hh & Hr & Hout)].
  { rewrite E in Hdel. discriminate. }
  exists i, σ', out, (withPlayers room (delete i (players room))).
  split; [assumption|]. split; [assumption|]. split; [assumption|].
  cbn [withPlayers players spectators gameState].
  split; [reflexivity|]. split; [assumption|]. split; [reflexivity|].
  split; [reflexivity|]. split; [|assumption].
  rewrite Hh, list_lookup_alter_eq, Hs. reflexivity.
Qed.

Lemma getMaxPlayers_2 g : getMaxPlayers g = 2.
Proof. destruct g; reflexivity. Qed.

(** A join of a room with one seated player. *)
Lemma join_second σ sid roomId username room s :
  rooms_get (rooms σ) roomId = Some room ->
  length (players room) = 1%nat ->
  heap σ !! gameState room = Some s ->
  handle σ sid (joinRoom roomId username) =
  Some ({| rooms := rooms_put (rooms σ) roomId
                      (withPlayers room
                         (players room ++
                          [secondSeat (gameInstance room) sid username]));
           heap := alter (setStatus playing) (gameState room) (heap σ) |},
        [(toSocket, roomJoined roomId (gameType room) 1
                      (getPlayerSetup (gameInstance room) 1)
                      (setStatus playing s));
         (toRoom roomId,
          gameStart (setStatus playing s)
            (players room ++ [secondSeat (gameInstance room) sid username]))]).
Proof.
  intros Hroom Hlen Hs. cbn [handle]. unfold onJoinRoom.
  rewrite Hroom, getMaxPlayers_2, Hlen. cbn [Z.of_nat Z.leb Z.compare Pos.compare
    Pos.compare_cont Pos.of_succ_nat].
  cbn [withPlayers players]. rewrite length_app, Hlen. cbn [length Nat.add].
  change (2 <=? Z.of_nat 2) with true. cbn match.
  rewrite list_lookup_alter_eq, Hs. reflexivity.
Qed.

(** A join of a room with two seated players. *)
Lemma join_full σ sid roomId username room s :
  rooms_get (rooms σ) roomId = Some room ->
  length (players room) = 2%nat ->
  heap σ !! gameState room = Some s ->
  handle σ sid (joinRoom roomId username) =
  Some ({| rooms := rooms_put (rooms σ) roomId
                      (withSpectators room
                         (spectators room ++
                          [{| s_id := sid; s_username := username |}]));
           heap := heap σ |},
        [(toSocket, joinedAsSpectator roomId (gameType room) s (players room));
         (toRoom roomId, spectatorJoined username)]).
Proof.
  intros Hroom Hlen Hs. cbn [handle]. unfold onJoinRoom.
  rewrite Hroom, getMaxPlayers_2, Hlen. change (2 <=? Z.of_nat 2) with true.
  cbn match. rewrite Hs. reflexivity.
Qed.

(** X14. A join of an existing room is never refused. With one player
    seated the joiner gets seat 1 and the game's status becomes [playing];
    with two seated the joiner becomes a spectator and neither the players
    nor the game state change. In a reachable state there is no third case. *)
Theorem join_seats_or_spectates σ sid roomId username room s :
  reachable σ ->
  rooms_get (rooms σ) roomId = Some room ->
  heap σ !! gameState room = Some s ->
  exists σ' out room',
    handle σ sid (joinRoom roomId username) = Some (σ', out) /\
    rooms_get (rooms σ') roomId = Some room' /\
    gameState room' = gameState room /\
    ((length (players room) = 1%nat /\
      players room' = players room ++ [secondSeat (gameInstance room) sid username] /\
      spectators room' = spectators room /\
      heap σ' !! gameState room' = Some (setStatus playing s) /\
      out = [(toSocket, roomJoined roomId (gameType room) 1
                          (getPlayerSetup (gameInstance room) 1)
                          (setStatus playing s));
             (toRoom roomId, gameStart (setStatus playing s) (players room'))]) \/
     (length (players room) = 2%nat /\
      players room' = players room /\
      spectators room' =
        spectators room ++ [{| s_id := sid; s_username := username |}] /\
      heap σ' = heap σ /\
      out = [(toSocket, joinedAsSpectator roomId (gameType room) s (players room));
             (toRoom roomId, spectatorJoined username)])).
Proof.
  intros Hreach Hroom Hs.
  destruct (rooms_get_roomOk σ roomId room (reachable_ok σ Hreach) Hroom)
    as (_ & _ & Hlen & _).
  cbn [snd] in Hlen.
  assert (Hcases : length (players room) = 1%nat \/ length (players room) = 2%nat)
    by lia.
  destruct Hcases as [H1 | H2].
  - eexists _, _, _. split; [exact (join_second σ sid roomId username room s Hroom H1 Hs)|]. cbn [rooms heap].
    split; [apply rooms_get_put_eq|]. cbn [withPlayers gameState players spectators].
    split; [reflexivity|]. left. split; [assumption|]. split; [reflexivity|].
    split; [reflexivity|]. split; [|reflexivity].
    now rewrite list_lookup_alter_eq, Hs.
  - eexists _, _, _. split; [exact (join_full σ sid roomId username room s Hroom H2 Hs)|]. cbn [rooms heap].
    split; [apply rooms_get_put_eq|]. cbn [withSpectators gameState players spectators].
    split; [reflexivity|]. right. auto.
Qed.

(** A player of a full room leaves and a newcomer joins. *)
Lemma leave_then_join σ sid sid2 username roomId room dp s :
  serverOk σ ->
  rooms_get (rooms σ) roomId = Some room ->
  find (isSocket sid) (players room) = Some dp ->
  length (players room) = 2%nat ->
  heap σ !! gameState room = Some s ->
  seatedOnlyIn σ sid roomId ->
  exists i σ1 out1 σ2 out2 room2,
    findIndex (isSocket sid) (players room) = Some i /\
    handle σ sid disconnect = Some (σ1, out1) /\
    handle σ1 sid2 (joinRoom roomId username) = Some (σ2, out2) /\
    rooms_get (rooms σ2) roomId = Some room2 /\
    players room2 =
      delete i (players room) ++ [secondSeat (gameInstance room) sid2 username] /\
    gameInstance room2 = gameInstance room /\
    gameState room2 = gameState room /\
    heap σ2 !! gameState room2 = Some (setStatus playing s).
Proof.
  intros Hok Hroom Hseat Hlen Hs Honly.
  destruct (disconnect_seated σ sid roomId room dp s Hok Hroom Hseat Hs Honly)
    as (i & σ1 & out1 & Hfind & Hdp & Hstep & _ & Hcase).
  assert (Hdel : length (delete i (players room)) = 1%nat).
  { pose proof (lookup_lt_Some _ _ _ Hdp). rewrite length_delete by eauto. lia. }
  destruct Hcase as [(E & _) | (_ & Hh & Hr & _)].
  { rewrite E in Hdel. discriminate. }
  assert (Hs1 : heap σ1 !! gameState (withPlayers room (delete i (players room)))
                = Some (setStatus waiting s)).
  { cbn [withPlayers gameState]. now rewrite Hh, list_lookup_alter_eq, Hs. }
  pose proof (join_second σ1 sid2 roomId username _ _ Hr Hdel Hs1) as Hjoin.
  eexists i, σ1, out1, _, _, _. split; [assumption|]. split; [assumption|].
  split; [exact Hjoin|]. cbn [rooms heap].
  split; [apply rooms_get_put_eq|].
  cbn [withPlayers players gameInstance gameState].
  split; [reflexivity|]. split; [reflexivity|]. split; [reflexivity|].
  rewrite list_lookup_alter_eq, Hh, list_lookup_alter_eq, Hs.
  cbn [fmap option_fmap option_map]. now rewrite setStatus_setStatus.
Qed.

(** X15. A disconnect followed by a join puts a game back into play as it
    stands: the newcomer gets seat index 1 whichever seat was left, and the
    status becomes [playing] whatever it was, also when the game had been
    won or drawn, while board, turn, winner and highlight stay. *)
Theorem leave_then_join_resumes σ sid sid2 username roomId room dp s :
  reachable σ ->
  rooms_get (rooms σ) roomId = Some room ->
  find (isSocket sid) (players room) = Some dp ->
  length (players room) = 2%nat ->
  heap σ !! gameState room = Some s ->
  seatedOnlyIn σ sid roomId ->
  exists i σ1 out1 σ2 out2 room2,
    players room !! i = Some dp /\
    handle σ sid disconnect = Some (σ1, out1) /\
    handle σ1 sid2 (joinRoom roomId username) = Some (σ2, out2) /\
    rooms_get (rooms σ2) roomId = Some room2 /\
    players room2 =
      delete i (players room) ++ [secondSeat (gameInstance room) sid2 username] /\
    heap σ2 !! gameState room2 = Some (setStatus playing s) /\
    statusOf (setStatus playing s) = playing /\
    occupiedKept s (setStatus playing s) /\
    currentPlayerOf (setStatus playing s) = currentPlayerOf s.
Proof.
  intros Hreach Hroom Hseat Hlen Hs Honly.
  destruct (leave_then_join σ sid sid2 username roomId room dp s
              (reachable_ok σ Hreach) Hroom Hseat Hlen Hs Honly)
    as (i & σ1 & out1 & σ2 & out2 & room2 & Hfind & H1 & H2 & Hr2 & Hp2 & _ & _ & Hs2).
  destruct (findIndex_Some _ _ _ Hfind) as (x & Hx & _ & Hfx).
  assert (x = dp) by congruence. subst x.
  exists i, σ1, out1, σ2, out2, room2.
  repeat (split; [assumption|]).
  destruct s; cbn; auto.
Qed.

Lemma off_turn_same g s p mv :
  stateOk g s -> currentPlayerOf s <> p -> makeMove g s p mv = Some SameObject.
Proof.
  intros (Hwf & _ & _) Hne. apply invalid_move_same_object.
  destruct g, s as [t|c]; cbn in Hwf; try contradiction;
    cbn [isValidMove currentPlayerOf] in *.
  - unfold TicTacToe.isValidMove.
    destruct (Z.eqb_spec (TicTacToe.currentPlayer t) p); [contradiction | reflexivity].
  - unfold Connect4.isValidMove.
    destruct (Z.eqb_spec (Connect4.currentPlayer c) p); [contradiction | reflexivity].
Qed.

(** X16. When the player in seat 0 leaves a full room and a newcomer joins,
    both seated players have index 1. If the turn is with seat 0, no move
    from any socket is accepted from then on: every [makeMove] event on
    the room leaves the server as it is and emits nothing. *)
Theorem seat_zero_left_no_one_moves σ sid sid2 username roomId room a b s :
  reachable σ ->
  rooms_get (rooms σ) roomId = Some room ->
  players room = [a; b] -> p_id a = sid -> p_index b = 1 ->
  heap σ !! gameState room = Some s ->
  currentPlayerOf s = 0 ->
  seatedOnlyIn σ sid roomId ->
  exists σ1 out1 σ2 out2 room2,
    handle σ sid disconnect = Some (σ1, out1) /\
    handle σ1 sid2 (joinRoom roomId username) = Some (σ2, out2) /\
    rooms_get (rooms σ2) roomId = Some room2 /\
    players room2 = [b; secondSeat (gameInstance room) sid2 username] /\
    Forall (fun pl => p_index pl = 1) (players room2) /\
    (forall sid' mv, handle σ2 sid' (makeMoveEv roomId mv) = Some (σ2, [])).
Proof.
  intros Hreach Hroom Hplayers Hid Hb Hs Hcp Honly.
  pose proof (reachable_ok σ Hreach) as Hok.
  assert (Hseat : find (isSocket sid) (players room) = Some a).
  { rewrite Hplayers. cbn [find]. unfold isSocket. now rewrite Hid, String.eqb_refl. }
  assert (Hlen : length (players room) = 2%nat) by now rewrite Hplayers.
  destruct (leave_then_join σ sid sid2 username roomId room a s
              Hok Hroom Hseat Hlen Hs Honly)
    as (i & σ1 & out1 & σ2 & out2 & room2 & Hfind & H1 & H2 & Hr2 & Hp2 & Hg2 & Hl2 & Hs2).
  assert (i = O).
  { rewrite Hplayers in Hfind. cbn [findIndex] in Hfind. unfold isSocket in Hfind.
    rewrite Hid, String.eqb_refl in Hfind. congruence. }
  subst i. rewrite Hplayers in Hp2. cbn in Hp2.
  assert (Hall : Forall (fun pl => p_index pl = 1) (players room2)).
  { rewrite Hp2. repeat constructor. assumption. }
  exists σ1, out1, σ2, out2, room2.
  repeat (split; [assumption|]).
  intros sid' mv. cbn [handle]. unfold onMakeMove. rewrite Hr2.
  destruct (find (isSocket sid') (players room2)) as [pl|] eqn:Hpl; [|reflexivity].
  assert (Hidx : p_index pl = 1).
  { apply find_some in Hpl as [Hin _]. rewrite Forall_forall in Hall.
    apply Hall. now apply list_elem_of_In. }
  destruct (rooms_get_roomOk σ roomId room Hok Hroom) as (_ & _ & _ & _ & s0 & Hs0 & Hsok).
  cbn [snd] in Hs0, Hsok. assert (s0 = s) by congruence. subst s0.
  assert (Hmm : makeMove (gameInstance room2) (setStatus playing s) (p_index pl) mv
                = Some SameObject).
  { rewrite Hg2. apply off_turn_same; [now apply stateOk_setStatus|].
    rewrite Hidx. destruct s; cbn in *; lia. }
  unfold callMakeMove. rewrite Hs2. cbn [mbind option_bind]. rewrite Hmm.
  cbn [mbind option_bind]. rewrite Nat.eqb_refl. cbn [negb]. now destruct σ2.
Qed.

(** X17. The number of pieces on a room's board changes in three ways
    only: a reset of the room, the creation of a room under the same
    identifier, or a move sent by a socket seated in the room whose seat
    index is the current player's while the status is [playing]; such a
    move adds exactly one piece and leaves the occupied cells as they
    are. *)
Theorem pieces_change_by_valid_move_only
        σ sid ev σ' out roomId room room' s s' :
  reachable σ ->
  handle σ sid ev = Some (σ', out) ->
  rooms_get (rooms σ) roomId = Some room ->
  heap σ !! gameState room = Some s ->
  rooms_get (rooms σ') roomId = Some room' ->
  heap σ' !! gameState room' = Some s' ->
  freeCells s' <> freeCells s ->
  ev = resetGame roomId \/
  (exists u gt uuid, ev = createRoom u gt uuid /\ substring 0 6 uuid = roomId) \/
  (exists mv player,
     ev = makeMoveEv roomId mv /\
     find (isSocket sid) (players room) = Some player /\
     p_index player = currentPlayerOf s /\
     statusOf s = playing /\
     (freeCells s' + 1 = freeCells s)%nat /\
     occupiedKept s s').
Proof.
  intros Hreach Hstep Hroom Hs Hroom' Hs' Hdiff.
  pose proof (reachable_ok σ Hreach) as Hok.
  destruct (rooms_get_roomOk σ roomId room Hok Hroom) as (_ & _ & _ & _ & s0 & Hs0 & Hsok).
  cbn [snd] in Hs0, Hsok. assert (s0 = s) by congruence. subst s0.
  destruct (handle_effect σ sid ev σ' out roomId room s (proj1 Hok) Hstep Hroom Hs)
    as [(Hnone & _) | (r1 & s1 & Hr1 & Hs1 & Hcase)]; [congruence|].
  assert (r1 = room') by congruence. subst r1.
  assert (s1 = s') by congruence. subst s1.
  destruct Hcase as [[_ ->] | [(mv & pl & -> & Hp & Hmm) | [(u & gt & uuid & -> & Hid & _)
    | [[-> _] | [(u & -> & ->) | (-> & _ & ->)]]]]];
    rewrite ?freeCells_setStatus in Hdiff; try congruence; eauto 10.
  right. right. exists mv, pl.
  pose proof (makeMove_new_valid _ _ _ _ _ Hmm) as Hvalid.
  destruct Hsok as (Hwf & Hcp & _).
  destruct (valid_move_turn _ s _ mv Hwf Hcp Hvalid) as (sa & Hmma & _ & Hpi & Hst & _).
  destruct (valid_move_fills _ s _ mv Hwf Hvalid) as (sb & Hmmb & _ & Hcount & Hkept).
  assert (sb = s') by congruence. subst sb. auto 10.
Qed.


End ServerLifecycle.

(** ** A socket seated in several rooms *)

Section StaleSeats.
Import Server.

(** The loop over the rooms up to and including the first room in which
    the socket holds a seat; the rooms after it are handed back as they
    were. *)
Lemma disconnectLoop_first sid roomId room i dp s rs2 (h : list gstate) :
  findIndex (isSocket sid) (players room) = Some i ->
  players room !! i = Some dp ->
  h !! gameState room = Some s ->
  forall rs1 : list (string * Server.room),
  (forall k r, (k, r) ∈ rs1 -> findIndex (isSocket sid) (players r) = None) ->
  exists rs1' mid h' (out : list emit),
    disconnectLoop sid (rs1 ++ (roomId, room) :: rs2) h
    = Some (rs1' ++ mid ++ rs2, h', out) /\
    (h' = h \/ h' = alter (setStatus waiting) (gameState room) h).
Proof.
  intros Hfind Hdp Hs.
  induction rs1 as [|[k0 r0] rs1 IH]; intros Hnone.
  - cbn [app disconnectLoop]. rewrite Hfind, Hdp. cbn [players withPlayers].
    destruct (length (delete i (players room)) =? 0)%nat.
    + exists [], [], h, []. split; [reflexivity | now left].
    + rewrite list_lookup_alter_eq, Hs. cbn [fmap option_fmap option_map].
      eexists [], [_], _, _. split; [reflexivity | now right].
  - rewrite <- app_comm_cons. cbn [disconnectLoop].
    rewrite (Hnone k0 r0) by left.
    destruct IH as (rs1' & mid & h' & out & Hloop & Hh).
    { intros k r Hin. apply (Hnone k r). now right. }
    rewrite Hloop.
    destruct (findIndex (isSpectatorSocket sid) (spectators r0)) as [j|] eqn:Hj.
    + destruct (findIndex_Some _ _ _ Hj) as (x & Hx & _). rewrite Hx.
      eexists (_ :: rs1'), mid, h', _. split; [reflexivity | assumption].
    + eexists (_ :: rs1'), mid, h', _. split; [reflexivity | assumption].
Qed.

(** X19. The disconnect loop stops at the first room, in the order in which
    the table is enumerated, in which the socket holds a seat. Every room
    after it stays exactly as it was, with its players, its spectators and
    its game state: a seat the socket holds there is not given up, and
    that game is not set to [waiting]. *)
Theorem disconnect_stops_at_first_seat σ sid rs1 roomId room rs2 dp :
  reachable σ ->
  rooms σ = rs1 ++ (roomId, room) :: rs2 ->
  find (isSocket sid) (players room) = Some dp ->
  (forall k r, (k, r) ∈ rs1 -> find (isSocket sid) (players r) = None) ->
  exists σ' out,
    handle σ sid disconnect = Some (σ', out) /\
    forall k r, (k, r) ∈ rs2 ->
      rooms_get (rooms σ') k = Some r /\
      heap σ' !! gameState r = heap σ !! gameState r.
Proof.
  intros Hreach Hrooms Hseat Hnone.
  pose proof (reachable_ok σ Hreach) as Hok. pose proof (proj1 Hok) as Hinv.
  assert (Hroom : rooms_get (rooms σ) roomId = Some room).
  { apply elem_rooms_get; [apply Hinv|]. rewrite Hrooms.
    apply elem_of_app. right. left. }
  destruct (rooms_get_roomOk σ roomId room Hok Hroom) as (_ & _ & _ & _ & s & Hs & _).
  cbn [snd] in Hs.
  destruct (find_findIndex _ _ _ Hseat) as (i & Hfind & Hdp).
  destruct (disconnectLoop_first sid roomId room i dp s rs2 (heap σ) Hfind Hdp Hs rs1)
    as (rs1' & mid & h' & out & Hloop & Hh).
  { intros k r Hin. apply findIndex_find. now apply (Hnone k r). }
  assert (Hstep : handle σ sid disconnect
                  = Some ({| rooms := rs1' ++ mid ++ rs2; heap := h' |}, out)).
  { cbn [handle]. unfold onDisconnect. rewrite Hrooms, Hloop. reflexivity. }
  eexists _, _. split; [exact Hstep|]. intros k r Hin.
  pose proof (handle_inv _ _ _ _ _ Hinv Hstep) as [Hk' _ _].
  cbn [rooms heap] in *. split.
  - apply elem_rooms_get; [assumption|]. rewrite !elem_of_app. auto.
  - destruct Hh as [-> | ->]; [reflexivity|].
    apply list_lookup_alter_ne. intros E.
    destruct Hinv as [_ Hl _]. unfold locs in Hl.
    rewrite Hrooms, fmap_app, fmap_cons in Hl.
    apply NoDup_app in Hl as (_ & _ & Hl).
    apply NoDup_cons in Hl as [Hnotin _]. apply Hnotin.
    apply list_elem_of_fmap. exists (k, r). cbn [snd]. auto.
Qed.

End StaleSeats.

(** * The engine and the first version of the server *)

Section TwoVersions.

Lemma cellValue_get b k : js_get (cellValue <$> b) k = cellValue (Legacy.get b k).
Proof.
  destruct k as [i|]; [|reflexivity]. unfold js_get, Legacy.get, elem.
  destruct (i <? 0); [reflexivity|]. rewrite list_lookup_fmap.
  now destruct (b !! Z.to_nat i).
Qed.

Lemma cellValue_strict_eq a b :
  strict_eq (cellValue a) (cellValue b) = Legacy.strict_eq a b.
Proof. destruct a as [| |[|]], b as [| |[|]]; reflexivity. Qed.

Lemma cellValue_repeat n :
  cellValue <$> repeat Legacy.CUndefined n = repeat JUndefined n.
Proof. induction n as [|n IH]; [reflexivity|]. cbn [repeat]. now rewrite fmap_cons, IH. Qed.

Lemma cellValue_set b k v :
  js_set (cellValue <$> b) k (cellValue v) = cellValue <$> Legacy.set b k v.
Proof.
  destruct k as [i|]; [|reflexivity]. unfold js_set, Legacy.set.
  destruct (i <? 0); [reflexivity|]. cbv zeta. rewrite length_fmap.
  destruct (Z.to_nat i <? length b)%nat.
  - now rewrite list_fmap_insert.
  - rewrite !fmap_app, cellValue_repeat. reflexivity.
Qed.

Lemma cellValue_includesNull b :
  TicTacToe.includesNull (cellValue <$> b) = Legacy.includesNull b.
Proof.
  unfold TicTacToe.includesNull, Legacy.includesNull.
  induction b as [|c b IH]; [reflexivity|]. cbn [fmap list_fmap existsb].
  change (list_fmap _ _ cellValue b) with (cellValue <$> b). rewrite IH.
  f_equal. apply (cellValue_strict_eq c Legacy.CNull).
Qed.

Lemma legacy_get_defined b i :
  legacyWf b -> 0 <= i < 9 -> Legacy.get b (Some i) <> Legacy.CUndefined.
Proof.
  intros [Hlen Hall] Hi. unfold Legacy.get, elem.
  destruct (Z.ltb_spec i 0); [lia|].
  destruct (b !! Z.to_nat i) as [c|] eqn:E.
  - cbn [default]. rewrite Forall_forall in Hall. apply Hall.
    eapply list_elem_of_lookup_2; eassumption.
  - apply lookup_ge_None in E. lia.
Qed.

(** The two loops over the triples go the same way. *)
Lemma scanPatterns_versions b ps :
  legacyWf b ->
  Forall (fun pattern => exists a, pattern !! 0%nat = Some a /\ 0 <= a < 9) ps ->
  match Legacy.scanPatterns b ps with
  | Legacy.CSym y =>
      exists pattern,
        TicTacToe.scanPatterns (cellValue <$> b) ps
        = Some (TicTacToe.Over won (JNum (seatOf y)) (Some pattern))
  | Legacy.CNull => TicTacToe.scanPatterns (cellValue <$> b) ps = None
  | Legacy.CUndefined => False
  end.
Proof.
  intros Hwf. induction ps as [|pattern ps IH]; intros Hps; [reflexivity|].
  apply Forall_cons in Hps as [(a & Ha & Hrange) Hrest].
  cbn [Legacy.scanPatterns TicTacToe.scanPatterns]. cbv zeta.
  unfold TicTacToe.lineOwned. cbv zeta. rewrite !cellValue_get.
  rewrite !cellValue_strict_eq.
  change JNull with (cellValue Legacy.CNull). rewrite cellValue_strict_eq.
  rewrite Ha. pose proof (legacy_get_defined b a Hwf Hrange) as Hdef.
  destruct (Legacy.get b (Some a)) as [| |y] eqn:Hget; [contradiction | |].
  - cbn [Legacy.truthy Legacy.strict_eq negb andb]. now apply IH.
  - change (negb (Legacy.strict_eq (Legacy.CSym y) Legacy.CNull)) with true.
    cbn [Legacy.truthy andb].
    destruct (Legacy.strict_eq (Legacy.CSym y) (Legacy.get b (pattern !! 1%nat))
              && Legacy.strict_eq (Legacy.CSym y) (Legacy.get b (pattern !! 2%nat))).
    + exists pattern. reflexivity.
    + now apply IH.
Qed.

Lemma winPatterns_first :
  Forall (fun pattern => exists a, pattern !! 0%nat = Some a /\ 0 <= a < 9)
         Legacy.winPatterns.
Proof.
  unfold Legacy.winPatterns.
  repeat (constructor; [eexists; split; [reflexivity | lia]|]). constructor.
Qed.

Lemma legacy_get_null b k :
  Legacy.strict_eq (Legacy.get b k) Legacy.CNull = true ->
  exists i, k = Some i /\ 0 <= i /\ (Z.to_nat i < length b)%nat /\
            b !! Z.to_nat i = Some Legacy.CNull.
Proof.
  destruct k as [i|]; [|discriminate]. unfold Legacy.get, elem.
  destruct (Z.ltb_spec i 0); [discriminate|].
  destruct (b !! Z.to_nat i) as [c|] eqn:E; [|discriminate].
  cbn [default]. destruct c; try discriminate. intros _.
  exists i. split; [reflexivity|]. split; [assumption|].
  split; [|assumption]. eapply lookup_lt_Some; eassumption.
Qed.

Lemma legacyWf_set b k y :
  legacyWf b ->
  Legacy.strict_eq (Legacy.get b k) Legacy.CNull = true ->
  legacyWf (Legacy.set b k (Legacy.CSym y)).
Proof.
  intros [Hlen Hall] Hnull.
  destruct (legacy_get_null b k Hnull) as (i & -> & Hi & Hlt & _).
  unfold Legacy.set. destruct (Z.ltb_spec i 0); [lia|]. cbv zeta.
  destruct (Nat.ltb_spec (Z.to_nat i) (length b)); [|lia].
  split; [now rewrite length_insert|].
  apply Forall_insert; [assumption | discriminate].
Qed.

Lemma isValidMove_versions gs y mv wp :
  TicTacToe.isValidMove (engineState gs wp) (seatOf y) mv
  = Status_eqb (Legacy.status gs) playing
    && Legacy.symbol_eqb (Legacy.currentPlayer gs) y
    && Legacy.strict_eq (Legacy.get (Legacy.board gs) (index mv)) Legacy.CNull.
Proof.
  unfold TicTacToe.isValidMove, engineState.
  cbn [TicTacToe.board TicTacToe.currentPlayer TicTacToe.status].
  rewrite cellValue_get.
  change JNull with (cellValue Legacy.CNull). rewrite cellValue_strict_eq.
  assert (Hturn : (seatOf (Legacy.currentPlayer gs) =? seatOf y)
                  = Legacy.symbol_eqb (Legacy.currentPlayer gs) y)
    by (destruct (Legacy.currentPlayer gs), y; reflexivity).
  rewrite Hturn.
  destruct (Status_eqb (Legacy.status gs) playing),
           (Legacy.symbol_eqb (Legacy.currentPlayer gs) y),
           (Legacy.strict_eq (Legacy.get (Legacy.board gs) (index mv)) Legacy.CNull);
    reflexivity.
Qed.

(** X20. The tic-tac-toe engine follows the rules the first version of the
    server had in its [makeMove] handler. On a board of nine cells a move
    is refused by the one exactly when it is refused by the other, and an
    accepted move gives the same board and the same status. The winner
    agrees unless the game is drawn, where the engine writes [null] and the
    first version leaves the field as it was. The turn agrees while the
    game goes on; on the move that ends the game the engine leaves the
    turn with the mover and the first version passes it on. *)
Theorem engine_follows_first_version gs y mv wp :
  legacyWf (Legacy.board gs) ->
  match Legacy.makeMove gs y (index mv),
        TicTacToe.makeMove (engineState gs wp) (seatOf y) mv with
  | None, SameObject => True
  | Some gs', NewObject t' =>
      TicTacToe.board t' = cellValue <$> Legacy.board gs' /\
      TicTacToe.status t' = Legacy.status gs' /\
      (Legacy.status gs' <> draw ->
         TicTacToe.winner t' = cellValue (Legacy.winner gs')) /\
      (Legacy.status gs' = draw ->
         TicTacToe.winner t' = JNull /\ Legacy.winner gs' = Legacy.winner gs) /\
      (Legacy.status gs' = playing ->
         TicTacToe.currentPlayer t' = seatOf (Legacy.currentPlayer gs')) /\
      (Legacy.status gs' <> playing ->
         TicTacToe.currentPlayer t' = seatOf y /\ Legacy.currentPlayer gs' <> y)
  | _, _ => False
  end.
Proof.
  intros Hwf.
  unfold Legacy.makeMove, TicTacToe.makeMove. rewrite isValidMove_versions.
  destruct (Status_eqb (Legacy.status gs) playing) eqn:Hst;
    destruct (Legacy.symbol_eqb (Legacy.currentPlayer gs) y) eqn:Hcp;
    cbn [negb andb]; try exact I.
  destruct (Legacy.strict_eq (Legacy.get (Legacy.board gs) (index mv)) Legacy.CNull)
    eqn:Hnull; cbn [negb]; [|exact I].
  apply Status_eqb_spec in Hst.
  pose proof (legacyWf_set _ _ y Hwf Hnull) as Hwf'.
  pose proof (scanPatterns_versions _ _ Hwf' winPatterns_first) as Hscan.
  cbv zeta. unfold TicTacToe.checkGameOver, Legacy.checkWinner.
  unfold engineState. cbn [TicTacToe.board TicTacToe.currentPlayer TicTacToe.status
    TicTacToe.winner TicTacToe.winningPattern].
  change (JNum (seatOf y)) with (cellValue (Legacy.CSym y)).
  rewrite cellValue_set.
  change TicTacToe.winPatterns with Legacy.winPatterns.
  destruct (Legacy.scanPatterns (Legacy.set (Legacy.board gs) (index mv) (Legacy.CSym y))
              Legacy.winPatterns) as [| |w] eqn:Hw; [contradiction | |].
  - rewrite Hscan, cellValue_includesNull. cbn [Legacy.truthy].
    destruct (Legacy.includesNull _); cbn [negb];
      cbn [TicTacToe.board TicTacToe.status TicTacToe.winner TicTacToe.currentPlayer
           Legacy.board Legacy.status Legacy.winner Legacy.currentPlayer].
    + rewrite Hst. split; [reflexivity|]. split; [reflexivity|].
      split; [reflexivity|]. split; [discriminate|].
      split; [|intros H; now contradiction H].
      intros _. unfold TicTacToe.getNextPlayer. cbn [TicTacToe.currentPlayer].
      destruct (Legacy.currentPlayer gs), y; try discriminate; reflexivity.
    + split; [reflexivity|]. split; [reflexivity|].
      split; [intros H; now contradiction H|]. split; [auto|].
      split; [discriminate|]. intros _.
      destruct (Legacy.currentPlayer gs), y; try discriminate; split;
        try reflexivity; discriminate.
  - destruct Hscan as (pattern & ->). cbn [Legacy.truthy].
    cbn [TicTacToe.board TicTacToe.status TicTacToe.winner TicTacToe.currentPlayer
         Legacy.board Legacy.status Legacy.winner Legacy.currentPlayer].
    split; [reflexivity|]. split; [reflexivity|]. split; [reflexivity|].
    split; [discriminate|]. split; [discriminate|]. intros _.
    destruct (Legacy.currentPlayer gs), y; try discriminate; split;
      try reflexivity; discriminate.
Qed.

End TwoVersions.

(** * The further statements at concrete inputs *)

Section MoreWitnesses.
Import Server.

Lemma wf_demoState : TicTacToe.wf demoState.
Proof. split; [reflexivity | repeat constructor; discriminate]. Qed.

Lemma wf_demoTwo : TicTacToe.wf demoTwo.
Proof. split; [reflexivity | repeat constructor; discriminate]. Qed.

Lemma scan_noLine s :
  TicTacToe.wf s ->
  TicTacToe.scanPatterns (TicTacToe.board s) TicTacToe.winPatterns = None ->
  noLine (TicTacToe.board s).
Proof.
  intros Hwf Hscan (pattern & p & Hin & Hp).
  rewrite scanPatterns_None in Hscan.
  assert (TicTacToe.lineOwned (TicTacToe.board s) pattern = true)
    by (apply lineOwned_owns; eauto).
  rewrite Hscan in *; [discriminate | assumption].
Qed.

Lemma noLine_demoTwo : noLine (TicTacToe.board demoTwo).
Proof. apply (scan_noLine demoTwo wf_demoTwo). reflexivity. Qed.

Lemma legacyWf_demoLegacy : legacyWf (Legacy.board demoLegacy).
Proof. split; [reflexivity | repeat constructor; discriminate]. Qed.

Lemma demoSolo_reachable : reachable demoSolo.
Proof.
  apply (run_reachable (take 1 demoEvents) empty demoSolo reachable_empty).
  vm_compute. reflexivity.
Qed.

Lemma demoPair_reachable : reachable demoPair.
Proof.
  apply (run_reachable (take 2 demoEvents) empty demoPair reachable_empty).
  vm_compute. reflexivity.
Qed.


Lemma seatedOnlyIn_single k0 r0 h sid :
  seatedOnlyIn {| rooms := [(k0, r0)]; heap := h |} sid k0.
Proof.
  intros k r Hget Hne. cbn [rooms rooms_get] in Hget.
  destruct (String.eqb k0 k) eqn:E; [|discriminate].
  apply String_eqb_eq in E. congruence.
Qed.

Lemma ttt_draw_exact_witness :
  TicTacToe.wf demoState /\
  noLine (TicTacToe.board demoState) /\
  (0 < emptyCells (TicTacToe.board demoState))%nat.
Proof.
  split; [exact wf_demoState|].
  exact (proj1 (proj1 (proj2 (ttt_draw_exact demoState wf_demoState))) eq_refl).
Defined.

Lemma ttt_move_fills_one_cell_witness :
  TicTacToe.wf demoOpening /\
  TicTacToe.isValidMove demoOpening 0 (cellMove 4) = true /\
  exists s',
    TicTacToe.makeMove demoOpening 0 (cellMove 4) = NewObject s' /\
    js_get (TicTacToe.board s') (Some 4) = JNum 0 /\
    (emptyCells (TicTacToe.board s') + 1
     = emptyCells (TicTacToe.board demoOpening))%nat.
Proof.
  split; [exact wf_demoOpening|]. split; [reflexivity|].
  destruct (ttt_move_fills_one_cell demoOpening 0 (cellMove 4) wf_demoOpening eq_refl)
    as (i & s' & Hi & _ & Hmm & _ & Hcell & _ & _ & Hcount).
  injection Hi as <-. exists s'. auto.
Defined.

Lemma ttt_winner_is_mover_witness :
  TicTacToe.wf demoTwo /\
  noLine (TicTacToe.board demoTwo) /\
  TicTacToe.isValidMove demoTwo 0 (cellMove 2) = true /\
  exists s',
    TicTacToe.makeMove demoTwo 0 (cellMove 2) = NewObject s' /\
    TicTacToe.status s' = won /\
    TicTacToe.winner s' = JNum 0.
Proof.
  split; [exact wf_demoTwo|]. split; [exact noLine_demoTwo|].
  split; [reflexivity|].
  eexists. split; [vm_compute; reflexivity|]. split; [reflexivity|].
  exact (proj1 (ttt_winner_is_mover demoTwo 0 (cellMove 2) _
                  wf_demoTwo noLine_demoTwo eq_refl eq_refl eq_refl)).
Defined.

Lemma c4_draw_exact_witness :
  Connect4.wf demoThree /\
  ownedBy (Connect4.board demoThree) 0 0 5 /\
  ~ winsAt (Connect4.board demoThree) 0 0 5 /\
  exists x, 0 <= x < 7 /\ Connect4.cellAt (Connect4.board demoThree) x 0 = JNull.
Proof.
  assert (Hown : ownedBy (Connect4.board demoThree) 0 0 5).
  { split; [lia|]. split; [lia|]. reflexivity. }
  split; [exact wf_demoThree|]. split; [exact Hown|].
  exact (proj1 (proj2 (c4_draw_exact demoThree 0 5 0 wf_demoThree Hown)) eq_refl).
Defined.

Lemma c4_gravity_kept_witness :
  Connect4.wf freshPlaying /\
  gravity (Connect4.board freshPlaying) /\
  Connect4.isValidMove freshPlaying 0 (columnMove 3) = Some true /\
  exists s',
    Connect4.makeMove freshPlaying 0 (columnMove 3) = Some (NewObject s') /\
    gravity (Connect4.board s').
Proof.
  split; [exact wf_freshPlaying|]. split; [exact gravity_init|].
  split; [reflexivity|].
  eexists. split; [vm_compute; reflexivity|].
  exact (proj1 (c4_gravity_kept freshPlaying 0 (columnMove 3) _
                  wf_freshPlaying gravity_init eq_refl eq_refl)).
Defined.

Lemma c4_valid_iff_room_witness :
  Connect4.wf freshPlaying /\
  gravity (Connect4.board freshPlaying) /\
  Connect4.isValidMove freshPlaying 0 (columnMove 3) = Some true /\
  exists c y,
    column (columnMove 3) = Some c /\ 0 <= c < 7 /\ 0 <= y < 6 /\
    Connect4.cellAt (Connect4.board freshPlaying) c y = JNull.
Proof.
  split; [exact wf_freshPlaying|]. split; [exact gravity_init|].
  split; [reflexivity|].
  exact (proj2 (proj2 (proj1 (proj1 (c4_valid_iff_room freshPlaying 0 (columnMove 3)
                                       wf_freshPlaying gravity_init)) eq_refl))).
Defined.

Lemma c4_winning_cells_witness :
  Connect4.wf demoThree /\
  Connect4.isValidMove demoThree 0 (columnMove 3) = Some true /\
  exists s' cells,
    Connect4.makeMove demoThree 0 (columnMove 3) = Some (NewObject s') /\
    Connect4.status s' = won /\
    Connect4.winner s' = JNum 0 /\
    Connect4.winningCells s' = Some cells /\
    head cells = Some (3, 5) /\
    (4 <= length cells <= 7)%nat.
Proof.
  split; [exact wf_demoThree|]. split; [reflexivity|].
  assert (H : exists s', Connect4.makeMove demoThree 0 (columnMove 3)
                         = Some (NewObject s') /\
                         Connect4.status s' = won /\
                         head (default [] (Connect4.winningCells s')) = Some (3, 5))
    by (eexists; split; [vm_compute; reflexivity | split; reflexivity]).
  destruct H as (s' & Hmm & Hst & Hhead).
  destruct (c4_winning_cells demoThree 0 (columnMove 3) s' wf_demoThree eq_refl Hmm Hst)
    as (c & r & cells & d & _ & Hw & Hcells & _ & _ & _ & _ & Hlen).
  exists s', cells. rewrite Hcells in Hhead. cbn [default] in Hhead. auto 10.
Defined.

Lemma game_length_bounded_witness :
  wfState TicTacToeGame (TState demoOpening) /\
  exists s',
    play TicTacToeGame (TState demoOpening) [(0, cellMove 4); (1, cellMove 0)]
      = Some s' /\
    (freeCells s' + 2 = 9)%nat.
Proof.
  split; [exact wf_demoOpening|].
  eexists. split; [vm_compute; reflexivity|].
  exact (proj1 (game_length_bounded TicTacToeGame (TState demoOpening)
                  [(0, cellMove 4); (1, cellMove 0)] _ wf_demoOpening eq_refl)).
Defined.

Lemma reachable_room_shape_witness :
  reachable demoServer /\
  rooms_get (rooms demoServer) "abc123" = Some demoRoom /\
  Forall (seatOk (gameInstance demoRoom)) (players demoRoom).
Proof.
  split; [exact demoServer_reachable|]. split; [reflexivity|].
  exact (proj1 (proj2 (proj2 (proj2
    (reachable_room_shape demoServer "abc123" demoRoom
       demoServer_reachable eq_refl))))).
Defined.


Lemma replies_to_sender_broadcasts_to_room_witness :
  exists σ' out,
    handle demoServer "d" (joinRoom "abc123" "Dave") = Some (σ', out) /\
    (toRoom "abc123", spectatorJoined "Dave") ∈ out /\
    exists roomId, toRoom "abc123" = toRoom roomId.
Proof.
  do 2 eexists. split; [vm_compute; reflexivity|].
  assert (Hin : (toRoom "abc123", spectatorJoined "Dave")
                ∈ [(toSocket,
                    joinedAsSpectator "abc123" "tic-tac-toe" (TState demoState)
                                      [demoAlice; demoBob]);
                   (toRoom "abc123", spectatorJoined "Dave")])
    by (right; left).
  split; [exact Hin|].
  exact (replies_to_sender_broadcasts_to_room demoServer "d"
           (joinRoom "abc123" "Dave") _ _ (toRoom "abc123")
           (spectatorJoined "Dave") eq_refl Hin).
Defined.

Lemma last_player_leaves_room_deleted_witness :
  reachable demoSolo /\
  seatedOnlyIn demoSolo "a" "abc123" /\
  exists σ' out,
    handle demoSolo "a" disconnect = Some (σ', out) /\
    rooms_get (rooms σ') "abc123" = None /\
    handle σ' "b" (joinRoom "abc123" "Bob")
    = Some (σ', [(toSocket, error "Room not found")]).
Proof.
  pose proof (seatedOnlyIn_single "abc123" demoSoloRoom
                [TState TicTacToe.init] "a") as Honly.
  split; [exact demoSolo_reachable|]. split; [exact Honly|].
  destruct (last_player_leaves_room_deleted demoSolo "a" "abc123" demoSoloRoom
              demoAlice demoSolo_reachable eq_refl eq_refl eq_refl Honly)
    as (σ' & out & Hstep & Hgone & _ & _ & Hjoin).
  exists σ', out. auto.
Defined.

Lemma player_leaves_room_waits_witness :
  reachable demoServer /\
  seatedOnlyIn demoServer "a" "abc123" /\
  exists σ' out room',
    handle demoServer "a" disconnect = Some (σ', out) /\
    rooms_get (rooms σ') "abc123" = Some room' /\
    length (players room') = 1%nat /\
    heap σ' !! gameState room' = Some (setStatus waiting (TState demoState)).
Proof.
  pose proof (seatedOnlyIn_single "abc123" demoRoom
                [TState demoOpening; TState demoState] "a") as Honly.
  split; [exact demoServer_reachable|]. split; [exact Honly|].
  destruct (player_leaves_room_waits demoServer "a" "abc123" demoRoom demoAlice
              (TState demoState) demoServer_reachable eq_refl eq_refl eq_refl
              eq_refl Honly)
    as (i & σ' & out & room' & _ & Hstep & Hroom & _ & Hlen & _ & _ & Hs & _).
  exists σ', out, room'. auto.
Defined.

Lemma join_seats_or_spectates_witness :
  reachable demoServer /\
  exists σ' out room',
    handle demoServer "d" (joinRoom "abc123" "Dave") = Some (σ', out) /\
    rooms_get (rooms σ') "abc123" = Some room' /\
    gameState room' = gameState demoRoom.
Proof.
  split; [exact demoServer_reachable|].
  destruct (join_seats_or_spectates demoServer "d" "abc123" "Dave" demoRoom
              (TState demoState) demoServer_reachable eq_refl eq_refl)
    as (σ' & out & room' & Hstep & Hroom & Hloc & _).
  exists σ', out, room'. auto.
Defined.

Lemma leave_then_join_resumes_witness :
  reachable demoServer /\
  seatedOnlyIn demoServer "a" "abc123" /\
  exists σ1 out1 σ2 out2 room2,
    handle demoServer "a" disconnect = Some (σ1, out1) /\
    handle σ1 "d" (joinRoom "abc123" "Dave") = Some (σ2, out2) /\
    rooms_get (rooms σ2) "abc123" = Some room2 /\
    heap σ2 !! gameState room2 = Some (setStatus playing (TState demoState)).
Proof.
  pose proof (seatedOnlyIn_single "abc123" demoRoom
                [TState demoOpening; TState demoState] "a") as Honly.
  split; [exact demoServer_reachable|]. split; [exact Honly|].
  destruct (leave_then_join_resumes demoServer "a" "d" "Dave" "abc123" demoRoom
              demoAlice (TState demoState) demoServer_reachable eq_refl eq_refl
              eq_refl eq_refl Honly)
    as (i & σ1 & out1 & σ2 & out2 & room2 & _ & H1 & H2 & Hroom & _ & Hs & _).
  exists σ1, out1, σ2, out2, room2. auto.
Defined.

Lemma seat_zero_left_no_one_moves_witness :
  reachable demoPair /\
  currentPlayerOf (TState demoOpening) = 0 /\
  seatedOnlyIn demoPair "a" "abc123" /\
  exists σ1 out1 σ2 out2,
    handle demoPair "a" disconnect = Some (σ1, out1) /\
    handle σ1 "d" (joinRoom "abc123" "Dave") = Some (σ2, out2) /\
    handle σ2 "b" (makeMoveEv "abc123" (cellMove 4)) = Some (σ2, []) /\
    handle σ2 "d" (makeMoveEv "abc123" (cellMove 4)) = Some (σ2, []).
Proof.
  pose proof (seatedOnlyIn_single "abc123" demoPairRoom [TState demoOpening] "a")
    as Honly.
  split; [exact demoPair_reachable|]. split; [reflexivity|]. split; [exact Honly|].
  destruct (seat_zero_left_no_one_moves demoPair "a" "d" "Dave" "abc123"
              demoPairRoom demoAlice demoBob (TState demoOpening)
              demoPair_reachable eq_refl eq_refl eq_refl eq_refl eq_refl eq_refl Honly)
    as (σ1 & out1 & σ2 & out2 & room2 & H1 & H2 & _ & _ & _ & Hstuck).
  exists σ1, out1, σ2, out2. auto.
Defined.

Lemma pieces_change_by_valid_move_only_witness :
  reachable demoServer /\
  exists σ' out room' s',
    handle demoServer "b" (makeMoveEv "abc123" (cellMove 0)) = Some (σ', out) /\
    rooms_get (rooms σ') "abc123" = Some room' /\
    heap σ' !! gameState room' = Some s' /\
    freeCells s' <> freeCells (TState demoState) /\
    (makeMoveEv "abc123" (cellMove 0) = resetGame "abc123" \/
     (exists u gt uuid,
        makeMoveEv "abc123" (cellMove 0) = createRoom u gt uuid /\
        substring 0 6 uuid = "abc123"%string) \/
     (exists mv player,
        makeMoveEv "abc123" (cellMove 0) = makeMoveEv "abc123" mv /\
        find (isSocket "b") (players demoRoom) = Some player /\
        p_index player = currentPlayerOf (TState demoState) /\
        statusOf (TState demoState) = playing /\
        (freeCells s' + 1 = freeCells (TState demoState))%nat /\
        occupiedKept (TState demoState) s')).
Proof.
  split; [exact demoServer_reachable|].
  assert (H : exists σ' out room' s',
             handle demoServer "b" (makeMoveEv "abc123" (cellMove 0))
             = Some (σ', out) /\
             rooms_get (rooms σ') "abc123" = Some room' /\
             heap σ' !! gameState room' = Some s' /\
             freeCells s' <> freeCells (TState demoState)).
  { do 4 eexists. split; [vm_compute; reflexivity|].
    split; [vm_compute; reflexivity|]. split; [vm_compute; reflexivity|].
    discriminate. }
  destruct H as (σ' & out & room' & s' & Hstep & Hroom & Hs & Hdiff).
  exists σ', out, room', s'. repeat (split; [assumption|]).
  exact (pieces_change_by_valid_move_only demoServer "b"
           (makeMoveEv "abc123" (cellMove 0)) σ' out "abc123" demoRoom room'
           (TState demoState) s' demoServer_reachable Hstep eq_refl eq_refl
           Hroom Hs Hdiff).
Defined.

Lemma engine_follows_first_version_witness :
  legacyWf (Legacy.board demoLegacy) /\
  exists gs' t',
    Legacy.makeMove demoLegacy Legacy.X (Some 8) = Some gs' /\
    TicTacToe.makeMove (engineState demoLegacy None) 0 (cellMove 8)
    = NewObject t' /\
    Legacy.status gs' = won /\
    TicTacToe.board t' = cellValue <$> Legacy.board gs' /\
    TicTacToe.status t' = Legacy.status gs'.
Proof.
  split; [exact legacyWf_demoLegacy|].
  do 2 eexists. split; [vm_compute; reflexivity|].
  split; [vm_compute; reflexivity|]. split; [reflexivity|].
  pose proof (engine_follows_first_version demoLegacy Legacy.X (cellMove 8) None
                legacyWf_demoLegacy) as H.
  vm_compute in H. destruct H as (Hb & Hs & _). split; [exact Hb | exact Hs].
Defined.

Lemma demoTwice_reachable : reachable demoTwice.
Proof.
  apply (run_reachable demoTwiceEvents empty demoTwice reachable_empty).
  vm_compute. reflexivity.
Qed.

Lemma disconnect_stops_at_first_seat_witness :
  reachable demoTwice /\
  find (isSocket "a") (players demoSecondRoom) = Some demoAlice /\
  exists σ' out,
    handle demoTwice "a" disconnect = Some (σ', out) /\
    rooms_get (rooms σ') "abc123" = None /\
    rooms_get (rooms σ') "def456" = Some demoSecondRoom.
Proof.
  split; [exact demoTwice_reachable|]. split; [reflexivity|].
  assert (Hnone : forall k r, (k, r) ∈ @nil (string * room) ->
                    find (isSocket "a") (players r) = None)
    by (intros k r H; inversion H).
  destruct (disconnect_stops_at_first_seat demoTwice "a" [] "abc123" demoSoloRoom
              [("def456"%string, demoSecondRoom)] demoAlice
              demoTwice_reachable eq_refl eq_refl Hnone)
    as (σ' & out & Hstep & Hlater).
  exists σ', out. split; [exact Hstep|].
  assert (Hgone : rooms_get (rooms σ') "abc123" = None).
  { vm_compute in Hstep. injection Hstep as <- _. reflexivity. }
  split; [exact Hgone|].
  apply (Hlater "def456"%string demoSecondRoom). left.
Defined.

End MoreWitnesses.
